(** * Markdown editor: selection transformer and markdown-to-HTML converter

    A shallow embedding of [src/components/TextEditor.tsx]: the format
    registry [formats], the selection transformer [formatText] and the
    converter [convertToHTML], together with the fragment of the ECMAScript
    string and RegExp library these functions call. *)

From Stdlib Require Import List ZArith Lia Bool Ascii String.
Import ListNotations.

(** ** ECMAScript strings

    A JavaScript string is a sequence of UTF-16 code units.  None of the
    regular expressions of the source carries the [u] flag, so every
    operation below works on code units. *)

Module JS.

Definition CodeUnit := N.
Definition JSString := list CodeUnit.

Definition cu (a : ascii) : CodeUnit := N_of_ascii a.

(** A string literal of the source, written with Rocq's string notation. *)
Definition str (s : string) : JSString := map cu (list_ascii_of_string s).

Definition LF : CodeUnit := 10%N.
Definition DQ : CodeUnit := 34%N.

Definition length (s : JSString) : Z := Z.of_nat (List.length s).

Fixpoint prefixb (p s : JSString) : bool :=
  match p, s with
  | [], _ => true
  | _ :: _, [] => false
  | a :: p', b :: s' => N.eqb a b && prefixb p' s'
  end.

Definition clamp (x lo hi : Z) : Z := Z.min (Z.max x lo) hi.

(** [String.prototype.substring (start, end)]: both arguments are clamped to
    [0, length] and swapped when [start > end]. *)
Definition substring (s : JSString) (a b : Z) : JSString :=
  let len := length s in
  let finalStart := clamp a 0 len in
  let finalEnd := clamp b 0 len in
  let from := Z.min finalStart finalEnd in
  let to := Z.max finalStart finalEnd in
  firstn (Z.to_nat (to - from)) (skipn (Z.to_nat from) s).

(** [substring (start)], the end defaulting to the length. *)
Definition substring_from (s : JSString) (a : Z) : JSString :=
  substring s a (length s).

(** [String.prototype.startsWith (searchString)], position 0. *)
Definition startsWith (s p : JSString) : bool := prefixb p s.

(** [index_from p t i]: [t] is the suffix of the subject at index [i]. *)
Fixpoint index_from (p t : JSString) (i : nat) : Z :=
  if prefixb p t then Z.of_nat i
  else match t with
       | [] => (-1)%Z
       | _ :: t' => index_from p t' (S i)
       end.

(** [String.prototype.indexOf (searchString, position)]. *)
Definition indexOf (s p : JSString) (pos : Z) : Z :=
  let start := Z.to_nat (clamp pos 0 (length s)) in
  index_from p (skipn start s) start.

Fixpoint last_index_from (p s : JSString) (k : nat) : Z :=
  if prefixb p (skipn k s) then Z.of_nat k
  else match k with
       | O => (-1)%Z
       | S k' => last_index_from p s k'
       end.

(** [String.prototype.lastIndexOf (searchString, position)]: the position is
    clamped to [0, length - searchLength], so a negative position searches
    at index 0. *)
Definition lastIndexOf (s p : JSString) (pos : Z) : Z :=
  let len := length s in
  let searchLen := length p in
  if (len <? searchLen)%Z then (-1)%Z
  else last_index_from p s (Z.to_nat (clamp pos 0 (len - searchLen))).

End JS.

(** ** ECMAScript regular expressions

    The backtracking matcher of the language specification, in
    continuation-passing style, for the constructs the source's literals
    use: literal characters, character classes, a quantified character
    class (greedy or lazy), capture groups, sequence and the line anchors. *)

Module RegExp.
Import JS.

Definition isLineTerminator (c : CodeUnit) : bool :=
  N.eqb c 10 || N.eqb c 13 || N.eqb c 8232 || N.eqb c 8233.

(** [.] without the [s] flag *)
Definition dot (c : CodeUnit) : bool := negb (isLineTerminator c).

(** [\d] *)
Definition digit (c : CodeUnit) : bool := N.leb 48 c && N.leb c 57.

(** [\s]: WhiteSpace and LineTerminator *)
Definition space (c : CodeUnit) : bool :=
  (N.leb 9 c && N.leb c 13) || N.eqb c 32 || N.eqb c 160 || N.eqb c 5760
  || (N.leb 8192 c && N.leb c 8202) || N.eqb c 8232 || N.eqb c 8233
  || N.eqb c 8239 || N.eqb c 8287 || N.eqb c 12288 || N.eqb c 65279.

(** [[\s\S]] *)
Definition any (c : CodeUnit) : bool := space c || negb (space c).

(** [[...]] listing single characters *)
Definition oneOf (l : JSString) (c : CodeUnit) : bool :=
  existsb (N.eqb c) l.

Inductive regex :=
| Empty
| Chr (c : CodeUnit)
| Cls (p : CodeUnit -> bool)
| Rep (p : CodeUnit -> bool) (min : nat) (greedy : bool)
| Grp (n : nat) (r : regex)
| Seq (r1 r2 : regex)
| Bol
| Eol.

Definition lazy := false.
Definition greedy := true.

(** A run of literal characters and a sequence of terms. *)
Definition lit (l : JSString) : regex :=
  fold_right (fun c r => Seq (Chr c) r) Empty l.

Definition seq (l : list regex) : regex := fold_right Seq Empty l.

Fixpoint groups (r : regex) : nat :=
  match r with
  | Grp _ r' => S (groups r')
  | Seq r1 r2 => groups r1 + groups r2
  | _ => 0
  end.

Record RegExp := {
  source : regex;
  global : bool;
  multiline : bool
}.

(** The matcher's state: the code units before the current position (most
    recent first), those from the current position on, and the captures. *)
Record MatchState := {
  before : JSString;
  after : JSString;
  captures : list (nat * JSString)
}.

Definition Continuation := MatchState -> option MatchState.

Definition advance (x : CodeUnit) (t : JSString) (s : MatchState) : MatchState :=
  {| before := x :: before s; after := t; captures := captures s |}.

Definition atLineStart (multi : bool) (s : MatchState) : bool :=
  match before s with
  | [] => true
  | c :: _ => multi && isLineTerminator c
  end.

Definition atLineEnd (multi : bool) (s : MatchState) : bool :=
  match after s with
  | [] => true
  | c :: _ => multi && isLineTerminator c
  end.

(** The quantifier loop over a character class: [min] mandatory characters,
    then as many as possible (greedy) or as few as possible (lazy). *)
Fixpoint repeat (p : CodeUnit -> bool) (min : nat) (g : bool)
    (k : JSString -> JSString -> option MatchState)
    (bef aft : JSString) {struct aft} : option MatchState :=
  match min with
  | S min' =>
      match aft with
      | x :: t => if p x then repeat p min' g k (x :: bef) t else None
      | [] => None
      end
  | O =>
      if g then
        match aft with
        | x :: t =>
            if p x then
              match repeat p O g k (x :: bef) t with
              | Some r => Some r
              | None => k bef aft
              end
            else k bef aft
        | [] => k bef aft
        end
      else
        match k bef aft with
        | Some r => Some r
        | None =>
            match aft with
            | x :: t => if p x then repeat p O g k (x :: bef) t else None
            | [] => None
            end
        end
  end.

Fixpoint matcher (multi : bool) (r : regex) (k : Continuation)
    (s : MatchState) : option MatchState :=
  match r with
  | Empty => k s
  | Chr c =>
      match after s with
      | x :: t => if N.eqb x c then k (advance x t s) else None
      | [] => None
      end
  | Cls p =>
      match after s with
      | x :: t => if p x then k (advance x t s) else None
      | [] => None
      end
  | Rep p min g =>
      repeat p min g
        (fun b a => k {| before := b; after := a; captures := captures s |})
        (before s) (after s)
  | Grp n r' =>
      matcher multi r'
        (fun s' =>
           let consumed := List.length (after s) - List.length (after s') in
           k {| before := before s'; after := after s';
                captures := (n, firstn consumed (after s)) :: captures s' |})
        s
  | Seq r1 r2 => matcher multi r1 (matcher multi r2 k) s
  | Bol => if atLineStart multi s then k s else None
  | Eol => if atLineEnd multi s then k s else None
  end.

(** One attempt at a fixed position: the length of the match and its
    captures. *)
Definition matchAt (re : RegExp) (bef aft : JSString)
    : option (nat * list (nat * JSString)) :=
  match matcher (multiline re) (source re) Some
          {| before := bef; after := aft; captures := [] |} with
  | Some s' => Some (List.length aft - List.length (after s'), captures s')
  | None => None
  end.

(** The loop of RegExpBuiltinExec: the first position from the current one
    on at which the pattern matches. Returns the index of the match, its
    length and its captures. *)
Fixpoint search (re : RegExp) (bef aft : JSString) {struct aft}
    : option (nat * nat * list (nat * JSString)) :=
  match matchAt re bef aft with
  | Some (n, caps) => Some (List.length bef, n, caps)
  | None =>
      match aft with
      | x :: t => search re (x :: bef) t
      | [] => None
      end
  end.

Definition exec (re : RegExp) (lastIndex : nat) (s : JSString)
    : option (nat * nat * list (nat * JSString)) :=
  if Nat.ltb (List.length s) lastIndex then None
  else search re (rev (firstn lastIndex s)) (skipn lastIndex s).

(** [RegExp.prototype.test]: the result and the new [lastIndex] of the
    regular expression object. *)
Definition test (re : RegExp) (lastIndex : nat) (s : JSString) : bool * nat :=
  let li := if global re then lastIndex else 0 in
  match exec re li s with
  | Some (i, n, _) => (true, if global re then i + n else lastIndex)
  | None => (false, if global re then 0 else lastIndex)
  end.

Fixpoint capture (n : nat) (caps : list (nat * JSString)) : JSString :=
  match caps with
  | [] => []
  | (i, c) :: rest => if Nat.eqb i n then c else capture n rest
  end.

Definition digitValue (d : CodeUnit) : nat := N.to_nat (d - 48).

(** GetSubstitution for the forms [$$], [$&] and [$1] to [$9]; the
    replacement templates of the source use only [$1] and [$2]. *)
Fixpoint substitute (tpl matched : JSString) (m : nat)
    (caps : list (nat * JSString)) : JSString :=
  match tpl with
  | [] => []
  | c :: t =>
      if N.eqb c 36 then
        match t with
        | d :: t' =>
            if N.eqb d 36 then 36%N :: substitute t' matched m caps
            else if N.eqb d 38 then matched ++ substitute t' matched m caps
            else if N.leb 49 d && N.leb d 57 && Nat.leb (digitValue d) m
            then capture (digitValue d) caps ++ substitute t' matched m caps
            else c :: substitute t matched m caps
        | [] => [c]
        end
      else c :: substitute t matched m caps
  end.

(** The copying loop of [RegExp.prototype[Symbol.replace]] for a global
    pattern, position by position: [skip] counts the code units of the
    previous match still to be passed over. After an empty match the search
    resumes one position further. *)
Fixpoint replaceAll (re : RegExp) (tpl : JSString) (bef aft : JSString)
    (skip : nat) {struct aft} : JSString :=
  match skip with
  | S skip' =>
      match aft with
      | x :: t => replaceAll re tpl (x :: bef) t skip'
      | [] => []
      end
  | O =>
      match matchAt re bef aft with
      | Some (n, caps) =>
          substitute tpl (firstn n aft) (groups (source re)) caps ++
          match aft with
          | x :: t =>
              match n with
              | O => x :: replaceAll re tpl (x :: bef) t 0
              | S n' => replaceAll re tpl (x :: bef) t n'
              end
          | [] => []
          end
      | None =>
          match aft with
          | x :: t => x :: replaceAll re tpl (x :: bef) t 0
          | [] => []
          end
      end
  end.

(** [String.prototype.replace (regexp, template)]. A global pattern starts
    from index 0 whatever its [lastIndex] and leaves [lastIndex] at 0. *)
Definition replace (s : JSString) (re : RegExp) (tpl : JSString) : JSString :=
  if global re then replaceAll re tpl [] s 0
  else
    match search re [] s with
    | Some (i, n, caps) =>
        firstn i s ++
        substitute tpl (firstn n (skipn i s)) (groups (source re)) caps ++
        skipn (i + n) s
    | None => s
    end.

End RegExp.

(** ** The editor component *)

Module Editor.
Import JS RegExp.

Open Scope string_scope.
Open Scope list_scope.

Inductive FormatType := inline | line | block | special.

(** [interface Format] *)
Record Format := {
  pattern : option RegExp;
  marker : JSString;
  type : FormatType;
  label : option string;
  endMarker : option JSString;
  handler : option (JSString -> JSString)
}.

Definition regexp (r : regex) (g m : bool) : RegExp :=
  {| source := r; global := g; multiline := m |}.

(** [/\*\*(.*?)\*\*/g] *)
Definition bold_pattern : RegExp :=
  regexp (seq [lit (str "**"); Grp 1 (Rep dot 0 lazy); lit (str "**")]) true false.

(** [/\*(.*?)\*/g] *)
Definition italic_pattern : RegExp :=
  regexp (seq [lit (str "*"); Grp 1 (Rep dot 0 lazy); lit (str "*")]) true false.

(** [/`(.*?)`/g] *)
Definition code_pattern : RegExp :=
  regexp (seq [lit (str "`"); Grp 1 (Rep dot 0 lazy); lit (str "`")]) true false.

(** [/~~(.*?)~~/g] *)
Definition strikethrough_pattern : RegExp :=
  regexp (seq [lit (str "~~"); Grp 1 (Rep dot 0 lazy); lit (str "~~")]) true false.

Definition inlineFormat (p : RegExp) (mk : string) : Format :=
  {| pattern := Some p; marker := str mk; type := inline; label := None;
     endMarker := None; handler := None |}.

Definition lineFormat (mk lbl : string) : Format :=
  {| pattern := None; marker := str mk; type := line; label := Some lbl;
     endMarker := None; handler := None |}.

(** The registry [formats], in the order of the source. It is rebuilt on
    every render, so every regular expression object in it starts with
    [lastIndex = 0]. *)
Definition formats : list (string * Format) :=
  [ ("bold", inlineFormat bold_pattern "**");
    ("italic", inlineFormat italic_pattern "*");
    ("code", inlineFormat code_pattern "`");
    ("strikethrough", inlineFormat strikethrough_pattern "~~");
    ("h1", lineFormat "# " "Heading 1");
    ("h2", lineFormat "## " "Heading 2");
    ("h3", lineFormat "### " "Heading 3");
    ("bulletList", lineFormat "- " "Bullet List");
    ("numberList", lineFormat "1. " "Numbered List");
    ("blockquote", lineFormat "> " "Blockquote");
    ("horizontalRule",
       {| pattern := None; marker := LF :: str "---" ++ [LF]; type := special;
          label := Some "Horizontal Rule"; endMarker := None;
          handler := None |});
    ("codeBlock",
       {| pattern := None; marker := LF :: str "```" ++ [LF]; type := block;
          label := Some "Code Block"; endMarker := Some (LF :: str "```");
          handler := None |});
    ("link",
       {| pattern := None; marker := []; type := special;
          label := Some "Link"; endMarker := None;
          handler := Some (fun selectedText =>
                             str "[" ++ selectedText ++ str "](url)") |});
    ("image",
       {| pattern := None; marker := []; type := special;
          label := Some "Image"; endMarker := None;
          handler := Some (fun selectedText =>
                             str "![" ++ selectedText ++ str "](image-url)") |})
  ].

(** The own properties of the object [formats]: [lookup key formats] is the
    value of [formats[key]] when [key] is one of the keys written in the
    object literal, and [None] when it is not. *)
Fixpoint lookup (key : string) (o : list (string * Format)) : option Format :=
  match o with
  | [] => None
  | (k, v) :: rest => if String.eqb k key then Some v else lookup key rest
  end.

(** [formats] is an object literal, so a key that is not its own is looked
    up in [Object.prototype]. These are the names found there: for each of
    them [formats[key]] is a function, or the prototype object itself for
    [__proto__], and none of these values has a property [type]. For every
    other key [formats[key]] is [undefined]. *)
Definition objectPrototype : list string :=
  ["constructor"; "hasOwnProperty"; "isPrototypeOf"; "propertyIsEnumerable";
   "toLocaleString"; "toString"; "valueOf"; "__proto__";
   "__defineGetter__"; "__defineSetter__";
   "__lookupGetter__"; "__lookupSetter__"].

(** [formatText], on the current [text] and the textarea's selection
    [start], [end] (read from the textarea; without a textarea the function
    returns before doing anything). The result is the pair of [newText],
    given to [setText], and [newCursorPosition], given to
    [setSelectionRange]. For an identifier that is no key of the registry
    but a name inherited from [Object.prototype], [format.type] is
    [undefined], no case of the [switch] runs, and the text is set again as
    it is with the cursor at the selection start. For any other identifier
    outside the registry [format] is [undefined] and [format.type] throws:
    [None]. The regular expression of an inline format
    is tested from [lastIndex = 0]: the registry is rebuilt on every render,
    and both a failed [test] and [replace] leave [lastIndex] at 0. *)
Definition formatText (text : JSString) (start end_ : Z) (formatType : string)
    : option (JSString * Z) :=
  let selectedText := substring text start end_ in
  match lookup formatType formats with
  | None =>
      if existsb (String.eqb formatType) objectPrototype
      then Some (text, start)
      else None
  | Some format =>
      match type format with
      | inline =>
          let hasFormat :=
            match pattern format with
            | Some p => fst (test p 0 selectedText)
            | None => false
            end in
          let newContent :=
            match hasFormat, pattern format with
            | true, Some p => replace selectedText p (str "$1")
            | _, _ => marker format ++ selectedText ++ marker format
            end in
          Some (substring text 0 start ++ newContent ++ substring_from text end_,
                (start + length newContent)%Z)
      | line =>
          let lineStart := (lastIndexOf text [LF] (start - 1) + 1)%Z in
          let lineEnd := indexOf text [LF] end_ in
          let stop := if (lineEnd =? -1)%Z then length text else lineEnd in
          let currentLine := substring text lineStart stop in
          let hasFormat := startsWith currentLine (marker format) in
          if hasFormat then
            Some (substring text 0 lineStart ++
                  substring_from currentLine (length (marker format)) ++
                  substring_from text stop,
                  start)
          else
            Some (substring text 0 lineStart ++
                  marker format ++
                  currentLine ++
                  substring_from text stop,
                  start)
      | block =>
          Some (substring text 0 start ++
                marker format ++
                selectedText ++
                match endMarker format with
                | Some e => e
                | None => []
                end ++
                substring_from text end_,
                start)
      | special =>
          match handler format with
          | Some h =>
              let newContent := h selectedText in
              Some (substring text 0 start ++ newContent ++ substring_from text end_,
                    (start + length newContent)%Z)
          | None =>
              Some (substring text 0 start ++ marker format ++
                    substring_from text end_,
                    (start + length (marker format))%Z)
          end
      end
  end.

(** The conversion rules of [convertToHTML], in the order of the source. *)
Definition restOfLine : regex := Grp 1 (seq [Rep dot 0 greedy; Eol]).

Definition conversions : list (RegExp * JSString) :=
  [ (* /```([\s\S]*?)```/g *)
    (regexp (seq [lit (str "```"); Grp 1 (Rep any 0 lazy); lit (str "```")])
       true false,
     str "<pre><code>$1</code></pre>");
    (* /^### (.*$)/gm *)
    (regexp (seq [Bol; lit (str "### "); restOfLine]) true true,
     str "<h3>$1</h3>");
    (* /^## (.*$)/gm *)
    (regexp (seq [Bol; lit (str "## "); restOfLine]) true true,
     str "<h2>$1</h2>");
    (* /^# (.*$)/gm *)
    (regexp (seq [Bol; lit (str "# "); restOfLine]) true true,
     str "<h1>$1</h1>");
    (* /^> (.*$)/gm *)
    (regexp (seq [Bol; lit (str "> "); restOfLine]) true true,
     str "<blockquote>$1</blockquote>");
    (* /^\d+\. (.*$)/gm *)
    (regexp (seq [Bol; Rep digit 1 greedy; lit (str ". "); restOfLine])
       true true,
     str "<ol><li>$1</li></ol>");
    (* /^- (.*$)/gm *)
    (regexp (seq [Bol; lit (str "- "); restOfLine]) true true,
     str "<ul><li>$1</li></ul>");
    (* /^---([\s\S])/gm *)
    (regexp (seq [Bol; lit (str "---"); Grp 1 (Cls any)]) true true,
     str "<hr>$1");
    (* /\*\*(.*?)\*\*/g *)
    (regexp (seq [lit (str "**"); Grp 1 (Rep dot 0 lazy); lit (str "**")])
       true false,
     str "<strong>$1</strong>");
    (* /\*(.*?)\*/g *)
    (regexp (seq [lit (str "*"); Grp 1 (Rep dot 0 lazy); lit (str "*")])
       true false,
     str "<em>$1</em>");
    (* /`(.*?)`/g *)
    (regexp (seq [lit (str "`"); Grp 1 (Rep dot 0 lazy); lit (str "`")])
       true false,
     str "<code>$1</code>");
    (* /~~(.*?)~~/g *)
    (regexp (seq [lit (str "~~"); Grp 1 (Rep dot 0 lazy); lit (str "~~")])
       true false,
     str "<del>$1</del>");
    (* /\[(.*?)\]\((.*?)\)/g *)
    (regexp (seq [lit (str "["); Grp 1 (Rep dot 0 lazy); lit (str "](");
                  Grp 2 (Rep dot 0 lazy); lit (str ")")]) true false,
     str "<a href=" ++ [DQ] ++ str "$2" ++ [DQ] ++ str ">$1</a>");
    (* /!\[(.*?)\]\((.*?)\)/g *)
    (regexp (seq [lit (str "!["); Grp 1 (Rep dot 0 lazy); lit (str "](");
                  Grp 2 (Rep dot 0 lazy); lit (str ")")]) true false,
     str "<img src=" ++ [DQ] ++ str "$2" ++ [DQ] ++ str " alt=" ++ [DQ] ++
     str "$1" ++ [DQ] ++ str ">")
  ].

(** [/<\/[ou]l>\s*<[ou]l>/g] *)
Definition listBoundary : RegExp :=
  regexp (seq [lit (str "</"); Cls (oneOf (str "ou")); lit (str "l>");
               Rep space 0 greedy;
               lit (str "<"); Cls (oneOf (str "ou")); lit (str "l>")])
    true false.

(** [/\n/g] *)
Definition newline : RegExp := regexp (Chr LF) true false.

Definition convertToHTML (text : JSString) : JSString :=
  let html := text in
  let html :=
    fold_left (fun html c => replace html (fst c) (snd c)) conversions html in
  let html := replace html listBoundary [] in
  let html := replace html newline (str "<br>") in
  html.

End Editor.

Import JS RegExp Editor.
Open Scope string_scope.
Open Scope list_scope.

(** ** The shape shared by the four inline patterns

    Auxiliary definitions for the proofs, each related to the embedded code
    by a lemma below. Each inline pattern is the marker, a lazy capture of
    characters other than line terminators, and the marker again
    ([inline_formats]). [closing] is what the lazy quantifier followed by
    the closing marker computes ([matchAt_marker]): the number of code units
    passed over before the first position at which the marker stands,
    provided no line terminator is passed over. *)

Definition markerPattern (mk : JSString) : RegExp :=
  regexp (seq [lit mk; Grp 1 (Rep dot 0 lazy); lit mk]) true false.

Fixpoint closing (mk a : JSString) : option nat :=
  if prefixb mk a then Some 0
  else match a with
       | x :: t => if dot x then option_map S (closing mk t) else None
       | [] => None
       end.

(** The continuation after the capture group: the closing marker. *)
Definition closeWith (mk : JSString) (caps : list (nat * JSString))
    (b a : JSString) : option MatchState :=
  if prefixb mk a
  then Some {| before := rev mk ++ b; after := skipn (List.length mk) a;
               captures := caps |}
  else None.

(** ** Lines

    Auxiliary definitions for the proofs. [untilLF t] is the number of code
    units of [t] before its first newline; [lineStartOf text s] is the
    offset right after the last newline before offset [s], or 0 when there
    is none ([lineStartOf_spec], [lineStartOf_after_newline]);
    [lineEndOf text e] is the offset of the first newline from offset [e]
    on, or the length of the text. [lineStart_eq] and [lineEnd_eq] relate
    them to what [formatText] computes with [lastIndexOf] and [indexOf]. *)

Fixpoint untilLF (t : JSString) : nat :=
  match t with
  | [] => 0
  | x :: t' => if N.eqb LF x then 0 else S (untilLF t')
  end.

Definition noLF (t : JSString) : bool :=
  forallb (fun x => negb (N.eqb LF x)) t.

Definition lineStartOf (text : JSString) (s : nat) : nat :=
  s - untilLF (rev (firstn s text)).

Definition lineEndOf (text : JSString) (e : nat) : nat :=
  e + untilLF (skipn e text).

(** ** The toolbar

    The identifiers the toolbar buttons pass to [formatText], in the order
    of the buttons. *)

Definition toolbar : list string :=
  ["bold"; "italic"; "code";
   "h1"; "h2"; "h3";
   "bulletList"; "numberList"; "blockquote";
   "codeBlock"; "horizontalRule"; "link"; "image"].

(** ** Auxiliary notions for the converter

    [applyRules] is the loop of [convertToHTML] over a list of rules.
    [quietAll re bef v] says that [re] matches at no position of [v], the
    code units of [bef] (most recent first) standing before it. [count] is
    the number of occurrences of a code unit; a plain character is one that
    is no line terminator and none of the characters that open an inline
    rule or a tag; [lineBreaks] replaces each newline by [<br>]. *)

Definition applyRules (rules : list (RegExp * JSString)) (html : JSString)
    : JSString :=
  fold_left (fun html c => replace html (fst c) (snd c)) rules html.

Definition quietAt (re : RegExp) (bef v : JSString) : bool :=
  match matchAt re bef v with
  | None => true
  | Some _ => false
  end.

Fixpoint quietAll (re : RegExp) (bef v : JSString) : bool :=
  quietAt re bef v &&
  match v with
  | [] => true
  | x :: v' => quietAll re (x :: bef) v'
  end.

Fixpoint count (c : CodeUnit) (v : JSString) : nat :=
  match v with
  | [] => 0
  | x :: v' => (if N.eqb x c then 1 else 0) + count c v'
  end.

Definition lacks (c : CodeUnit) (v : JSString) : bool :=
  forallb (fun x => negb (N.eqb x c)) v.

Definition plainChar (c : CodeUnit) : bool :=
  dot c && negb (oneOf (str "`*~[<") c).

Definition lineBreaks (s : JSString) : JSString :=
  flat_map (fun c => if N.eqb c LF then str "<br>" else [c]) s.

(** The shape shared by the heading, blockquote and bullet rules: the
    marker [l] at a line start, then the rest of the line as capture 1. *)
Definition lineRule (l : JSString) : RegExp :=
  regexp (seq [Bol; lit l; restOfLine]) true true.

(** Names for four rules of [conversions], each equal to its entry in the
    list: the fenced block (rule 1), the numbered line (rule 6), the link
    (rule 13) and the image (rule 14). *)
Definition fenceRule : RegExp :=
  regexp (seq [lit (str "```"); Grp 1 (Rep any 0 lazy); lit (str "```")])
    true false.

Definition numberedRule : RegExp :=
  regexp (seq [Bol; Rep digit 1 greedy; lit (str ". "); restOfLine]) true true.

Definition linkRule : RegExp :=
  regexp (seq [lit (str "["); Grp 1 (Rep dot 0 lazy); lit (str "](");
               Grp 2 (Rep dot 0 lazy); lit (str ")")]) true false.

Definition imageRule : RegExp :=
  regexp (seq [lit (str "!["); Grp 1 (Rep dot 0 lazy); lit (str "](");
               Grp 2 (Rep dot 0 lazy); lit (str ")")]) true false.

(** Texts of several lines. [linesOk G atStart t] holds when every code
    unit of [t] other than a newline is no line terminator and every line of
    [t] begins with a code unit that satisfies [G] (the first line only if
    [atStart] is set); [starterFree] is the [G] for a line that opens no
    block rule; [plainLines] adds that the text is plain. [joinLines] puts a
    newline between consecutive lines. *)

Fixpoint linesOk (G : CodeUnit -> bool) (atStart : bool) (t : JSString)
    : bool :=
  match t with
  | [] => true
  | x :: t' =>
      if N.eqb x LF then linesOk G true t'
      else dot x && (negb atStart || G x) && linesOk G false t'
  end.

Definition starterFree (x : CodeUnit) : bool :=
  negb (oneOf (str "#>-") x) && negb (digit x).

Definition plainLines (t : JSString) : bool :=
  linesOk starterFree true t &&
  forallb (fun x => N.eqb x LF || plainChar x) t.

Fixpoint joinLines (ls : list JSString) : JSString :=
  match ls with
  | [] => []
  | l :: rest =>
      match rest with
      | [] => l
      | _ :: _ => l ++ LF :: joinLines rest
      end
  end.

(** [quietPre re bef u v]: [re] matches at no position of [u] when [u] is
    followed by [v]. *)
Fixpoint quietPre (re : RegExp) (bef u v : JSString) : bool :=
  match u with
  | [] => true
  | x :: u' => quietAt re bef (x :: u' ++ v) && quietPre re (x :: bef) u' v
  end.

(** ** Unfolding [formatText] by structural kind *)

Section FormatTextEquations.

Variables (text : JSString) (start end_ : Z) (id : string) (f : Format).
Hypothesis Hid : lookup id formats = Some f.

Lemma formatText_line :
  type f = line ->
  let lineStart := (lastIndexOf text [LF] (start - 1) + 1)%Z in
  let lineEnd := indexOf text [LF] end_ in
  let stop := if (lineEnd =? -1)%Z then length text else lineEnd in
  let currentLine := substring text lineStart stop in
  formatText text start end_ id =
  Some (substring text 0 lineStart ++
        (if startsWith currentLine (marker f)
         then substring_from currentLine (length (marker f))
         else marker f ++ currentLine) ++
        substring_from text stop, start).
Proof.
  intros Hty; unfold formatText; rewrite Hid, Hty; cbv zeta.
  destruct (startsWith _ _); rewrite <- ?app_assoc; reflexivity.
Qed.

Lemma formatText_block :
  type f = block ->
  formatText text start end_ id =
  Some (substring text 0 start ++
        (marker f ++ substring text start end_ ++
         match endMarker f with Some e => e | None => [] end) ++
        substring_from text end_, start).
Proof.
  intros Hty; unfold formatText; rewrite Hid, Hty.
  rewrite <- !app_assoc; reflexivity.
Qed.

Lemma formatText_special_handler (h : JSString -> JSString) :
  type f = special -> handler f = Some h ->
  formatText text start end_ id =
  Some (substring text 0 start ++ h (substring text start end_) ++
        substring_from text end_,
        (start + length (h (substring text start end_)))%Z).
Proof.
  intros Hty Hh; unfold formatText; rewrite Hid, Hty, Hh; reflexivity.
Qed.

Lemma formatText_special_marker :
  type f = special -> handler f = None ->
  formatText text start end_ id =
  Some (substring text 0 start ++ marker f ++ substring_from text end_,
        (start + length (marker f))%Z).
Proof.
  intros Hty Hh; unfold formatText; rewrite Hid, Hty, Hh; reflexivity.
Qed.

Lemma formatText_inline (p : RegExp) :
  type f = inline -> pattern f = Some p ->
  let selectedText := substring text start end_ in
  let newContent :=
    if fst (test p 0 selectedText) then replace selectedText p (str "$1")
    else marker f ++ selectedText ++ marker f in
  formatText text start end_ id =
  Some (substring text 0 start ++ newContent ++ substring_from text end_,
        (start + length newContent)%Z).
Proof.
  intros Hty Hp; unfold formatText; rewrite Hid, Hty, Hp; cbv zeta.
  destruct (fst (test p 0 _)); reflexivity.
Qed.

End FormatTextEquations.

(** ** [substring] on a well-formed selection *)

Section Substring.

Variables (text : JSString) (start end_ : Z).
Hypothesis Hstart : (0 <= start <= end_)%Z.
Hypothesis Hend : (end_ <= length text)%Z.

Lemma substring_prefix :
  substring text 0 start = firstn (Z.to_nat start) text.
Proof.
  unfold substring, clamp, length in *.
  rewrite Z.max_id, (Z.min_l 0), (Z.min_l 0), (Z.max_l start 0),
    (Z.min_l start), (Z.max_r 0 start), Z.sub_0_r by lia.
  reflexivity.
Qed.

Lemma substring_suffix :
  substring_from text end_ = skipn (Z.to_nat end_) text.
Proof.
  unfold substring_from, substring, clamp, length in *.
  rewrite (Z.max_l end_ 0), (Z.min_l end_), (Z.max_l (Z.of_nat _) 0),
    Z.min_id, (Z.min_l end_), (Z.max_r end_) by lia.
  apply firstn_all2. rewrite length_skipn. lia.
Qed.

Lemma substring_selection :
  substring text start end_ =
  firstn (Z.to_nat end_ - Z.to_nat start) (skipn (Z.to_nat start) text).
Proof.
  unfold substring, clamp, length in *.
  rewrite (Z.max_l start 0), (Z.min_l start), (Z.max_l end_ 0),
    (Z.min_l end_), (Z.min_l start), (Z.max_r start) by lia.
  f_equal. lia.
Qed.

Lemma selection_split :
  text = firstn (Z.to_nat start) text ++ substring text start end_ ++
         skipn (Z.to_nat end_) text.
Proof.
  rewrite substring_selection.
  rewrite <- (firstn_skipn (Z.to_nat start) text) at 1. f_equal.
  rewrite <- (firstn_skipn (Z.to_nat end_ - Z.to_nat start)
                (skipn (Z.to_nat start) text)) at 1.
  f_equal. rewrite skipn_skipn. f_equal. lia.
Qed.

End Substring.

(** ** The converter on concrete inputs *)

(** C7: [render] of the two bullet lines [- a] and [- b] is one [<ul>]
    element with two [<li>] entries and no [<br>] between them. The rules
    wrap each line in its own [<ul>], leaving the newline between them; the
    collapse step removes the boundary together with that newline, so the
    last step finds no newline to turn into [<br>]. *)
Theorem C7_bullet_lines_merge :
  let text := str "- a" ++ [LF] ++ str "- b" in
  let rules :=
    fold_left (fun html c => replace html (fst c) (snd c)) conversions text in
  rules = str "<ul><li>a</li></ul>" ++ [LF] ++ str "<ul><li>b</li></ul>" /\
  replace rules listBoundary [] = str "<ul><li>a</li><li>b</li></ul>" /\
  convertToHTML text = str "<ul><li>a</li><li>b</li></ul>".
Proof. repeat split; vm_compute; reflexivity. Qed.

(** C3: on the single line [![alt](url)] the link rule runs first and
    rewrites the bracket part, so the image rule finds nothing: the output
    is an exclamation mark followed by an anchor, not an [<img>] element. *)
Theorem C3_image_rule_shadowed :
  convertToHTML (str "![alt](url)") =
    str "!<a href=" ++ [DQ] ++ str "url" ++ [DQ] ++ str ">alt</a>" /\
  convertToHTML (str "![alt](url)") <>
    str "<img src=" ++ [DQ] ++ str "url" ++ [DQ] ++ str " alt=" ++ [DQ] ++
    str "alt" ++ [DQ] ++ str ">".
Proof. split; vm_compute; [reflexivity | discriminate]. Qed.

(** C6: on a numbered line followed by a bullet line the collapse step also
    removes the boundary between [</ol>] and [<ul>]: the output is one
    element opened by [<ol>] and closed by [</ul>], not two lists. *)
Theorem C6_mixed_boundary_collapsed :
  convertToHTML (str "1. a" ++ [LF] ++ str "- b") =
    str "<ol><li>a</li><li>b</li></ul>" /\
  convertToHTML (str "1. a" ++ [LF] ++ str "- b") <>
    str "<ol><li>a</li></ol><br><ul><li>b</li></ul>".
Proof. split; vm_compute; [reflexivity | discriminate]. Qed.

(** ** The cursor of the line and block branches *)

Lemma lookup_line_or_block (id : string) :
  In id ["h1"; "h2"; "h3"; "bulletList"; "numberList"; "blockquote";
         "codeBlock"] ->
  exists f, lookup id formats = Some f /\ (type f = line \/ type f = block).
Proof.
  simpl; intros H.
  repeat (destruct H as [<- | H];
          [eexists; split; [reflexivity | simpl; auto] |]).
  contradiction.
Qed.

(** C10: for a line format ([h1], [h2], [h3], [bulletList], [numberList],
    [blockquote]) and for the block format [codeBlock], the new cursor
    position is the original [selectionStart], whatever the text and the
    selection. *)
Theorem C10_line_block_cursor_is_start :
  forall (text : JSString) (start end_ : Z) (id : string),
    In id ["h1"; "h2"; "h3"; "bulletList"; "numberList"; "blockquote";
           "codeBlock"] ->
    exists newText, formatText text start end_ id = Some (newText, start).
Proof.
  intros text start end_ id Hin.
  destruct (lookup_line_or_block id Hin) as (f & Hf & [Hty | Hty]).
  - rewrite (formatText_line text start end_ id f Hf Hty). eexists; reflexivity.
  - rewrite (formatText_block text start end_ id f Hf Hty). eexists; reflexivity.
Qed.

Lemma C10_witness :
  In "h2" ["h1"; "h2"; "h3"; "bulletList"; "numberList"; "blockquote";
           "codeBlock"] /\
  exists newText, formatText (str "title") 3 3 "h2" = Some (newText, 3%Z).
Proof.
  split.
  - simpl; auto.
  - apply (C10_line_block_cursor_is_start (str "title") 3 3 "h2").
    simpl; auto.
Defined.

(** ** The frame of the inline, block and special branches *)

Lemma formatText_replaces_selection
    (text : JSString) (start end_ : Z) (id : string) (f : Format) :
  lookup id formats = Some f -> type f <> line ->
  exists mid cur,
    formatText text start end_ id =
    Some (substring text 0 start ++ mid ++ substring_from text end_, cur).
Proof.
  intros Hid Hty. destruct (type f) eqn:Ety.
  - destruct (pattern f) as [p |] eqn:Ep.
    + rewrite (formatText_inline text start end_ id f Hid p Ety Ep).
      eexists; eexists; reflexivity.
    + unfold formatText; rewrite Hid, Ety, Ep.
      eexists; eexists; reflexivity.
  - congruence.
  - rewrite (formatText_block text start end_ id f Hid Ety).
    eexists; eexists; reflexivity.
  - destruct (handler f) as [h |] eqn:Eh.
    + rewrite (formatText_special_handler text start end_ id f Hid h Ety Eh).
      eexists; eexists; reflexivity.
    + rewrite (formatText_special_marker text start end_ id f Hid Ety Eh).
      eexists; eexists; reflexivity.
Qed.

(** C9: on a well-formed selection, a format of kind inline, block or
    special only replaces the selected region: the text splits as prefix,
    selection, suffix, and the new text is the same prefix and the same
    suffix around new content. *)
Theorem C9_selection_frame :
  forall (text : JSString) (start end_ : Z) (id : string) (f : Format),
    (0 <= start <= end_)%Z -> (end_ <= length text)%Z ->
    lookup id formats = Some f -> type f <> line ->
    let prefix := firstn (Z.to_nat start) text in
    let suffix := skipn (Z.to_nat end_) text in
    text = prefix ++ substring text start end_ ++ suffix /\
    exists mid cur,
      formatText text start end_ id = Some (prefix ++ mid ++ suffix, cur).
Proof.
  intros text start end_ id f Hs He Hid Hty prefix suffix. split.
  - exact (selection_split text start end_ Hs He).
  - destruct (formatText_replaces_selection text start end_ id f Hid Hty)
      as (mid & cur & H).
    exists mid, cur. rewrite H.
    rewrite (substring_prefix text start end_ Hs He), (substring_suffix text start end_ Hs He).
    reflexivity.
Qed.

Lemma C9_witness :
  let text := str "some text" in
  text = firstn 5 text ++ substring text 5 9 ++ skipn 9 text /\
  exists mid cur,
    formatText text 5 9 "link" = Some (firstn 5 text ++ mid ++ skipn 9 text, cur).
Proof.
  refine (C9_selection_frame (str "some text") 5 9 "link" _ _ _ eq_refl _).
  - lia.
  - vm_compute; discriminate.
  - simpl; discriminate.
Defined.

(** A line format does edit outside the selection: with [b] selected in
    [ab], [h1] inserts its marker before the unselected [a]. *)
Example line_format_edits_before_selection :
  formatText (str "ab") 1 2 "h1" = Some (str "# ab", 1%Z) /\
  firstn 1 (str "# ab") <> firstn 1 (str "ab").
Proof. split; vm_compute; [reflexivity | discriminate]. Qed.

(** ** The horizontal rule *)

(** C4, as stated, fails: with the whole of [abc] selected, the new text is
    the marker alone and the selected text occurs nowhere in it. *)
Lemma C4_counterexample :
  formatText (str "abc") 0 3 "horizontalRule" =
    Some (LF :: str "---" ++ [LF], 5%Z) /\
  ~ (exists a b, LF :: str "---" ++ [LF] = a ++ str "abc" ++ b).
Proof.
  split; [vm_compute; reflexivity |].
  intros (a & b & H).
  assert (Hin : In 97%N (LF :: str "---" ++ [LF])).
  { rewrite H. apply in_or_app; right. left; reflexivity. }
  vm_compute in Hin. intuition discriminate.
Qed.

(** C4, amended: [horizontalRule] replaces the selected range by the marker:
    the new text is the text before the selection, the five code units of
    the marker, and the text after the selection; the cursor lands right
    after the marker. *)
Theorem C4_horizontalRule_replaces_selection :
  forall (text : JSString) (start end_ : Z),
    (0 <= start <= end_)%Z -> (end_ <= length text)%Z ->
    formatText text start end_ "horizontalRule" =
    Some (firstn (Z.to_nat start) text ++ (LF :: str "---" ++ [LF]) ++
          skipn (Z.to_nat end_) text,
          (start + 5)%Z).
Proof.
  intros text start end_ Hs He.
  rewrite (formatText_special_marker text start end_ "horizontalRule" _
             eq_refl eq_refl eq_refl).
  rewrite (substring_prefix text start end_ Hs He),
    (substring_suffix text start end_ Hs He).
  reflexivity.
Qed.

Lemma C4_witness :
  formatText (str "one two") 3 3 "horizontalRule" =
  Some (str "one" ++ (LF :: str "---" ++ [LF]) ++ str " two", 8%Z).
Proof.
  apply (C4_horizontalRule_replaces_selection (str "one two") 3 3).
  - lia.
  - vm_compute; discriminate.
Defined.

(** ** Line formats at offset 0 of a text that starts with a newline *)

(** C8: with the cursor at offset 0 of a text whose first character is a
    newline, [lastIndexOf] is asked for position -1, searches at index 0 and
    finds that newline: the line start is taken to be 1, not 0, and the
    current line is cut from the wrong side. The marker is not inserted at
    position 0. *)
Theorem C8_line_start_at_offset_zero :
  formatText (LF :: str "abc") 0 0 "h1" =
    Some (LF :: str "# " ++ [LF; LF] ++ str "abc", 0%Z) /\
  formatText (LF :: str "abc") 0 0 "h1" <>
    Some (str "# " ++ LF :: str "abc", 0%Z).
Proof. split; vm_compute; [reflexivity | discriminate]. Qed.

(** C5: on the same input, the first line is empty and so does not start
    with the marker, yet [h1] does not prepend the marker to it, and a second
    [h1] at the returned cursor does not restore the text. *)
Theorem C5_h1_round_trip_at_offset_zero :
  let text := LF :: str "abc" in
  let text1 := LF :: str "# " ++ [LF; LF] ++ str "abc" in
  let text2 := LF :: str "# " ++ [LF; LF] ++ str "# " ++ [LF; LF] ++ str "abc" in
  formatText text 0 0 "h1" = Some (text1, 0%Z) /\
  text1 <> str "# " ++ text /\
  formatText text1 0 0 "h1" = Some (text2, 0%Z) /\
  text2 <> text.
Proof. repeat split; vm_compute; try reflexivity; discriminate. Qed.

(** ** The matcher on literals and on the inline patterns *)

Lemma prefixb_app (p r : JSString) : prefixb p (p ++ r) = true.
Proof. induction p; simpl; [reflexivity |]. now rewrite N.eqb_refl. Qed.

Lemma prefixb_true (p s : JSString) :
  prefixb p s = true -> s = p ++ skipn (List.length p) s.
Proof.
  revert s; induction p as [| a p IH]; intros [| b s]; simpl; try easy.
  intros H; apply andb_prop in H as [Hab Hp].
  apply N.eqb_eq in Hab; subst b. f_equal; auto.
Qed.

Lemma matcher_lit (multi : bool) (l : JSString) (k : Continuation) :
  forall s,
    matcher multi (lit l) k s =
    if prefixb l (after s)
    then k {| before := rev l ++ before s;
              after := skipn (List.length l) (after s);
              captures := captures s |}
    else None.
Proof.
  induction l as [| c l IH]; intros [bef aft caps]; simpl.
  - reflexivity.
  - destruct aft as [| x t]; [reflexivity |].
    rewrite (N.eqb_sym c x). destruct (N.eqb x c) eqn:E; simpl; [| reflexivity].
    apply N.eqb_eq in E; subst x.
    fold (lit l). rewrite IH; simpl. rewrite <- app_assoc. reflexivity.
Qed.

Lemma groups_lit (l : JSString) : groups (lit l) = 0.
Proof. induction l; simpl; auto. Qed.

(** Two ways of cutting the same list: the longer first part extends the
    shorter one. *)
Lemma app_eq_prefix (A : Type) (u u' x y : list A) :
  u ++ x = u' ++ y -> List.length u' <= List.length u ->
  exists w, u = u' ++ w /\ y = w ++ x.
Proof.
  revert u'; induction u as [| a u IH]; intros [| b u'] H Hl; simpl in *.
  - exists []; auto.
  - lia.
  - exists (a :: u); auto.
  - injection H as <- H. destruct (IH u' H) as (w & -> & ->); [lia |].
    exists w; auto.
Qed.

Section MarkerPattern.

Variable mk : JSString.

Lemma closing_length (a : JSString) (j : nat) :
  closing mk a = Some j -> j + List.length mk <= List.length a.
Proof.
  revert j; induction a as [| x t IH]; intros j; simpl.
  - destruct (prefixb mk []) eqn:E; [| discriminate].
    intros [= <-]. apply prefixb_true in E. destruct mk; simpl in *; [lia | discriminate].
  - destruct (prefixb mk (x :: t)) eqn:E.
    + intros [= <-]. apply prefixb_true in E.
      apply (f_equal (@List.length _)) in E. rewrite length_app in E. simpl in *; lia.
    + destruct (dot x); [| discriminate].
      destruct (closing mk t) as [j' |]; simpl; [| discriminate].
      intros [= <-]. specialize (IH j' eq_refl). lia.
Qed.

Lemma closing_sound (a : JSString) (j : nat) :
  closing mk a = Some j ->
  a = firstn j a ++ mk ++ skipn (j + List.length mk) a /\
  forallb dot (firstn j a) = true.
Proof.
  revert j; induction a as [| x t IH]; intros j; simpl.
  - destruct (prefixb mk []) eqn:E; [| discriminate].
    intros [= <-]. apply prefixb_true in E. simpl; auto.
  - destruct (prefixb mk (x :: t)) eqn:E.
    + intros [= <-]. apply prefixb_true in E. simpl; auto.
    + destruct (dot x) eqn:Ex; [| discriminate].
      destruct (closing mk t) as [j' |]; simpl; [| discriminate].
      intros [= <-]. destruct (IH j' eq_refl) as [H1 H2].
      simpl. rewrite Ex, H2. split; [f_equal; exact H1 | reflexivity].
Qed.

Lemma closing_complete (c r : JSString) :
  forallb dot c = true ->
  exists j, closing mk (c ++ mk ++ r) = Some j /\ j <= List.length c.
Proof.
  induction c as [| x c IH]; simpl; intros H.
  - destruct (mk ++ r) eqn:E; simpl.
    + destruct mk; [| discriminate]. exists 0; simpl. auto.
    + rewrite <- E, prefixb_app. exists 0; auto.
  - apply andb_prop in H as [Hx Hc].
    destruct (prefixb mk (x :: c ++ mk ++ r)).
    + exists 0; split; [reflexivity | lia].
    + rewrite Hx. destruct (IH Hc) as (j & -> & Hj).
      exists (S j); split; [reflexivity | lia].
Qed.

Lemma repeat_lazy_closing
    (capf : JSString -> list (nat * JSString))
    (k : JSString -> JSString -> option MatchState) :
  (forall b a, k b a = closeWith mk (capf a) b a) ->
  forall a b,
    repeat dot 0 lazy k b a =
    match closing mk a with
    | Some j => Some {| before := rev mk ++ rev (firstn j a) ++ b;
                        after := skipn (j + List.length mk) a;
                        captures := capf (skipn j a) |}
    | None => None
    end.
Proof.
  intros Hk. induction a as [| x t IH]; intros b; simpl; rewrite Hk;
    unfold closeWith.
  - destruct (prefixb mk []); reflexivity.
  - destruct (prefixb mk (x :: t)); [reflexivity |].
    destruct (dot x); [| reflexivity].
    fold lazy. rewrite IH. destruct (closing mk t); simpl; [| reflexivity].
    rewrite <- (app_assoc (rev _) [x] b). reflexivity.
Qed.

Lemma matchAt_marker (bef aft : JSString) :
  matchAt (markerPattern mk) bef aft =
  if prefixb mk aft then
    match closing mk (skipn (List.length mk) aft) with
    | Some j => Some (List.length mk + j + List.length mk,
                      [(1, firstn j (skipn (List.length mk) aft))])
    | None => None
    end
  else None.
Proof.
  unfold matchAt, markerPattern; simpl.
  rewrite matcher_lit; simpl.
  destruct (prefixb mk aft) eqn:Ep; [| reflexivity].
  set (a1 := skipn (List.length mk) aft).
  rewrite (repeat_lazy_closing
             (fun a => [(1, firstn (List.length a1 - List.length a) a1)])).
  - destruct (closing mk a1) as [j |] eqn:Ej; [| reflexivity]; simpl.
    pose proof (closing_length a1 j Ej) as Hj.
    apply prefixb_true in Ep. fold a1 in Ep.
    assert (Hlen : List.length aft = List.length mk + List.length a1)
      by (rewrite Ep at 1; apply length_app).
    rewrite !length_skipn. clearbody a1.
    unfold JSString, CodeUnit in *. f_equal. f_equal.
    + lia.
    + repeat f_equal. lia.
  - intros b a. rewrite matcher_lit; simpl. reflexivity.
Qed.

End MarkerPattern.

(** ** Searching and replacing *)

Section Search.

Variable re : RegExp.

Lemma search_None (aft bef : JSString) :
  search re bef aft = None <->
  forall u v, aft = u ++ v -> matchAt re (rev u ++ bef) v = None.
Proof.
  revert bef; induction aft as [| x t IH]; intros bef; simpl.
  - destruct (matchAt re bef []) as [[n caps] |] eqn:E; split; try easy.
    + intros H. specialize (H [] [] eq_refl). simpl in H. congruence.
    + intros _ u v Huv. symmetry in Huv.
      apply app_eq_nil in Huv as [-> ->]. exact E.
  - destruct (matchAt re bef (x :: t)) as [[n caps] |] eqn:E; split; try easy.
    + intros H. specialize (H [] (x :: t) eq_refl). simpl in H. congruence.
    + intros H [| y u] v Huv; simpl in *.
      * now subst v.
      * injection Huv as <- ->. rewrite <- app_assoc; simpl.
        apply (proj1 (IH (x :: bef)) H u v eq_refl).
    + intros H. apply IH. intros u v ->.
      specialize (H (x :: u) v eq_refl). simpl in H.
      now rewrite <- app_assoc in H.
Qed.

Lemma search_Some (aft bef : JSString) i n caps :
  search re bef aft = Some (i, n, caps) ->
  exists u v,
    aft = u ++ v /\ i = List.length bef + List.length u /\
    matchAt re (rev u ++ bef) v = Some (n, caps) /\
    forall u1 u2, u = u1 ++ u2 -> u2 <> [] ->
                  matchAt re (rev u1 ++ bef) (u2 ++ v) = None.
Proof.
  revert bef; induction aft as [| x t IH]; intros bef; simpl.
  - destruct (matchAt re bef []) as [[n' caps'] |] eqn:E; [| discriminate].
    intros [= <- <- <-]. exists [], []; simpl. repeat split; auto.
    intros u1 u2 H. symmetry in H. apply app_eq_nil in H as [_ ->]. congruence.
  - destruct (matchAt re bef (x :: t)) as [[n' caps'] |] eqn:E.
    + intros [= <- <- <-]. exists [], (x :: t); simpl. repeat split; auto.
      intros u1 u2 H. symmetry in H. apply app_eq_nil in H as [_ ->]. congruence.
    + intros H. destruct (IH _ H) as (u & v & -> & -> & Hm & Hno).
      exists (x :: u), v; simpl. rewrite <- app_assoc; simpl.
      repeat split; auto; try (simpl; lia).
      intros [| y u1] u2 Hu Hne; simpl in *.
      * subst u2; simpl. exact E.
      * injection Hu as <- ->. rewrite <- app_assoc; simpl.
        now apply Hno.
Qed.

Variable tpl : JSString.

Lemma replaceAll_skip (x aft bef : JSString) :
  replaceAll re tpl bef (x ++ aft) (List.length x) =
  replaceAll re tpl (rev x ++ bef) aft 0.
Proof.
  revert bef; induction x as [| c x IH]; intros bef; simpl.
  - destruct aft; reflexivity.
  - rewrite IH, <- app_assoc. reflexivity.
Qed.

Lemma replaceAll_unmatched (u v bef : JSString) :
  (forall u1 u2, u = u1 ++ u2 -> u2 <> [] ->
                 matchAt re (rev u1 ++ bef) (u2 ++ v) = None) ->
  replaceAll re tpl bef (u ++ v) 0 = u ++ replaceAll re tpl (rev u ++ bef) v 0.
Proof.
  revert bef; induction u as [| c u IH]; intros bef H; simpl.
  - destruct v; reflexivity.
  - pose proof (H [] (c :: u) eq_refl) as H0. simpl in H0.
    rewrite H0 by discriminate.
    f_equal. rewrite IH, <- app_assoc; [reflexivity |].
    intros u1 u2 -> Hne.
    specialize (H (c :: u1) u2 eq_refl Hne). simpl in H.
    now rewrite <- app_assoc in H.
Qed.

Lemma replaceAll_matched (m r bef : JSString) caps :
  m <> [] ->
  matchAt re bef (m ++ r) = Some (List.length m, caps) ->
  replaceAll re tpl bef (m ++ r) 0 =
  substitute tpl m (groups (source re)) caps ++
  replaceAll re tpl (rev m ++ bef) r 0.
Proof.
  intros Hne Hm. destruct m as [| c m]; [congruence |].
  simpl app. cbn [replaceAll]. simpl app in Hm. rewrite Hm.
  change (c :: m ++ r) with ((c :: m) ++ r) at 1.
  rewrite firstn_app, Nat.sub_diag, firstn_all.
  simpl firstn. rewrite app_nil_r. f_equal.
  cbn [List.length]. rewrite replaceAll_skip. now rewrite <- app_assoc.
Qed.

End Search.

(** ** Detection and removal of a marked span *)

Section InlineToggle.

Variable mk : JSString.
Hypothesis mk_nonempty : mk <> [].

Let p := markerPattern mk.

Lemma matchAt_marker_Some (bef v : JSString) n caps :
  matchAt p bef v = Some (n, caps) ->
  exists c r,
    v = (mk ++ c ++ mk) ++ r /\ forallb dot c = true /\
    n = List.length (mk ++ c ++ mk) /\ caps = [(1, c)].
Proof.
  unfold p. rewrite matchAt_marker.
  destruct (prefixb mk v) eqn:Ep; [| discriminate].
  destruct (closing mk (skipn (List.length mk) v)) as [j |] eqn:Ej;
    [| discriminate].
  intros [= <- <-]. apply prefixb_true in Ep.
  destruct (closing_sound mk _ j Ej) as [Hs Hd].
  pose proof (closing_length mk _ j Ej) as Hl.
  set (a := skipn (List.length mk) v) in *.
  exists (firstn j a), (skipn (j + List.length mk) a).
  repeat split; auto.
  - rewrite Ep at 1. rewrite <- !app_assoc. f_equal. exact Hs.
  - rewrite !length_app, length_firstn. unfold JSString, CodeUnit in *. lia.
Qed.

Lemma matchAt_marker_span (bef c r : JSString) :
  forallb dot c = true -> matchAt p bef (mk ++ c ++ mk ++ r) <> None.
Proof.
  intros Hc. unfold p. rewrite matchAt_marker, prefixb_app.
  rewrite skipn_app, Nat.sub_diag, skipn_all; simpl.
  destruct (closing_complete mk c r Hc) as (j & -> & _). discriminate.
Qed.

Lemma test_marker (s : JSString) :
  fst (test p 0 s) = true <->
  exists u c v, s = u ++ mk ++ c ++ mk ++ v /\ forallb dot c = true.
Proof.
  unfold test, exec; simpl. split.
  - destruct (search p [] s) as [[[i n] caps] |] eqn:E; [| discriminate].
    intros _. apply search_Some in E as (u & v & -> & _ & Hm & _).
    apply matchAt_marker_Some in Hm as (c & r & -> & Hc & _).
    exists u, c, r. rewrite <- !app_assoc. auto.
  - intros (u & c & v & -> & Hc).
    destruct (search p [] (u ++ mk ++ c ++ mk ++ v)) as [[[i n] caps] |] eqn:E;
      [reflexivity |].
    exfalso. apply (matchAt_marker_span (rev u ++ []) c v Hc).
    exact (proj1 (search_None p _ []) E u _ eq_refl).
Qed.

Lemma replaceAll_marker_before (tpl aft bef bef' : JSString) skip :
  replaceAll p tpl bef aft skip = replaceAll p tpl bef' aft skip.
Proof.
  revert bef bef' skip; induction aft as [| x t IH]; intros bef bef' skip;
    destruct skip as [| k]; simpl; auto;
    unfold p; rewrite !(matchAt_marker mk bef), !(matchAt_marker mk bef');
    fold p.
  - reflexivity.
  - destruct (prefixb mk (x :: t)); [| f_equal; apply IH].
    destruct (closing mk _); [| f_equal; apply IH].
    f_equal. destruct (List.length mk + n + List.length mk);
      [f_equal |]; apply IH.
Qed.

Lemma substitute_capture (m c : JSString) :
  substitute (str "$1") m (groups (source p)) [(1, c)] = c.
Proof.
  unfold p; simpl. rewrite !groups_lit; simpl. apply app_nil_r.
Qed.

Lemma replace_marker_global (s tpl : JSString) :
  replace s p tpl = replaceAll p tpl [] s 0.
Proof. reflexivity. Qed.

(** What a successful match at a position is: the marker, the content up to
    the earliest following occurrence of the marker, and that marker. *)
Lemma matchAt_marker_lazy (bef v : JSString) n caps :
  matchAt p bef v = Some (n, caps) ->
  exists c r,
    v = mk ++ c ++ mk ++ r /\ forallb dot c = true /\
    n = List.length (mk ++ c ++ mk) /\ caps = [(1, c)] /\
    closing mk (c ++ mk ++ r) = Some (List.length c).
Proof.
  unfold p. rewrite matchAt_marker.
  destruct (prefixb mk v) eqn:Ep; [| discriminate].
  destruct (closing mk (skipn (List.length mk) v)) as [j |] eqn:Ej;
    [| discriminate].
  intros [= <- <-]. apply prefixb_true in Ep.
  destruct (closing_sound mk _ j Ej) as [Hs Hd].
  pose proof (closing_length mk _ j Ej) as Hl.
  set (a := skipn (List.length mk) v) in *.
  assert (Hj : List.length (firstn j a) = j)
    by (rewrite length_firstn; unfold JSString, CodeUnit in *; lia).
  exists (firstn j a), (skipn (j + List.length mk) a).
  repeat split; auto.
  - rewrite Ep at 1. f_equal. exact Hs.
  - rewrite !length_app, Hj. unfold JSString, CodeUnit in *. lia.
  - rewrite <- Hs, Hj. exact Ej.
Qed.

Lemma closing_least (c r c' r' : JSString) :
  closing mk (c ++ mk ++ r) = Some (List.length c) ->
  c ++ mk ++ r = c' ++ mk ++ r' -> forallb dot c' = true ->
  List.length c <= List.length c'.
Proof.
  intros Hc E Hd. destruct (closing_complete mk c' r' Hd) as (j & Hj & Hle).
  rewrite <- E, Hc in Hj. injection Hj as <-. exact Hle.
Qed.

(** The span that the replacement removes first is the leftmost one, with
    the shortest content. *)
Lemma replace_first_span (s : JSString) :
  fst (test p 0 s) = true ->
  exists u c v,
    (s = u ++ mk ++ c ++ mk ++ v /\ forallb dot c = true) /\
    (forall u' c' v',
        s = u' ++ mk ++ c' ++ mk ++ v' /\ forallb dot c' = true ->
        List.length u <= List.length u' /\
        (List.length u' = List.length u ->
         List.length c <= List.length c')) /\
    replace s p (str "$1") = u ++ c ++ replace v p (str "$1").
Proof.
  unfold test, exec; simpl.
  destruct (search p [] s) as [[[i n] caps] |] eqn:E; [| discriminate].
  intros _. apply search_Some in E as (u & v & -> & _ & Hm & Hno).
  destruct (matchAt_marker_lazy _ _ _ _ Hm) as (c & r & -> & Hc & -> & -> & Hz).
  exists u, c, r. split; [auto |]. split.
  - intros u' c' v' [Hs' Hc'].
    destruct (Nat.le_gt_cases (List.length u) (List.length u')) as [Hle | Hlt].
    + split; [exact Hle |]. intros Heq.
      destruct (app_eq_prefix _ _ _ _ _ Hs' (Nat.eq_le_incl _ _ Heq))
        as (w & Hu & Hy).
      assert (Hw : w = []).
      { apply (f_equal (@List.length _)) in Hu. rewrite length_app in Hu.
        destruct w; [reflexivity |]. simpl in Hu. lia. }
      subst w. simpl in Hy. apply app_inv_head in Hy.
      exact (closing_least c r c' v' Hz (eq_sym Hy) Hc').
    + exfalso.
      destruct (app_eq_prefix _ _ _ _ _ Hs' (Nat.lt_le_incl _ _ Hlt))
        as (w & Hu & Hy).
      assert (Hw : w <> []).
      { intros ->. rewrite app_nil_r in Hu. subst u'. lia. }
      specialize (Hno u' w Hu Hw). rewrite <- Hy in Hno.
      exact (matchAt_marker_span _ c' v' Hc' Hno).
  - rewrite !replace_marker_global.
    rewrite (replaceAll_unmatched p (str "$1") u _ [] Hno).
    rewrite (app_assoc c mk r), (app_assoc mk (c ++ mk) r).
    rewrite (replaceAll_matched p (str "$1") (mk ++ c ++ mk) r _ [(1, c)]).
    + rewrite substitute_capture. do 2 f_equal. apply replaceAll_marker_before.
    + destruct mk; [congruence | discriminate].
    + rewrite <- !app_assoc. exact Hm.
Qed.

(** Whichever way the leftmost span with the shortest content is written,
    the replacement removes its markers and goes on after it. *)
Lemma replace_span_first (s u c v : JSString) :
  s = u ++ mk ++ c ++ mk ++ v /\ forallb dot c = true ->
  (forall u' c' v',
      s = u' ++ mk ++ c' ++ mk ++ v' /\ forallb dot c' = true ->
      List.length u <= List.length u' /\
      (List.length u' = List.length u -> List.length c <= List.length c')) ->
  replace s p (str "$1") = u ++ c ++ replace v p (str "$1").
Proof.
  intros Hsp Hfirst.
  assert (Ht : fst (test p 0 s) = true).
  { apply (proj2 (test_marker s)). exists u, c, v. exact Hsp. }
  destruct (replace_first_span s Ht) as (u0 & c0 & v0 & Hsp0 & Hfirst0 & Hr).
  destruct (Hfirst u0 c0 v0 Hsp0) as [Hu Hc].
  destruct (Hfirst0 u c v Hsp) as [Hu0 Hc0].
  assert (Hlen : List.length u0 = List.length u) by lia.
  destruct Hsp as [Hs _]. destruct Hsp0 as [Hs0 _].
  rewrite Hs in Hs0.
  destruct (app_eq_prefix _ _ _ _ _ Hs0 (Nat.eq_le_incl _ _ Hlen))
    as (w & Eu & Ey).
  assert (Hw : w = []).
  { apply (f_equal (@List.length _)) in Eu. rewrite length_app in Eu.
    destruct w; [reflexivity |]. simpl in Eu. lia. }
  subst w. rewrite app_nil_r in Eu. subst u0. simpl in Ey.
  apply app_inv_head in Ey.
  assert (Hlc : List.length c0 = List.length c)
    by (specialize (Hc Hlen); specialize (Hc0 (eq_sym Hlen)); lia).
  destruct (app_eq_prefix _ _ _ _ _ (eq_sym Ey) (Nat.eq_le_incl _ _ Hlc))
    as (w & Ec & Ez).
  assert (Hw : w = []).
  { apply (f_equal (@List.length _)) in Ec. rewrite length_app in Ec.
    destruct w; [reflexivity |]. simpl in Ec. lia. }
  subst w. rewrite app_nil_r in Ec. subst c0. simpl in Ez.
  apply app_inv_head in Ez. subst v0. exact Hr.
Qed.

(** Without a span the replacement changes nothing. *)
Lemma replace_no_span (s : JSString) :
  (forall u c v, ~ (s = u ++ mk ++ c ++ mk ++ v /\ forallb dot c = true)) ->
  replace s p (str "$1") = s.
Proof.
  intros Hno. rewrite replace_marker_global.
  assert (Hn : forall u v, s = u ++ v -> matchAt p (rev u ++ []) v = None).
  { intros u v ->.
    destruct (matchAt p (rev u ++ []) v) as [[n caps] |] eqn:E;
      [| reflexivity].
    exfalso. apply matchAt_marker_Some in E as (c & r & -> & Hc & _).
    apply (Hno u c r). split; [now rewrite <- !app_assoc | exact Hc]. }
  rewrite <- (app_nil_r s) at 1.
  rewrite (replaceAll_unmatched p (str "$1") s [] []).
  - simpl. rewrite (Hn s [] (eq_sym (app_nil_r s))). apply app_nil_r.
  - intros u1 u2 Hs _. rewrite (app_nil_r u2). now apply Hn.
Qed.

End InlineToggle.

Lemma inline_formats (id : string) (f : Format) :
  lookup id formats = Some f -> type f = inline ->
  pattern f = Some (markerPattern (marker f)) /\ marker f <> [].
Proof.
  unfold formats, lookup.
  repeat (destruct (String.eqb _ id);
          [intros [= <-]; simpl; intros Hty;
           first [discriminate Hty | split; [reflexivity | discriminate]] |]).
  discriminate.
Qed.

(** ** Inline formats *)

(** C1, as stated, fails: the selection [a **b** c] is not a full marked
    span (it does not even start with the marker), yet bold is detected in
    it and the markers inside it are removed instead of the selection being
    wrapped. *)
Lemma C1_counterexample :
  startsWith (str "a **b** c") (str "**") = false /\
  formatText (str "a **b** c") 0 9 "bold" = Some (str "a b c", 5%Z) /\
  formatText (str "a **b** c") 0 9 "bold" <>
    Some (str "**" ++ str "a **b** c" ++ str "**", 13%Z).
Proof. repeat split; vm_compute; try reflexivity; discriminate. Qed.

(** C1, amended: an inline format is detected as soon as the selection
    contains, anywhere, a span: the marker, a run of characters without a
    line terminator, and the marker again. In that case the first span loses
    its two markers, the text before it is kept and the text after it is
    treated in the same way. The first span is the one that starts leftmost
    and, among those, has the shortest content: no other way of cutting the
    selection gives the result. What "treated in the same way" means is part
    of the statement: the replacement leaves a string without a span as it
    is, and in a string with a span it removes the markers of the first span
    and goes on after it. Only a selection that contains no span is wrapped
    by the marker on both sides. In both cases the cursor lands at the end
    of the new content. *)
Theorem C1_inline_toggle :
  forall (text : JSString) (start end_ : Z) (id : string) (f : Format),
    lookup id formats = Some f -> type f = inline ->
    let mk := marker f in
    let selectedText := substring text start end_ in
    let result newContent :=
      Some (substring text 0 start ++ newContent ++ substring_from text end_,
            (start + length newContent)%Z) in
    let span (s u c v : JSString) :=
      s = u ++ mk ++ c ++ mk ++ v /\ forallb dot c = true in
    let firstSpan (s u c v : JSString) :=
      span s u c v /\
      forall u' c' v', span s u' c' v' ->
        List.length u <= List.length u' /\
        (List.length u' = List.length u ->
         List.length c <= List.length c') in
    exists p,
      pattern f = Some p /\
      (forall s, (forall u c v, ~ span s u c v) ->
                 replace s p (str "$1") = s) /\
      (forall s u c v, firstSpan s u c v ->
                       replace s p (str "$1") =
                       u ++ c ++ replace v p (str "$1")) /\
      ((exists u c v,
           firstSpan selectedText u c v /\
           formatText text start end_ id =
           result (u ++ c ++ replace v p (str "$1")))
       \/
       ((forall u c v, ~ span selectedText u c v) /\
        formatText text start end_ id = result (mk ++ selectedText ++ mk))).
Proof.
  intros text start end_ id f Hid Hty mk selectedText result span firstSpan.
  destruct (inline_formats id f Hid Hty) as [Hp Hmk]. fold mk in Hp, Hmk.
  exists (markerPattern mk). split; [exact Hp |].
  split; [exact (replace_no_span mk) |].
  split.
  { intros s u c v [Hsp Hfirst].
    exact (replace_span_first mk Hmk s u c v Hsp Hfirst). }
  rewrite (formatText_inline text start end_ id f Hid _ Hty Hp).
  cbv zeta. fold selectedText.
  destruct (fst (test (markerPattern mk) 0 selectedText)) eqn:Et.
  - left. destruct (replace_first_span mk Hmk selectedText Et)
      as (u & c & v & Hsp & Hfirst & Hr).
    exists u, c, v. rewrite Hr. split; [split; assumption | reflexivity].
  - right. split; [| reflexivity].
    intros u c v [Hs Hc].
    assert (Ht : fst (test (markerPattern mk) 0 selectedText) = true)
      by (apply (proj2 (test_marker mk selectedText)); exists u, c, v; auto).
    congruence.
Qed.

Lemma C1_witness :
  let text := str "see **this** now" in
  let mk := str "**" in
  let selectedText := substring text 0 16 in
  let result newContent :=
    Some (substring text 0 0 ++ newContent ++ substring_from text 16,
          (0 + length newContent)%Z) in
  let span (s u c v : JSString) :=
    s = u ++ mk ++ c ++ mk ++ v /\ forallb dot c = true in
  let firstSpan (s u c v : JSString) :=
    span s u c v /\
    forall u' c' v', span s u' c' v' ->
      List.length u <= List.length u' /\
      (List.length u' = List.length u -> List.length c <= List.length c') in
  exists p,
    Some bold_pattern = Some p /\
    (forall s, (forall u c v, ~ span s u c v) -> replace s p (str "$1") = s) /\
    (forall s u c v, firstSpan s u c v ->
                     replace s p (str "$1") =
                     u ++ c ++ replace v p (str "$1")) /\
    ((exists u c v,
         firstSpan selectedText u c v /\
         formatText text 0 16 "bold" =
         result (u ++ c ++ replace v p (str "$1")))
     \/
     ((forall u c v, ~ span selectedText u c v) /\
      formatText text 0 16 "bold" = result (mk ++ selectedText ++ mk))).
Proof.
  exact (C1_inline_toggle (str "see **this** now") 0 16 "bold"
           (inlineFormat bold_pattern "**") eq_refl eq_refl).
Defined.

(** ** The bold round trip *)

Lemma substring_app3 (a b c : JSString) :
  substring (a ++ b ++ c) 0 (length a) = a /\
  substring (a ++ b ++ c) (length a) (length a + length b) = b /\
  substring_from (a ++ b ++ c) (length a + length b) = c.
Proof.
  assert (Hs : (0 <= length a <= length a + length b)%Z)
    by (unfold length; lia).
  assert (He : (length a + length b <= length (a ++ b ++ c))%Z)
    by (unfold length; rewrite !length_app; lia).
  rewrite (substring_prefix _ _ _ Hs He).
  rewrite (substring_selection _ _ _ Hs He), (substring_suffix _ _ _ Hs He).
  unfold length. rewrite <- Nat2Z.inj_add, !Nat2Z.id.
  repeat split.
  - now rewrite firstn_app, Nat.sub_diag, firstn_all, app_nil_r.
  - rewrite skipn_app, Nat.sub_diag, skipn_all; simpl.
    replace (List.length a + List.length b - List.length a)
      with (List.length b) by lia.
    now rewrite firstn_app, Nat.sub_diag, firstn_all, app_nil_r.
  - rewrite app_assoc, <- length_app.
    now rewrite skipn_app, Nat.sub_diag, skipn_all.
Qed.

(** In a selection without a line terminator and without two adjacent
    asterisks, followed by the closing marker, the first place where [**]
    stands is the end of the selection, or one code unit earlier when the
    selection ends with an asterisk. *)
Lemma closing_bold (sel : JSString) :
  forallb dot sel = true ->
  (forall u v, sel <> u ++ str "**" ++ v) ->
  exists c rest,
    sel = c ++ rest /\ (rest = [] \/ rest = str "*") /\
    sel ++ str "**" = c ++ str "**" ++ rest /\
    closing (str "**") (sel ++ str "**") = Some (List.length c).
Proof.
  change (str "**") with [42%N; 42%N]. change (str "*") with [42%N].
  induction sel as [| x t IH]; intros Hd Hno.
  - exists [], []. simpl. auto.
  - simpl in Hd. apply andb_prop in Hd as [Hx Ht].
    assert (Hno' : forall u v, t <> u ++ [42%N; 42%N] ++ v).
    { intros u v ->. now apply (Hno (x :: u) v). }
    destruct (IH Ht Hno') as (c & rest & Hs & Hr & Hs2 & Hc).
    assert (Hstep : prefixb [42%N; 42%N] (x :: t ++ [42%N; 42%N]) = false ->
                    exists c0 rest0,
                      x :: t = c0 ++ rest0 /\ (rest0 = [] \/ rest0 = [42%N]) /\
                      (x :: t) ++ [42%N; 42%N] = c0 ++ [42%N; 42%N] ++ rest0 /\
                      closing [42%N; 42%N] ((x :: t) ++ [42%N; 42%N]) =
                      Some (List.length c0)).
    { intros Hp. exists (x :: c), rest. simpl app.
      cbn [closing]. rewrite Hp, Hx, Hc. simpl.
      repeat split; auto; now f_equal. }
    destruct (N.eqb 42 x) eqn:Ex.
    + apply N.eqb_eq in Ex; subst x. destruct t as [| y t'].
      * exists [], [42%N]. simpl. auto.
      * apply Hstep. cbn [prefixb app]. rewrite N.eqb_refl. cbn [andb].
        destruct (N.eqb 42 y) eqn:Ey; [| reflexivity].
        apply N.eqb_eq in Ey; subst y. now destruct (Hno [] t').
    + apply Hstep. cbn [prefixb app]. now rewrite Ex.
Qed.

Lemma replace_bold_span (sel : JSString) :
  forallb dot sel = true ->
  (forall u v, sel <> u ++ str "**" ++ v) ->
  replace (str "**" ++ sel ++ str "**") bold_pattern (str "$1") = sel.
Proof.
  intros Hd Hno.
  destruct (closing_bold sel Hd Hno) as (c & rest & Hs & Hr & Hs2 & Hc).
  change bold_pattern with (markerPattern (str "**")).
  rewrite replace_marker_global.
  assert (Hm : matchAt (markerPattern (str "**")) []
                 (str "**" ++ sel ++ str "**") =
               Some (List.length (str "**" ++ c ++ str "**"), [(1, c)])).
  { rewrite matchAt_marker, prefixb_app.
    rewrite skipn_app, Nat.sub_diag, skipn_all.
    change ([] ++ skipn 0 (sel ++ str "**")) with (sel ++ str "**").
    rewrite Hc, Hs2, firstn_app, Nat.sub_diag, firstn_all. simpl firstn.
    rewrite app_nil_r, !length_app. reflexivity. }
  assert (Hsplit : str "**" ++ sel ++ str "**" =
                   (str "**" ++ c ++ str "**") ++ rest)
    by (rewrite Hs2, <- !app_assoc; reflexivity).
  rewrite Hsplit in Hm |- *.
  rewrite (replaceAll_matched _ (str "$1") _ rest [] [(1, c)]); [| | exact Hm].
  - rewrite substitute_capture, (replaceAll_marker_before _ _ _ _ []), Hs.
    f_equal. destruct Hr as [-> | ->]; reflexivity.
  - discriminate.
Qed.

(** C2, as stated, fails: the bold pattern does not match in [a**b], yet
    wrapping it and applying bold to the full marked span gives [ab**]: the
    lazy capture stops at the asterisks inside the selection. *)
Lemma C2_counterexample :
  fst (test bold_pattern 0 (str "a**b")) = false /\
  formatText (str "a**b") 0 4 "bold" = Some (str "**a**b**", 8%Z) /\
  formatText (str "**a**b**") 0 8 "bold" = Some (str "ab**", 4%Z) /\
  str "ab**" <> str "a**b".
Proof. repeat split; vm_compute; try reflexivity; discriminate. Qed.

(** C2, amended: for a selection that contains no line terminator and no two
    adjacent asterisks, applying bold wraps it in the markers, and applying
    bold again with the full marked span selected gives back the original
    text, with the cursor at the end of the original selection. *)
Theorem C2_bold_round_trip :
  forall (text : JSString) (start end_ : Z),
    (0 <= start <= end_)%Z -> (end_ <= length text)%Z ->
    let selectedText := substring text start end_ in
    forallb dot selectedText = true ->
    (forall u v, selectedText <> u ++ str "**" ++ v) ->
    let text1 :=
      firstn (Z.to_nat start) text ++
      (str "**" ++ selectedText ++ str "**") ++
      skipn (Z.to_nat end_) text in
    formatText text start end_ "bold" = Some (text1, (end_ + 4)%Z) /\
    formatText text1 start (end_ + 4) "bold" = Some (text, end_).
Proof.
  intros text start end_ Hs He selectedText Hd Hno text1.
  pose proof (selection_split text start end_ Hs He) as Htext.
  fold selectedText in Htext.
  assert (Hlen : length selectedText = (end_ - start)%Z).
  { unfold selectedText, length in *.
    rewrite (substring_selection text start end_ Hs He).
    rewrite length_firstn, length_skipn. lia. }
  assert (Hpre : length (firstn (Z.to_nat start) text) = start).
  { unfold length in *. rewrite length_firstn. lia. }
  split.
  - rewrite (formatText_inline text start end_ "bold" _ eq_refl bold_pattern
               eq_refl eq_refl).
    cbv zeta. fold selectedText.
    destruct (fst (test bold_pattern 0 selectedText)) eqn:Et.
    + apply (test_marker (str "**")) in Et as (u & c & v & Hsel & _).
      now destruct (Hno u (c ++ str "**" ++ v)).
    + rewrite (substring_prefix text start end_ Hs He),
        (substring_suffix text start end_ Hs He).
      unfold text1. do 2 f_equal.
      unfold length in *. rewrite !length_app. simpl List.length. lia.
  - rewrite (formatText_inline text1 start (end_ + 4) "bold" _ eq_refl
               bold_pattern eq_refl eq_refl).
    cbv zeta.
    destruct (substring_app3 (firstn (Z.to_nat start) text)
                (str "**" ++ selectedText ++ str "**")
                (skipn (Z.to_nat end_) text)) as (H1 & H2 & H3).
    fold text1 in H1, H2, H3. rewrite Hpre in H1, H2, H3.
    replace (start + length (str "**" ++ selectedText ++ str "**"))%Z
      with (end_ + 4)%Z in H2, H3
      by (unfold length in *; rewrite !length_app; simpl List.length; lia).
    rewrite H1, H2, H3.
    replace (fst (test bold_pattern 0 (str "**" ++ selectedText ++ str "**")))
      with true.
    + rewrite (replace_bold_span selectedText Hd Hno).
      rewrite <- Htext. f_equal. f_equal. lia.
    + symmetry. apply (proj2 (test_marker (str "**") _)).
      exists [], selectedText, []. now rewrite app_nil_r.
Qed.

Lemma C2_witness :
  let text := str "say hello *now*" in
  let text1 := str "say " ++ (str "**" ++ str "hello" ++ str "**") ++ str " *now*" in
  formatText text 4 9 "bold" = Some (text1, 13%Z) /\
  formatText text1 4 13 "bold" = Some (text, 9%Z).
Proof.
  refine (C2_bold_round_trip (str "say hello *now*") 4 9 _ _ eq_refl _).
  - lia.
  - vm_compute; discriminate.
  - intros u v H.
    assert (Hin : In 42%N (substring (str "say hello *now*") 4 9))
      by (rewrite H; apply in_or_app; right; left; reflexivity).
    vm_compute in Hin. intuition discriminate.
Defined.

(** ** Line formats away from the defect at offset 0 *)

Ltac line_simpl :=
  cbn [untilLF noLF forallb firstn skipn app rev List.length prefixb
       index_from andb negb].

Lemma untilLF_le (t : JSString) : untilLF t <= List.length t.
Proof.
  induction t as [| x t IH]; line_simpl; [lia |].
  destruct (N.eqb LF x); lia.
Qed.

Lemma untilLF_app (w r : JSString) :
  noLF w = true -> untilLF (w ++ r) = List.length w + untilLF r.
Proof.
  induction w as [| x w IH]; line_simpl; [reflexivity |].
  intros H; apply andb_prop in H as [Hx Hw].
  destruct (N.eqb LF x); [discriminate |]. now rewrite IH.
Qed.

Lemma untilLF_noLF (t : JSString) : noLF (firstn (untilLF t) t) = true.
Proof.
  induction t as [| x t IH]; line_simpl; [reflexivity |].
  destruct (N.eqb LF x) eqn:E; line_simpl; [reflexivity |]. now rewrite E.
Qed.

Lemma noLF_app (a b : JSString) : noLF (a ++ b) = noLF a && noLF b.
Proof. apply forallb_app. Qed.

Lemma noLF_firstn (n : nat) (t : JSString) :
  noLF t = true -> noLF (firstn n t) = true.
Proof.
  revert n; induction t as [| x t IH]; intros [| n]; line_simpl; auto.
  intros H; apply andb_prop in H as [-> Ht]; line_simpl; auto.
Qed.

Lemma noLF_rev (t : JSString) : noLF (rev t) = noLF t.
Proof.
  induction t as [| x t IH]; [reflexivity |].
  cbn [rev]. rewrite noLF_app, IH. line_simpl.
  rewrite andb_true_r. apply andb_comm.
Qed.

Lemma index_from_LF (t : JSString) (i : nat) :
  index_from [LF] t i =
  if Nat.ltb (untilLF t) (List.length t) then Z.of_nat (i + untilLF t)
  else (-1)%Z.
Proof.
  revert i; induction t as [| x t IH]; intros i; line_simpl; [reflexivity |].
  rewrite andb_true_r.
  destruct (N.eqb LF x); [now rewrite Nat.add_0_r |].
  rewrite IH. change (Nat.ltb (S (untilLF t)) (S (List.length t)))
    with (Nat.ltb (untilLF t) (List.length t)).
  destruct (Nat.ltb _ _); [f_equal; lia | reflexivity].
Qed.

Lemma skipn_cons_nth (s : JSString) (k : nat) :
  k < List.length s ->
  exists x, skipn k s = x :: skipn (S k) s /\ firstn (S k) s = firstn k s ++ [x].
Proof.
  revert k; induction s as [| y s IH]; intros k Hk; [simpl in Hk; lia |].
  destruct k as [| k].
  - exists y. destruct s; auto.
  - destruct (IH k) as (x & H1 & H2); [simpl in Hk; lia |].
    exists x. split; [exact H1 |]. cbn [firstn app]. now rewrite <- H2.
Qed.

Lemma last_index_from_LF (s : JSString) (k : nat) :
  k < List.length s ->
  last_index_from [LF] s k =
  (Z.of_nat k - Z.of_nat (untilLF (rev (firstn (S k) s))))%Z.
Proof.
  induction k as [| k IH]; intros Hk;
    destruct (skipn_cons_nth s _ Hk) as (x & Hx & Hf);
    cbn [last_index_from]; rewrite Hx, Hf, rev_app_distr;
    cbn [rev app untilLF prefixb];
    rewrite andb_true_r; destruct (N.eqb LF x); try lia.
  reflexivity.
Qed.

Lemma substring_nat (text : JSString) (a b : nat) :
  a <= b <= List.length text ->
  substring text (Z.of_nat a) (Z.of_nat b) = firstn (b - a) (skipn a text).
Proof.
  intros H.
  rewrite (substring_selection text (Z.of_nat a) (Z.of_nat b))
    by (unfold length; lia).
  now rewrite !Nat2Z.id.
Qed.

Lemma substring_from_nat (text : JSString) (a : nat) :
  a <= List.length text ->
  substring_from text (Z.of_nat a) = skipn a text.
Proof.
  intros H.
  rewrite (substring_suffix text (Z.of_nat a) (Z.of_nat a))
    by (unfold length; lia).
  now rewrite Nat2Z.id.
Qed.

Lemma lineStartOf_le (text : JSString) (s : nat) : lineStartOf text s <= s.
Proof. unfold lineStartOf. lia. Qed.

Lemma lineEndOf_bounds (text : JSString) (e : nat) :
  e <= List.length text -> e <= lineEndOf text e <= List.length text.
Proof.
  intros H. unfold lineEndOf.
  pose proof (untilLF_le (skipn e text)) as Hu.
  rewrite length_skipn in Hu. lia.
Qed.

(** Away from the defect, [lineStart] is the start of the line of the
    selection start. *)
Lemma lineStart_eq (text : JSString) (s : nat) :
  s <= List.length text ->
  0 < s \/ startsWith text [LF] = false ->
  (lastIndexOf text [LF] (Z.of_nat s - 1) + 1)%Z = Z.of_nat (lineStartOf text s).
Proof.
  intros Hs Hd. unfold lastIndexOf, length, clamp. cbn [List.length].
  destruct s as [| k].
  - destruct Hd as [Hd | Hd]; [lia |].
    destruct text as [| x t]; [reflexivity |].
    destruct (Z.ltb_spec (Z.of_nat (List.length (x :: t))) (Z.of_nat 1));
      [cbn [List.length] in *; lia |].
    replace (Z.to_nat _) with 0 by (cbn [List.length]; lia).
    cbn [last_index_from skipn]. unfold startsWith in Hd. rewrite Hd.
    reflexivity.
  - destruct (Z.ltb_spec (Z.of_nat (List.length text)) (Z.of_nat 1)); [lia |].
    replace (Z.to_nat _) with k by lia.
    rewrite last_index_from_LF by lia. unfold lineStartOf.
    pose proof (untilLF_le (rev (firstn (S k) text))) as Hu.
    rewrite length_rev, length_firstn in Hu. lia.
Qed.

Lemma lineEnd_eq (text : JSString) (e : nat) :
  e <= List.length text ->
  (if (indexOf text [LF] (Z.of_nat e) =? -1)%Z then length text
   else indexOf text [LF] (Z.of_nat e)) = Z.of_nat (lineEndOf text e).
Proof.
  intros He. unfold indexOf, length, clamp, lineEndOf.
  replace (Z.to_nat _) with e by lia.
  rewrite index_from_LF.
  pose proof (untilLF_le (skipn e text)) as Hu.
  destruct (Nat.ltb_spec (untilLF (skipn e text)) (List.length (skipn e text)))
    as [Hlt | Hge].
  - destruct (Z.eqb_spec (Z.of_nat (e + untilLF (skipn e text))) (-1)); [lia |].
    reflexivity.
  - rewrite Z.eqb_refl. rewrite length_skipn in *. lia.
Qed.

Section LineFormat.

Variables (text : JSString) (s e : nat) (id : string) (f : Format).
Hypothesis Hid : lookup id formats = Some f.
Hypothesis Hty : type f = line.
Hypothesis Hsel : s <= e <= List.length text.
Hypothesis Hdefect : 0 < s \/ startsWith text [LF] = false.

Let ls := lineStartOf text s.
Let le := lineEndOf text e.
Let currentLine := firstn (le - ls) (skipn ls text).

Lemma formatText_line_effect :
  formatText text (Z.of_nat s) (Z.of_nat e) id =
  Some (firstn ls text ++
        (if startsWith currentLine (marker f)
         then skipn (List.length (marker f)) currentLine
         else marker f ++ currentLine) ++
        skipn le text, Z.of_nat s).
Proof.
  pose proof (lineStartOf_le text s) as Hls. fold ls in Hls.
  pose proof (lineEndOf_bounds text e (proj2 Hsel)) as Hle. fold le in Hle.
  rewrite (formatText_line text _ _ id f Hid Hty). cbv zeta.
  rewrite lineStart_eq, lineEnd_eq by first [lia | exact Hdefect].
  fold ls le.
  rewrite (substring_nat text ls le) by lia. fold currentLine.
  rewrite substring_from_nat by lia.
  change 0%Z with (Z.of_nat 0). rewrite substring_nat by lia.
  rewrite Nat.sub_0_r. cbn [skipn].
  destruct (startsWith currentLine (marker f)) eqn:Ef; [| reflexivity].
  unfold length. rewrite substring_from_nat; [reflexivity |].
  apply prefixb_true in Ef. rewrite Ef, length_app. lia.
Qed.

(** Toggle on: the marker is inserted at the start of the line and nothing
    else changes. *)
Lemma formatText_line_on :
  startsWith currentLine (marker f) = false ->
  formatText text (Z.of_nat s) (Z.of_nat e) id =
  Some (firstn ls text ++ marker f ++ skipn ls text, Z.of_nat s).
Proof.
  intros Ef. rewrite formatText_line_effect, Ef.
  pose proof (lineStartOf_le text s) as Hls. fold ls in Hls.
  pose proof (lineEndOf_bounds text e (proj2 Hsel)) as Hle. fold le in Hle.
  do 3 f_equal. rewrite <- app_assoc. f_equal. unfold currentLine.
  rewrite <- (firstn_skipn (le - ls) (skipn ls text)) at 2.
  f_equal. rewrite skipn_skipn. f_equal. lia.
Qed.

(** Toggle off: the marker at the start of the line is removed and nothing
    else changes. *)
Lemma formatText_line_off :
  startsWith currentLine (marker f) = true ->
  formatText text (Z.of_nat s) (Z.of_nat e) id =
  Some (firstn ls text ++ skipn (ls + List.length (marker f)) text,
        Z.of_nat s).
Proof.
  intros Ef. rewrite formatText_line_effect, Ef.
  pose proof (lineStartOf_le text s) as Hls. fold ls in Hls.
  pose proof (lineEndOf_bounds text e (proj2 Hsel)) as Hle. fold le in Hle.
  apply prefixb_true in Ef.
  assert (Hlen : List.length (marker f) <= le - ls).
  { apply (f_equal (@List.length _)) in Ef. rewrite length_app in Ef.
    unfold currentLine in Ef at 1. rewrite length_firstn in Ef. lia. }
  do 3 f_equal. unfold currentLine.
  rewrite skipn_firstn_comm, skipn_skipn.
  rewrite (Nat.add_comm ls (List.length (marker f))).
  rewrite <- (firstn_skipn (le - ls - List.length (marker f))
                (skipn (List.length (marker f) + ls) text)) at 2.
  f_equal. rewrite skipn_skipn. f_equal. lia.
Qed.

End LineFormat.

Lemma noLF_skipn (n : nat) (t : JSString) :
  noLF t = true -> noLF (skipn n t) = true.
Proof.
  revert n; induction t as [| x t IH]; intros [| n]; line_simpl; auto.
  intros H; apply andb_prop in H as [_ Ht]; auto.
Qed.

Lemma line_formats (id : string) (f : Format) :
  lookup id formats = Some f -> type f = line ->
  noLF (marker f) = true /\ marker f <> [].
Proof.
  unfold formats, lookup.
  repeat (destruct (String.eqb _ id);
          [intros [= <-]; simpl; intros Hty;
           first [discriminate Hty | split; [reflexivity | discriminate]] |]).
  discriminate.
Qed.

(** [lineStartOf text s] is a line start, and no newline stands between it
    and offset [s]. *)
Lemma lineStartOf_spec (text : JSString) (s : nat) :
  s <= List.length text ->
  let ls := lineStartOf text s in
  let w := firstn (s - ls) (skipn ls text) in
  firstn s text = firstn ls text ++ w /\
  List.length w = s - ls /\
  noLF w = true /\
  untilLF (rev (firstn ls text)) = 0.
Proof.
  intros Hs ls w.
  pose proof (lineStartOf_le text s) as Hls. fold ls in Hls.
  set (a := untilLF (rev (firstn s text))).
  assert (Ha : ls = s - a) by reflexivity.
  assert (Hale : a <= s).
  { pose proof (untilLF_le (rev (firstn s text))) as H.
    rewrite length_rev, length_firstn in H. fold a in H. lia. }
  assert (Hw : firstn s text = firstn ls text ++ w).
  { rewrite <- (firstn_skipn ls (firstn s text)) at 1.
    rewrite firstn_firstn, Nat.min_l by lia.
    now rewrite skipn_firstn_comm. }
  assert (Hwl : List.length w = a).
  { unfold w. rewrite length_firstn, length_skipn. lia. }
  assert (Hr : noLF (rev w) = true).
  { pose proof (untilLF_noLF (rev (firstn s text))) as H. fold a in H.
    rewrite Hw, rev_app_distr in H.
    rewrite firstn_app, length_rev, Hwl, Nat.sub_diag in H.
    rewrite <- Hwl, <- (length_rev w), firstn_all in H. simpl in H.
    now rewrite app_nil_r in H. }
  repeat split; [exact Hw | lia | now rewrite noLF_rev in Hr |].
  assert (Hu : untilLF (rev (firstn s text)) = a) by reflexivity.
  rewrite Hw, rev_app_distr, untilLF_app, length_rev in Hu by exact Hr.
  lia.
Qed.

Lemma untilLF_zero (t : JSString) :
  untilLF t = 0 -> t = [] \/ exists r, t = LF :: r.
Proof.
  destruct t as [| x t]; [auto |]. line_simpl.
  destruct (N.eqb LF x) eqn:E; [| discriminate].
  apply N.eqb_eq in E; subst x. right; eauto.
Qed.

(** The line start is offset 0 or the offset right after a newline. *)
Lemma lineStartOf_after_newline (text : JSString) (s : nat) :
  s <= List.length text ->
  lineStartOf text s = 0 \/
  nth_error text (lineStartOf text s - 1) = Some LF.
Proof.
  intros Hs. destruct (lineStartOf_spec text s Hs) as (_ & _ & _ & H0).
  pose proof (lineStartOf_le text s) as Hls.
  set (ls := lineStartOf text s) in *.
  destruct ls as [| k]; [auto | right].
  destruct (skipn_cons_nth text k) as (x & Hx & Hf); [lia |].
  rewrite Hf, rev_app_distr in H0. cbn [rev app untilLF] in H0.
  destruct (N.eqb LF x) eqn:E; [| discriminate].
  apply N.eqb_eq in E; subst x.
  cbn [Nat.sub]. rewrite Nat.sub_0_r.
  rewrite <- (firstn_skipn k text), Hx.
  rewrite nth_error_app2 by (rewrite length_firstn; lia).
  rewrite length_firstn, Nat.min_l by lia. now rewrite Nat.sub_diag.
Qed.

Section LineRoundTrip.

Variables (text : JSString) (s e : nat) (mk : JSString).
Hypothesis Hsel : s <= e <= List.length text.
Hypothesis Hmk : noLF mk = true.

Let ls := lineStartOf text s.
Let text1 := firstn ls text ++ mk ++ skipn ls text.

(** After the marker has been inserted at the line start, the line of
    offset [s] still starts at the same place. *)
Lemma lineStartOf_after_insert : lineStartOf text1 s = ls.
Proof.
  pose proof (lineStartOf_le text s) as Hls. fold ls in Hls.
  destruct (lineStartOf_spec text s) as (Hw & Hwl & Hwn & H0); [lia |].
  fold ls in Hw, Hwl, Hwn, H0.
  set (a := s - ls) in *. set (w := firstn a (skipn ls text)) in *.
  set (w1 := firstn a (mk ++ skipn ls text)).
  assert (H1 : firstn s text1 = firstn ls text ++ w1).
  { unfold text1. rewrite firstn_app, length_firstn, Nat.min_l by lia.
    rewrite firstn_firstn, Nat.min_r by lia. reflexivity. }
  assert (H1l : List.length w1 = a).
  { unfold w1. rewrite length_firstn, length_app, length_skipn. lia. }
  assert (H1n : noLF (rev w1) = true).
  { rewrite noLF_rev. unfold w1.
    rewrite <- (firstn_skipn a (skipn ls text)). fold w.
    rewrite app_assoc, firstn_app.
    replace (a - List.length (mk ++ w)) with 0
      by (rewrite length_app; lia).
    simpl firstn. rewrite app_nil_r. apply noLF_firstn.
    now rewrite noLF_app, Hmk, Hwn. }
  unfold lineStartOf at 1.
  rewrite H1, rev_app_distr, untilLF_app, length_rev, H1l, H0 by exact H1n.
  lia.
Qed.

Lemma lineEndOf_after_insert :
  ls + List.length mk <= lineEndOf text1 s.
Proof.
  pose proof (lineStartOf_le text s) as Hls. fold ls in Hls.
  unfold lineEndOf, text1.
  rewrite skipn_app, length_firstn, Nat.min_l by lia.
  rewrite (skipn_all2 (firstn ls text)) by (rewrite length_firstn; lia).
  simpl app. rewrite skipn_app, untilLF_app by (now apply noLF_skipn).
  rewrite length_skipn. lia.
Qed.

End LineRoundTrip.

(** Away from the defect at offset 0, a line format on a line that does not
    start with its marker inserts the marker at the start of that line, and
    the same format applied again at the returned cursor restores the
    text. *)
Lemma line_format_round_trip
    (text : JSString) (s e : nat) (id : string) (f : Format) :
  lookup id formats = Some f -> type f = line ->
  s <= e <= List.length text ->
  0 < s \/ startsWith text [LF] = false ->
  let ls := lineStartOf text s in
  let currentLine := firstn (lineEndOf text e - ls) (skipn ls text) in
  startsWith currentLine (marker f) = false ->
  let text1 := firstn ls text ++ marker f ++ skipn ls text in
  formatText text (Z.of_nat s) (Z.of_nat e) id = Some (text1, Z.of_nat s) /\
  formatText text1 (Z.of_nat s) (Z.of_nat s) id = Some (text, Z.of_nat s).
Proof.
  intros Hid Hty Hsel Hdef ls currentLine Hoff text1.
  destruct (line_formats id f Hid Hty) as [Hn Hne].
  pose proof (lineStartOf_le text s) as Hls. fold ls in Hls.
  split; [exact (formatText_line_on text s e id f Hid Hty Hsel Hdef Hoff) |].
  assert (Hlen1 : List.length text1 = List.length text + List.length (marker f)).
  { unfold text1. rewrite !length_app, length_firstn, length_skipn. lia. }
  assert (Hsel1 : s <= s <= List.length text1) by lia.
  assert (Hdef1 : 0 < s \/ startsWith text1 [LF] = false).
  { destruct s as [| k]; [right | left; lia].
    assert (E : ls = 0) by reflexivity. unfold text1. rewrite E.
    destruct (marker f) as [| c m]; [congruence |].
    unfold noLF in Hn. cbn [forallb] in Hn. apply andb_prop in Hn as [Hc _].
    unfold startsWith. cbn [firstn app prefixb].
    destruct (N.eqb LF c); [discriminate | reflexivity]. }
  pose proof (lineStartOf_after_insert text s e (marker f) Hsel Hn) as K1.
  pose proof (lineEndOf_after_insert text s e (marker f) Hsel Hn) as K2.
  fold ls in K1, K2. fold text1 in K1, K2.
  assert (Hskip : skipn ls text1 = marker f ++ skipn ls text).
  { unfold text1. rewrite skipn_app, length_firstn, Nat.min_l by lia.
    rewrite skipn_all2 by (rewrite length_firstn; lia).
    now rewrite Nat.sub_diag. }
  rewrite (formatText_line_off text1 s s id f Hid Hty Hsel1 Hdef1).
  - rewrite K1. f_equal. f_equal.
    transitivity (firstn ls text ++ skipn ls text); [| apply firstn_skipn].
    f_equal.
    + unfold text1. rewrite firstn_app, length_firstn, Nat.min_l by lia.
      rewrite firstn_firstn, Nat.min_id, Nat.sub_diag. simpl. apply app_nil_r.
    + rewrite Nat.add_comm, <- skipn_skipn, Hskip.
      now rewrite skipn_app, Nat.sub_diag, skipn_all.
  - rewrite K1, Hskip. unfold startsWith.
    rewrite firstn_app.
    rewrite firstn_all2 by lia. apply prefixb_app.
Qed.

(** * Further properties *)

(** ** The registry and the toolbar *)

Lemma formatText_defined
    (text : JSString) (start end_ : Z) (id : string) (f : Format) :
  lookup id formats = Some f ->
  exists newText cur, formatText text start end_ id = Some (newText, cur).
Proof.
  intros Hid. unfold formatText. rewrite Hid.
  destruct (type f); [| destruct (startsWith _ _) | | destruct (handler f)];
    eexists; eexists; reflexivity.
Qed.

(** Every identifier a toolbar button dispatches is a key written in the
    registry, not a name the registry merely inherits: a click always runs
    one of the four cases of [formatText] and yields a new text and a
    cursor. *)
Theorem toolbar_ids_registered :
  forall (text : JSString) (start end_ : Z) (id : string),
    In id toolbar ->
    (exists f, lookup id formats = Some f) /\
    exists newText cur, formatText text start end_ id = Some (newText, cur).
Proof.
  intros text start end_ id Hin.
  assert (Hf : exists f, lookup id formats = Some f).
  { simpl in Hin.
    repeat (destruct Hin as [<- | Hin]; [eexists; reflexivity |]).
    contradiction. }
  split; [exact Hf |].
  destruct Hf as [f Hf]. exact (formatText_defined text start end_ id f Hf).
Qed.

Lemma toolbar_ids_registered_witness :
  (exists f, lookup "numberList" formats = Some f) /\
  exists newText cur,
    formatText (str "abc") 1 2 "numberList" = Some (newText, cur).
Proof.
  apply (toolbar_ids_registered (str "abc") 1 2 "numberList").
  simpl; auto 10.
Defined.

(** ** Inline formats: short selections, round trips, italic on bold *)

Lemma span_length (mk u c v : JSString) :
  2 * List.length mk <= List.length (u ++ mk ++ c ++ mk ++ v).
Proof. rewrite !length_app. lia. Qed.

Lemma selection_length (text : JSString) (start end_ : Z) :
  (0 <= start <= end_)%Z -> (end_ <= length text)%Z ->
  length (substring text start end_) = (end_ - start)%Z.
Proof.
  intros Hs He. rewrite (substring_selection text start end_ Hs He).
  unfold length in *. rewrite length_firstn, length_skipn. lia.
Qed.

(** A selection shorter than twice the marker, the empty selection in
    particular, is never taken for a formatted one: the marker is put on
    both sides of it and the cursor lands after the closing marker. *)
Theorem inline_short_selection_wrapped :
  forall (text : JSString) (start end_ : Z) (id : string) (f : Format),
    (0 <= start <= end_)%Z -> (end_ <= length text)%Z ->
    lookup id formats = Some f -> type f = inline ->
    (end_ - start < 2 * length (marker f))%Z ->
    formatText text start end_ id =
    Some (firstn (Z.to_nat start) text ++
          (marker f ++ substring text start end_ ++ marker f) ++
          skipn (Z.to_nat end_) text,
          (end_ + 2 * length (marker f))%Z).
Proof.
  intros text start end_ id f Hs He Hid Hty Hshort.
  destruct (inline_formats id f Hid Hty) as [Hp Hmk].
  rewrite (formatText_inline text start end_ id f Hid _ Hty Hp). cbv zeta.
  pose proof (selection_length text start end_ Hs He) as Hlen.
  destruct (fst (test (markerPattern (marker f)) 0 (substring text start end_)))
    eqn:Et.
  - apply (test_marker (marker f)) in Et as (u & c & v & Hsel & _).
    pose proof (span_length (marker f) u c v) as Hspan.
    rewrite <- Hsel in Hspan. unfold length in *. lia.
  - rewrite (substring_prefix text start end_ Hs He),
      (substring_suffix text start end_ Hs He).
    do 2 f_equal. unfold length in *. rewrite !length_app. lia.
Qed.

Lemma inline_short_selection_wrapped_witness :
  formatText (str "ab") 1 1 "strikethrough" =
  Some (str "a" ++ (str "~~" ++ [] ++ str "~~") ++ str "b", 5%Z).
Proof.
  refine (inline_short_selection_wrapped (str "ab") 1 1 "strikethrough" _
            _ _ eq_refl eq_refl _).
  - lia.
  - vm_compute; discriminate.
  - vm_compute; reflexivity.
Defined.

Lemma closing_start (mk a : JSString) :
  closing mk a =
  if prefixb mk a then Some 0
  else match a with
       | x :: t => if dot x then option_map S (closing mk t) else None
       | [] => None
       end.
Proof. destruct a; reflexivity. Qed.

Section MarkerAbsent.

Variable mk : JSString.
Hypothesis mk_nonempty : mk <> [].

Let absent (x : CodeUnit) : bool := negb (oneOf mk x).

Lemma absent_head (x : CodeUnit) (r : JSString) :
  absent x = true -> prefixb mk (x :: r) = false.
Proof.
  unfold absent, oneOf. destruct mk as [| c m]; [congruence |].
  cbn [existsb prefixb]. rewrite (N.eqb_sym c x).
  destruct (N.eqb x c); [discriminate | reflexivity].
Qed.

Lemma closing_absent (sel r : JSString) :
  forallb dot sel = true -> forallb absent sel = true ->
  closing mk (sel ++ mk ++ r) = Some (List.length sel).
Proof.
  induction sel as [| x t IH]; cbn [forallb app closing List.length].
  - intros _ _. rewrite closing_start, prefixb_app. reflexivity.
  - intros Hd Ha. apply andb_prop in Hd as [Hx Hd].
    apply andb_prop in Ha as [Hax Ha].
    rewrite (absent_head x _ Hax), Hx, (IH Hd Ha). reflexivity.
Qed.

Lemma no_span_absent (sel : JSString) :
  forallb absent sel = true ->
  fst (test (markerPattern mk) 0 sel) = false.
Proof.
  intros Ha. destruct (fst (test (markerPattern mk) 0 sel)) eqn:Et;
    [| reflexivity].
  apply (test_marker mk) in Et as (u & c & v & -> & _).
  rewrite forallb_app in Ha. apply andb_prop in Ha as [_ Ha].
  destruct mk as [| x m] eqn:E; [congruence |].
  cbn [app forallb] in Ha. apply andb_prop in Ha as [Hx _].
  unfold absent, oneOf in Hx. cbn [existsb] in Hx.
  now rewrite N.eqb_refl in Hx.
Qed.

Lemma matchAt_marker_nil (bef : JSString) :
  matchAt (markerPattern mk) bef [] = None.
Proof.
  rewrite matchAt_marker. destruct mk; [congruence | reflexivity].
Qed.

Lemma replace_span_absent (sel : JSString) :
  forallb dot sel = true -> forallb absent sel = true ->
  replace (mk ++ sel ++ mk) (markerPattern mk) (str "$1") = sel.
Proof.
  intros Hd Ha. rewrite replace_marker_global.
  assert (Hm : matchAt (markerPattern mk) [] ((mk ++ sel ++ mk) ++ []) =
               Some (List.length (mk ++ sel ++ mk), [(1, sel)])).
  { rewrite app_nil_r, matchAt_marker, prefixb_app.
    rewrite skipn_app, Nat.sub_diag, skipn_all.
    change ([] ++ skipn 0 (sel ++ mk)) with (sel ++ mk).
    rewrite <- (app_nil_r mk) at 2 4.
    rewrite (closing_absent sel [] Hd Ha).
    rewrite firstn_app, Nat.sub_diag, firstn_all. simpl firstn.
    rewrite !app_nil_r, !length_app. do 2 f_equal. lia. }
  rewrite <- (app_nil_r (mk ++ sel ++ mk)).
  rewrite (replaceAll_matched _ (str "$1") _ [] [] [(1, sel)]); [| | exact Hm].
  - rewrite substitute_capture. cbn [replaceAll].
    rewrite matchAt_marker_nil. apply app_nil_r.
  - destruct mk; [congruence | discriminate].
Qed.

End MarkerAbsent.

(** For each of the four inline formats and a selection that contains no
    line terminator and no code unit of the marker, the format wraps the
    selection, and applied again to the full marked span it gives back the
    original text, with the cursor at the end of the original selection. *)
Theorem inline_round_trip :
  forall (text : JSString) (start end_ : Z) (id : string) (f : Format),
    (0 <= start <= end_)%Z -> (end_ <= length text)%Z ->
    lookup id formats = Some f -> type f = inline ->
    let mk := marker f in
    let selectedText := substring text start end_ in
    forallb dot selectedText = true ->
    forallb (fun x => negb (oneOf mk x)) selectedText = true ->
    let text1 :=
      firstn (Z.to_nat start) text ++ (mk ++ selectedText ++ mk) ++
      skipn (Z.to_nat end_) text in
    let end1 := (end_ + 2 * length mk)%Z in
    formatText text start end_ id = Some (text1, end1) /\
    formatText text1 start end1 id = Some (text, end_).
Proof.
  intros text start end_ id f Hs He Hid Hty mk selectedText Hd Ha text1 end1.
  destruct (inline_formats id f Hid Hty) as [Hp Hmk]. fold mk in Hp, Hmk.
  pose proof (selection_split text start end_ Hs He) as Htext.
  fold selectedText in Htext.
  pose proof (selection_length text start end_ Hs He) as Hlen.
  fold selectedText in Hlen.
  assert (Hpre : length (firstn (Z.to_nat start) text) = start).
  { unfold length in *. rewrite length_firstn. lia. }
  split.
  - rewrite (formatText_inline text start end_ id f Hid _ Hty Hp). cbv zeta.
    fold selectedText mk. rewrite (no_span_absent mk Hmk selectedText Ha).
    rewrite (substring_prefix text start end_ Hs He),
      (substring_suffix text start end_ Hs He).
    unfold text1, end1. do 2 f_equal.
    unfold length in *. rewrite !length_app. lia.
  - rewrite (formatText_inline text1 start end1 id f Hid _ Hty Hp). cbv zeta.
    destruct (substring_app3 (firstn (Z.to_nat start) text)
                (mk ++ selectedText ++ mk) (skipn (Z.to_nat end_) text))
      as (H1 & H2 & H3).
    fold text1 in H1, H2, H3. rewrite Hpre in H1, H2, H3.
    replace (start + length (mk ++ selectedText ++ mk))%Z with end1 in H2, H3
      by (unfold end1, length in *; rewrite !length_app; lia).
    rewrite H1, H2, H3. fold mk.
    replace (fst (test (markerPattern mk) 0 (mk ++ selectedText ++ mk)))
      with true.
    + rewrite (replace_span_absent mk Hmk selectedText Hd Ha).
      rewrite <- Htext. do 2 f_equal. lia.
    + symmetry. apply (proj2 (test_marker mk _)).
      exists [], selectedText, []. now rewrite app_nil_r.
Qed.

Lemma inline_round_trip_witness :
  let text := str "run `make` now" in
  let text1 := str "run `" ++ (str "`" ++ str "make" ++ str "`") ++ str "` now" in
  formatText text 5 9 "code" = Some (text1, 11%Z) /\
  formatText text1 5 11 "code" = Some (text, 9%Z).
Proof.
  refine (inline_round_trip (str "run `make` now") 5 9 "code" _ _ _
            eq_refl eq_refl _ _).
  - lia.
  - vm_compute; discriminate.
  - vm_compute; reflexivity.
  - vm_compute; reflexivity.
Defined.

(** Italic applied to a selected bold span does not add italic markers: the
    italic pattern matches each pair of asterisks with an empty content, so
    both bold markers are removed and the bare content is left. *)
Theorem italic_strips_bold :
  forall (text : JSString) (start end_ : Z) (c : JSString),
    (0 <= start <= end_)%Z -> (end_ <= length text)%Z ->
    substring text start end_ = str "**" ++ c ++ str "**" ->
    forallb dot c = true ->
    forallb (fun x => negb (oneOf (str "*") x)) c = true ->
    formatText text start end_ "italic" =
    Some (firstn (Z.to_nat start) text ++ c ++ skipn (Z.to_nat end_) text,
          (start + length c)%Z).
Proof.
  intros text start end_ c Hs He Hsel Hd Ha.
  rewrite (formatText_inline text start end_ "italic" _ eq_refl italic_pattern
             eq_refl eq_refl).
  cbv zeta. rewrite Hsel.
  change italic_pattern with (markerPattern (str "*")).
  assert (Hne : str "*" <> []) by discriminate.
  replace (fst (test (markerPattern (str "*")) 0 (str "**" ++ c ++ str "**")))
    with true.
  2:{ symmetry. apply (proj2 (test_marker (str "*") _)).
      exists [], [], (c ++ str "**"). split; reflexivity. }
  assert (Hr : replace (str "**" ++ c ++ str "**") (markerPattern (str "*"))
                 (str "$1") = c).
  { rewrite replace_marker_global.
    change (str "**" ++ c ++ str "**")
      with ((str "*" ++ [] ++ str "*") ++ c ++ str "**").
    rewrite (replaceAll_matched _ (str "$1") _ _ [] [(1, [])]);
      [| discriminate | rewrite matchAt_marker; reflexivity].
    rewrite substitute_capture. cbn [app].
    rewrite (replaceAll_unmatched _ (str "$1") c (str "**")).
    - rewrite (replaceAll_marker_before _ _ _ _ []).
      change (replaceAll (markerPattern (str "*")) (str "$1") [] (str "**") 0)
        with (@nil CodeUnit).
      apply app_nil_r.
    - intros u1 u2 -> Hu2. rewrite forallb_app in Ha.
      apply andb_prop in Ha as [_ Ha]. destruct u2 as [| x u2]; [congruence |].
      cbn [forallb] in Ha. apply andb_prop in Ha as [Hx _].
      rewrite matchAt_marker. cbn [app].
      now rewrite (absent_head (str "*") Hne x _ Hx). }
  rewrite Hr, (substring_prefix text start end_ Hs He),
    (substring_suffix text start end_ Hs He).
  reflexivity.
Qed.

Lemma italic_strips_bold_witness :
  formatText (str "a **b** c") 2 7 "italic" =
  Some (str "a " ++ str "b" ++ str " c", 3%Z).
Proof.
  refine (italic_strips_bold (str "a **b** c") 2 7 (str "b") _ _ eq_refl
            eq_refl eq_refl).
  - lia.
  - vm_compute; discriminate.
Defined.

(** ** The code block, and the cursor of the inline and special formats *)

(** The block format is no toggle: [codeBlock] puts the opening fence before
    the selection and the closing fence after it, and applied again around
    the fenced block it adds a second pair of fences around the first. *)
Theorem codeBlock_nests :
  forall (text : JSString) (start end_ : Z),
    (0 <= start <= end_)%Z -> (end_ <= length text)%Z ->
    let fenceOpen := LF :: str "```" ++ [LF] in
    let fenceClose := LF :: str "```" in
    let prefix := firstn (Z.to_nat start) text in
    let suffix := skipn (Z.to_nat end_) text in
    let block := fenceOpen ++ substring text start end_ ++ fenceClose in
    formatText text start end_ "codeBlock" =
      Some (prefix ++ block ++ suffix, start) /\
    formatText (prefix ++ block ++ suffix) start (end_ + 9) "codeBlock" =
      Some (prefix ++ (fenceOpen ++ block ++ fenceClose) ++ suffix, start).
Proof.
  intros text start end_ Hs He fenceOpen fenceClose prefix suffix block.
  assert (Hpre : length prefix = start).
  { unfold prefix, length in *. rewrite length_firstn. lia. }
  pose proof (selection_length text start end_ Hs He) as Hlen.
  split.
  - rewrite (formatText_block text start end_ "codeBlock" _ eq_refl eq_refl).
    rewrite (substring_prefix text start end_ Hs He),
      (substring_suffix text start end_ Hs He).
    reflexivity.
  - rewrite (formatText_block _ start (end_ + 9) "codeBlock" _ eq_refl eq_refl).
    destruct (substring_app3 prefix block suffix) as (H1 & H2 & H3).
    rewrite Hpre in H1, H2, H3.
    replace (start + length block)%Z with (end_ + 9)%Z in H2, H3.
    + rewrite H1, H2, H3. reflexivity.
    + assert (Hb : List.length block =
                   List.length (substring text start end_) + 9).
      { unfold block, fenceOpen, fenceClose. rewrite !length_app.
        simpl List.length. unfold JSString, CodeUnit. lia. }
      unfold length in *. rewrite Hb. unfold JSString, CodeUnit in *. lia.
Qed.

Lemma codeBlock_nests_witness :
  let fenceOpen := LF :: str "```" ++ [LF] in
  let fenceClose := LF :: str "```" in
  let block := fenceOpen ++ str "x = 1" ++ fenceClose in
  formatText (str "see x = 1.") 4 9 "codeBlock" =
    Some (str "see " ++ block ++ str ".", 4%Z) /\
  formatText (str "see " ++ block ++ str ".") 4 18 "codeBlock" =
    Some (str "see " ++ (fenceOpen ++ block ++ fenceClose) ++ str ".", 4%Z).
Proof.
  refine (codeBlock_nests (str "see x = 1.") 4 9 _ _).
  - lia.
  - vm_compute; discriminate.
Defined.

(** For an inline or a special format the returned cursor is the offset
    right after the new content: what follows the cursor in the new text is
    exactly what followed the selection in the old one. *)
Theorem cursor_after_new_content :
  forall (text : JSString) (start end_ : Z) (id : string) (f : Format),
    (0 <= start <= end_)%Z -> (end_ <= length text)%Z ->
    lookup id formats = Some f -> type f = inline \/ type f = special ->
    exists newContent newText cur,
      formatText text start end_ id = Some (newText, cur) /\
      newText = firstn (Z.to_nat start) text ++ newContent ++
                skipn (Z.to_nat end_) text /\
      cur = (start + length newContent)%Z /\
      firstn (Z.to_nat cur) newText =
        firstn (Z.to_nat start) text ++ newContent /\
      skipn (Z.to_nat cur) newText = skipn (Z.to_nat end_) text.
Proof.
  intros text start end_ id f Hs He Hid Hty.
  assert (H : exists newContent,
             formatText text start end_ id =
             Some (substring text 0 start ++ newContent ++
                   substring_from text end_,
                   (start + length newContent)%Z)).
  { destruct Hty as [Hty | Hty].
    - destruct (inline_formats id f Hid Hty) as [Hp _].
      rewrite (formatText_inline text start end_ id f Hid _ Hty Hp).
      eexists; reflexivity.
    - destruct (handler f) as [h |] eqn:Eh.
      + rewrite (formatText_special_handler text start end_ id f Hid h Hty Eh).
        eexists; reflexivity.
      + rewrite (formatText_special_marker text start end_ id f Hid Hty Eh).
        eexists; reflexivity. }
  destruct H as [newContent H]. rewrite H.
  rewrite (substring_prefix text start end_ Hs He),
    (substring_suffix text start end_ Hs He).
  exists newContent. eexists; eexists. split; [reflexivity |].
  split; [reflexivity |]. split; [reflexivity |].
  assert (Hcur : Z.to_nat (start + length newContent) =
                 List.length (firstn (Z.to_nat start) text ++ newContent)).
  { unfold length in *. rewrite length_app, length_firstn. lia. }
  rewrite Hcur, app_assoc. split.
  - now rewrite firstn_app, Nat.sub_diag, firstn_all, app_nil_r.
  - now rewrite skipn_app, Nat.sub_diag, skipn_all.
Qed.

Lemma cursor_after_new_content_witness :
  exists newContent newText cur,
    formatText (str "a pic") 2 5 "image" = Some (newText, cur) /\
    newText = firstn 2 (str "a pic") ++ newContent ++ skipn 5 (str "a pic") /\
    cur = (2 + length newContent)%Z /\
    firstn (Z.to_nat cur) newText = firstn 2 (str "a pic") ++ newContent /\
    skipn (Z.to_nat cur) newText = skipn 5 (str "a pic").
Proof.
  refine (cursor_after_new_content (str "a pic") 2 5 "image" _ _ _ eq_refl _).
  - lia.
  - vm_compute; discriminate.
  - right; reflexivity.
Defined.

(** ** Line formats: effect, lengths, round trip, and the defect at offset 0 *)

Lemma prefixb_firstn (p x : JSString) (n : nat) :
  prefixb p (firstn n x) = true -> prefixb p x = true.
Proof.
  intros H. apply prefixb_true in H.
  rewrite <- (firstn_skipn n x), H, <- app_assoc. apply prefixb_app.
Qed.

Lemma lineEndOf_past_marker (text mk r : JSString) (ls e : nat) :
  ls <= e <= List.length text -> noLF mk = true ->
  skipn ls text = mk ++ r ->
  ls + List.length mk <= lineEndOf text e.
Proof.
  intros He Hmk Hsk. unfold lineEndOf.
  replace e with ((e - ls) + ls) at 2 by lia.
  rewrite <- skipn_skipn, Hsk, skipn_app.
  rewrite untilLF_app by (now apply noLF_skipn).
  rewrite length_skipn. lia.
Qed.

Lemma startsWith_currentLine (text mk : JSString) (s e : nat) :
  s <= e <= List.length text -> noLF mk = true ->
  let ls := lineStartOf text s in
  startsWith (firstn (lineEndOf text e - ls) (skipn ls text)) mk =
  startsWith (skipn ls text) mk.
Proof.
  intros Hsel Hmk ls. unfold startsWith.
  pose proof (lineStartOf_le text s) as Hls. fold ls in Hls.
  destruct (prefixb mk (skipn ls text)) eqn:E.
  - apply prefixb_true in E.
    pose proof (lineEndOf_past_marker text mk _ ls e (conj (Nat.le_trans _ _ _ Hls (proj1 Hsel)) (proj2 Hsel)) Hmk E) as Hle.
    rewrite E, firstn_app, firstn_all2 by lia. apply prefixb_app.
  - destruct (prefixb mk (firstn _ _)) eqn:E'; [| reflexivity].
    apply prefixb_firstn in E'. congruence.
Qed.

(** Away from the defect at offset 0, a line format works at the start of
    the line that contains the selection start, which is offset 0 or the
    offset right after the last newline before the selection start. If the
    text there begins with the marker, exactly the marker is removed;
    otherwise exactly the marker is inserted. Nothing else changes, also
    when the selection spans several lines, and the cursor stays at the
    selection start. *)
Theorem line_format_toggle :
  forall (text : JSString) (s e : nat) (id : string) (f : Format),
    lookup id formats = Some f -> type f = line ->
    s <= e <= List.length text ->
    0 < s \/ startsWith text [LF] = false ->
    let ls := lineStartOf text s in
    let mk := marker f in
    ls <= s /\
    (ls = 0 \/ nth_error text (ls - 1) = Some LF) /\
    noLF (firstn (s - ls) (skipn ls text)) = true /\
    formatText text (Z.of_nat s) (Z.of_nat e) id =
    Some (firstn ls text ++
          (if startsWith (skipn ls text) mk
           then skipn (List.length mk) (skipn ls text)
           else mk ++ skipn ls text),
          Z.of_nat s).
Proof.
  intros text s e id f Hid Hty Hsel Hdef ls mk.
  destruct (line_formats id f Hid Hty) as [Hn _]. fold mk in Hn.
  destruct (lineStartOf_spec text s) as (_ & _ & Hw & _); [lia |].
  split; [apply lineStartOf_le |].
  split; [apply lineStartOf_after_newline; lia |].
  split; [exact Hw |].
  pose proof (startsWith_currentLine text mk s e Hsel Hn) as Hsw.
  cbv zeta in Hsw. fold ls in Hsw.
  destruct (startsWith (skipn ls text) mk) eqn:E.
  - rewrite (formatText_line_off text s e id f Hid Hty Hsel Hdef Hsw).
    fold ls mk. now rewrite skipn_skipn, Nat.add_comm.
  - exact (formatText_line_on text s e id f Hid Hty Hsel Hdef Hsw).
Qed.

Lemma line_format_toggle_witness :
  let text := str "intro" ++ [LF] ++ str "> quoted" ++ [LF] ++ str "end" in
  let ls := lineStartOf text 10 in
  ls <= 10 /\
  (ls = 0 \/ nth_error text (ls - 1) = Some LF) /\
  noLF (firstn (10 - ls) (skipn ls text)) = true /\
  formatText text 10 17 "blockquote" =
  Some (firstn ls text ++
        (if startsWith (skipn ls text) (str "> ")
         then skipn 2 (skipn ls text)
         else str "> " ++ skipn ls text),
        10%Z).
Proof.
  refine (line_format_toggle
            (str "intro" ++ [LF] ++ str "> quoted" ++ [LF] ++ str "end")
            10 17 "blockquote" _ eq_refl eq_refl _ _).
  - vm_compute. split; repeat constructor.
  - left. repeat constructor.
Defined.

(** A line format changes the length of the text by exactly the length of
    its marker. Since the returned cursor is the old selection start, after
    the marker has been removed the cursor is a valid offset of the new text
    only if the selection started at least a marker's length before the end
    of the old one. *)
Theorem line_format_length :
  forall (text : JSString) (s e : nat) (id : string) (f : Format),
    lookup id formats = Some f -> type f = line ->
    s <= e <= List.length text ->
    0 < s \/ startsWith text [LF] = false ->
    let mk := marker f in
    exists newText,
      formatText text (Z.of_nat s) (Z.of_nat e) id = Some (newText, Z.of_nat s) /\
      if startsWith (skipn (lineStartOf text s) text) mk
      then List.length newText + List.length mk = List.length text /\
           (s <= List.length newText <-> s + List.length mk <= List.length text)
      else List.length newText = List.length text + List.length mk.
Proof.
  intros text s e id f Hid Hty Hsel Hdef mk.
  destruct (line_formats id f Hid Hty) as [Hn _]. fold mk in Hn.
  pose proof (lineStartOf_le text s) as Hls.
  set (ls := lineStartOf text s) in *.
  pose proof (startsWith_currentLine text mk s e Hsel Hn) as Hsw.
  cbv zeta in Hsw. fold ls in Hsw.
  destruct (startsWith (skipn ls text) mk) eqn:E.
  - rewrite (formatText_line_off text s e id f Hid Hty Hsel Hdef Hsw).
    fold ls mk. eexists; split; [reflexivity |].
    apply prefixb_true in E. apply (f_equal (@List.length _)) in E.
    rewrite length_app, !length_skipn in E.
    rewrite length_app, length_firstn, length_skipn.
    unfold JSString, CodeUnit in *. lia.
  - rewrite (formatText_line_on text s e id f Hid Hty Hsel Hdef Hsw).
    fold ls mk. eexists; split; [reflexivity |].
    rewrite !length_app, length_firstn, length_skipn.
    unfold JSString, CodeUnit in *. lia.
Qed.

Lemma line_format_length_witness :
  exists newText,
    formatText (str "# a") 3 3 "h1" = Some (newText, 3%Z) /\
    if startsWith (skipn (lineStartOf (str "# a") 3) (str "# a")) (str "# ")
    then List.length newText + 2 = 3 /\ (3 <= List.length newText <-> 3 + 2 <= 3)
    else List.length newText = 3 + 2.
Proof.
  refine (line_format_length (str "# a") 3 3 "h1" _ eq_refl eq_refl _ _).
  - vm_compute. split; repeat constructor.
  - left. repeat constructor.
Defined.

Lemma line_format_round_trip_witness :
  let text := str "one" ++ [LF] ++ str "two" in
  let text1 := str "one" ++ [LF] ++ str "- " ++ str "two" in
  formatText text 5 6 "bulletList" = Some (text1, 5%Z) /\
  formatText text1 5 5 "bulletList" = Some (text, 5%Z).
Proof.
  refine (line_format_round_trip (str "one" ++ [LF] ++ str "two") 5 6
            "bulletList" _ eq_refl eq_refl _ _ eq_refl).
  - vm_compute. split; repeat constructor.
  - left. repeat constructor.
Defined.



(** With the selection start at offset 0 of a text that starts with a
    newline, a line format computes the same new text as for a selection
    start at offset 1: it works on the second line. *)
Theorem line_format_start_zero_as_one :
  forall (rest : JSString) (end_ : Z) (id : string) (f : Format),
    lookup id formats = Some f -> type f = line ->
    exists newText,
      formatText (LF :: rest) 0 end_ id = Some (newText, 0%Z) /\
      formatText (LF :: rest) 1 end_ id = Some (newText, 1%Z).
Proof.
  intros rest end_ id f Hid Hty.
  rewrite (formatText_line (LF :: rest) 0 end_ id f Hid Hty).
  rewrite (formatText_line (LF :: rest) 1 end_ id f Hid Hty). cbv zeta.
  assert (H0 : lastIndexOf (LF :: rest) [LF] (0 - 1) =
               lastIndexOf (LF :: rest) [LF] (1 - 1)).
  { unfold lastIndexOf, length, clamp. cbn [List.length].
    destruct (Z.ltb_spec (Z.of_nat (S (List.length rest))) (Z.of_nat 1));
      [lia |].
    replace (Z.to_nat (Z.min (Z.max (0 - 1) 0) _)) with 0 by lia.
    replace (Z.to_nat (Z.min (Z.max (1 - 1) 0) _)) with 0 by lia.
    reflexivity. }
  rewrite H0. eexists; split; reflexivity.
Qed.

Lemma line_format_start_zero_as_one_witness :
  exists newText,
    formatText (LF :: str "abc") 0 2 "h3" = Some (newText, 0%Z) /\
    formatText (LF :: str "abc") 1 2 "h3" = Some (newText, 1%Z).
Proof.
  exact (line_format_start_zero_as_one (str "abc") 2 "h3" _ eq_refl eq_refl).
Defined.

(** ** The converter: rules that find nothing *)

Lemma convertToHTML_steps (text : JSString) :
  convertToHTML text =
  replace (replace (applyRules conversions text) listBoundary []) newline
    (str "<br>").
Proof. reflexivity. Qed.

Lemma applyRules_app (r1 r2 : list (RegExp * JSString)) (html : JSString) :
  applyRules (r1 ++ r2) html = applyRules r2 (applyRules r1 html).
Proof. apply fold_left_app. Qed.

Lemma replaceAll_quiet (re : RegExp) (tpl v bef : JSString) :
  quietAll re bef v = true -> replaceAll re tpl bef v 0 = v.
Proof.
  revert bef; induction v as [| x v IH]; intros bef; cbn [quietAll replaceAll];
    unfold quietAt; destruct (matchAt re bef _); try discriminate.
  - reflexivity.
  - cbn [andb]. intros H. now rewrite IH.
Qed.

Lemma replace_quiet (re : RegExp) (tpl s : JSString) :
  global re = true -> quietAll re [] s = true -> replace s re tpl = s.
Proof.
  intros Hg Hq. unfold replace. rewrite Hg. now apply replaceAll_quiet.
Qed.

Lemma applyRules_quiet (rules : list (RegExp * JSString)) (html : JSString) :
  Forall (fun c => global (fst c) = true /\ quietAll (fst c) [] html = true)
    rules ->
  applyRules rules html = html.
Proof.
  induction rules as [| c rules IH]; intros H; [reflexivity |].
  inversion H as [| c' rules' [Hg Hq] Hrest]; subst.
  unfold applyRules; cbn [fold_left]. rewrite (replace_quiet _ _ _ Hg Hq).
  now apply IH.
Qed.

Lemma count_app (c : CodeUnit) (a b : JSString) :
  count c (a ++ b) = count c a + count c b.
Proof. induction a as [| x a IH]; cbn [count app]; [reflexivity | lia]. Qed.

Lemma count_lacks (c : CodeUnit) (v : JSString) :
  lacks c v = true -> count c v = 0.
Proof.
  unfold lacks. induction v as [| x v IH]; cbn [forallb count]; [reflexivity |].
  intros H; apply andb_prop in H as [Hx Hv].
  destruct (N.eqb x c); [discriminate |]. now rewrite IH.
Qed.

(** A pattern that needs [n] occurrences of [c] finds nothing in a text
    that has fewer. *)
Lemma quietAll_count (re : RegExp) (c : CodeUnit) (n : nat) :
  (forall bef v, matchAt re bef v <> None -> n <= count c v) ->
  forall v bef, count c v < n -> quietAll re bef v = true.
Proof.
  intros Hneed. induction v as [| x v IH]; intros bef Hc; cbn [quietAll];
    apply andb_true_intro; split; try reflexivity.
  - unfold quietAt. destruct (matchAt re bef []) eqn:E; [| reflexivity].
    assert (Hn : matchAt re bef [] <> None) by congruence.
    apply Hneed in Hn. lia.
  - unfold quietAt. destruct (matchAt re bef (x :: v)) eqn:E; [| reflexivity].
    assert (Hn : matchAt re bef (x :: v) <> None) by congruence.
    apply Hneed in Hn. lia.
  - apply IH. cbn [count] in Hc. lia.
Qed.

Lemma matchAt_lit_prefix (re : RegExp) (l : JSString) (r : regex)
    (bef v : JSString) :
  source re = Seq (lit l) r ->
  matchAt re bef v <> None -> prefixb l v = true.
Proof.
  intros Hsrc. unfold matchAt. rewrite Hsrc. cbn [matcher].
  rewrite matcher_lit. cbn [after].
  destruct (prefixb l v); [reflexivity | congruence].
Qed.

Lemma count_prefix (c : CodeUnit) (l v : JSString) :
  prefixb l v = true -> count c l <= count c v.
Proof.
  intros H. apply prefixb_true in H. rewrite H, count_app. lia.
Qed.

Lemma quietAll_lit (re : RegExp) (l : JSString) (r : regex) (c : CodeUnit)
    (v : JSString) :
  source re = Seq (lit l) r ->
  count c v < count c l -> quietAll re [] v = true.
Proof.
  intros Hsrc. apply quietAll_count. intros bef w Hm.
  apply count_prefix. exact (matchAt_lit_prefix re l r bef w Hsrc Hm).
Qed.

Lemma quietAll_marker (mk : JSString) (c : CodeUnit) (v : JSString) :
  mk <> [] ->
  count c v < 2 * count c mk -> quietAll (markerPattern mk) [] v = true.
Proof.
  intros Hne. apply quietAll_count. intros bef w Hm.
  destruct (matchAt (markerPattern mk) bef w) as [[n caps] |] eqn:E;
    [| congruence].
  apply (matchAt_marker_Some mk) in E as (x & r & -> & _).
  rewrite !count_app. lia.
Qed.

(** A line-anchored pattern finds nothing away from the line starts. *)
Lemma matchAt_bol_inside (re : RegExp) (r : regex) (x : CodeUnit)
    (bef v : JSString) :
  source re = Seq Bol r -> dot x = true -> matchAt re (x :: bef) v = None.
Proof.
  intros Hsrc Hx. unfold matchAt. rewrite Hsrc.
  cbn [matcher atLineStart before]. unfold dot in Hx.
  destruct (isLineTerminator x); [discriminate |].
  now rewrite andb_false_r.
Qed.

Lemma quietAll_bol_inside (re : RegExp) (r : regex) :
  source re = Seq Bol r ->
  forall v x bef,
    dot x = true -> forallb dot v = true -> quietAll re (x :: bef) v = true.
Proof.
  intros Hsrc. induction v as [| y v IH]; intros x bef Hx Hv;
    cbn [quietAll]; unfold quietAt;
    rewrite (matchAt_bol_inside re r x bef _ Hsrc Hx); [reflexivity |].
  cbn [forallb] in Hv. apply andb_prop in Hv as [Hy Hv]. now apply IH.
Qed.

Lemma quietAll_bol (re : RegExp) (r : regex) (v : JSString) :
  source re = Seq Bol r ->
  quietAt re [] v = true -> forallb dot v = true -> quietAll re [] v = true.
Proof.
  intros Hsrc H0 Hv. destruct v as [| x v]; cbn [quietAll]; rewrite H0;
    [reflexivity |].
  cbn [forallb] in Hv. apply andb_prop in Hv as [Hx Hv].
  now apply (quietAll_bol_inside re r Hsrc).
Qed.

Lemma quietAll_mid (re : RegExp) (G : CodeUnit -> bool) :
  (forall bef x v, G x = true -> quietAt re bef (x :: v) = true) ->
  forall t bef B,
    forallb G t = true ->
    quietAll re (rev t ++ bef) B = true -> quietAll re bef (t ++ B) = true.
Proof.
  intros HG. induction t as [| x t IH]; intros bef B Ht HB; [exact HB |].
  cbn [forallb] in Ht. apply andb_prop in Ht as [Hx Ht].
  cbn [app quietAll]. rewrite (HG bef x _ Hx). cbn [andb].
  apply IH; [exact Ht |]. cbn [rev] in HB. now rewrite <- app_assoc in HB.
Qed.

(** The newline rule, on any text. *)
Lemma replace_newline (s : JSString) :
  replace s newline (str "<br>") = lineBreaks s.
Proof.
  unfold replace; cbn [global newline regexp].
  generalize (@nil CodeUnit). induction s as [| x s IH]; intros bef.
  - reflexivity.
  - cbn [replaceAll lineBreaks flat_map]. unfold matchAt.
    cbn [matcher source multiline newline regexp after advance].
    destruct (N.eqb x LF) eqn:E.
    + cbn [after advance captures List.length].
      replace (S (List.length s) - List.length s) with 1 by lia.
      change (substitute (str "<br>") (firstn 1 (x :: s)) (groups (Chr LF)) [])
        with (str "<br>").
      now rewrite IH.
    + cbn [app]. now rewrite IH.
Qed.

(** ** The converter: a rule that takes the rest of a line *)

Lemma repeat_greedy_line
    (k : JSString -> JSString -> option MatchState) (res : MatchState) :
  forall t rest bef,
    forallb dot t = true ->
    match rest with [] => True | c :: _ => dot c = false end ->
    k (rev t ++ bef) rest = Some res ->
    repeat dot 0 greedy k bef (t ++ rest) = Some res.
Proof.
  induction t as [| x t IH]; intros rest bef Ht Hrest Hk.
  - cbn [app rev] in *. destruct rest as [| c rest]; cbn [repeat greedy].
    + exact Hk.
    + now rewrite Hrest.
  - cbn [forallb] in Ht. apply andb_prop in Ht as [Hx Ht].
    cbn [app repeat greedy]. rewrite Hx.
    change (repeat dot 0 true) with (repeat dot 0 greedy).
    rewrite (IH rest (x :: bef) Ht Hrest); [reflexivity |].
    cbn [rev] in Hk. now rewrite <- app_assoc in Hk.
Qed.

Lemma matchAt_lineRule (l t rest bef : JSString) :
  match bef with [] => True | c :: _ => dot c = false end ->
  forallb dot t = true ->
  match rest with [] => True | c :: _ => dot c = false end ->
  matchAt (lineRule l) bef ((l ++ t) ++ rest) =
  Some (List.length (l ++ t), [(1, t)]).
Proof.
  intros Hbef Ht Hrest. unfold matchAt, lineRule.
  cbn [source multiline regexp seq fold_right matcher].
  assert (Hstart : atLineStart true
                     {| before := bef; after := (l ++ t) ++ rest;
                        captures := [] |} = true).
  { unfold atLineStart; cbn [before]. destruct bef as [| c bef];
      [reflexivity |]. unfold dot in Hbef.
    now destruct (isLineTerminator c). }
  rewrite Hstart, matcher_lit. cbn [after before captures].
  rewrite <- app_assoc, prefixb_app, skipn_app, Nat.sub_diag, skipn_all.
  cbn [skipn app]. unfold restOfLine.
  cbn [seq fold_right matcher after before captures].
  rewrite (repeat_greedy_line _
             {| before := rev t ++ rev l ++ bef; after := rest;
                captures := [(1, t)] |} t rest (rev l ++ bef) Ht Hrest).
  - cbn [after captures]. f_equal. rewrite !length_app.
    f_equal. unfold JSString, CodeUnit in *. lia.
  - unfold atLineEnd; cbn [after].
    assert (Hend : match rest with
                   | [] => true
                   | c :: _ => true && isLineTerminator c
                   end = true).
    { destruct rest as [| c rest]; [reflexivity |]. unfold dot in Hrest.
      now destruct (isLineTerminator c). }
    rewrite Hend. cbn [after before captures List.length].
    rewrite length_app, Nat.add_sub, firstn_app, Nat.sub_diag, firstn_all.
    cbn [firstn]. rewrite app_nil_r. reflexivity.
Qed.

Lemma matchAt_lineRule_nil (l bef : JSString) :
  l <> [] -> matchAt (lineRule l) bef [] = None.
Proof.
  intros Hl. unfold matchAt, lineRule.
  cbn [source multiline regexp seq fold_right matcher].
  destruct (atLineStart _ _); [| reflexivity].
  rewrite matcher_lit. cbn [after]. destruct l; [congruence | reflexivity].
Qed.

Lemma replace_lineRule (l tpl t : JSString) :
  l <> [] -> forallb dot t = true ->
  replace (l ++ t) (lineRule l) tpl = substitute tpl (l ++ t) 1 [(1, t)].
Proof.
  intros Hl Ht. unfold replace. cbn [global lineRule regexp].
  rewrite <- (app_nil_r (l ++ t)) at 1.
  rewrite (replaceAll_matched _ tpl (l ++ t) [] [] [(1, t)]).
  - cbn [replaceAll]. rewrite (matchAt_lineRule_nil l _ Hl), app_nil_r.
    f_equal. cbn [source lineRule regexp seq fold_right groups restOfLine].
    now rewrite groups_lit.
  - destruct l; [congruence | discriminate].
  - now apply matchAt_lineRule.
Qed.

(** ** The converter on plain text *)

Lemma plainChar_neq (x : CodeUnit) :
  plainChar x = true ->
  dot x = true /\ N.eqb x 96 = false /\ N.eqb x 42 = false /\
  N.eqb x 126 = false /\ N.eqb x 91 = false /\ N.eqb x 60 = false.
Proof.
  unfold plainChar, oneOf. change (str "`*~[<") with [96; 42; 126; 91; 60]%N.
  cbn [existsb]. intros H. apply andb_prop in H as [Hd H].
  destruct (N.eqb x 96), (N.eqb x 42), (N.eqb x 126), (N.eqb x 91),
    (N.eqb x 60); try discriminate.
  auto 10.
Qed.

Lemma plain_dot (t : JSString) :
  forallb plainChar t = true -> forallb dot t = true.
Proof.
  induction t as [| x t IH]; cbn [forallb]; [reflexivity |].
  intros H; apply andb_prop in H as [Hx Ht].
  destruct (plainChar_neq x Hx) as [-> _]. now apply IH.
Qed.

Lemma plain_lacks (t : JSString) :
  forallb plainChar t = true ->
  lacks 96%N t = true /\ lacks 42%N t = true /\ lacks 126%N t = true /\
  lacks 91%N t = true /\ lacks 60%N t = true.
Proof.
  unfold lacks. induction t as [| x t IH]; cbn [forallb]; [auto 10 |].
  intros H; apply andb_prop in H as [Hx Ht].
  destruct (plainChar_neq x Hx) as (_ & -> & -> & -> & -> & ->).
  now apply IH.
Qed.

Lemma dot_lacks_LF (t : JSString) :
  forallb dot t = true -> lacks LF t = true.
Proof.
  unfold lacks. induction t as [| x t IH]; cbn [forallb]; [reflexivity |].
  intros H; apply andb_prop in H as [Hx Ht]. rewrite (IH Ht), andb_true_r.
  unfold dot, isLineTerminator in Hx.
  destruct (N.eqb x LF) eqn:E; [| reflexivity].
  unfold LF in E. now rewrite E in Hx.
Qed.

Lemma lacks_app (c : CodeUnit) (a b : JSString) :
  lacks c (a ++ b) = lacks c a && lacks c b.
Proof. apply forallb_app. Qed.

Lemma lineBreaks_id (s : JSString) : lacks LF s = true -> lineBreaks s = s.
Proof.
  unfold lacks, lineBreaks. induction s as [| x s IH]; cbn [forallb flat_map];
    [reflexivity |].
  intros H; apply andb_prop in H as [Hx Hs].
  destruct (N.eqb x LF); [discriminate |]. cbn [app]. now rewrite IH.
Qed.

Lemma applyRules_cons (re : RegExp) (tpl : JSString)
    (rest : list (RegExp * JSString)) (html : JSString) :
  applyRules ((re, tpl) :: rest) html = applyRules rest (replace html re tpl).
Proof. reflexivity. Qed.

Lemma plain_quiet_listBoundary (bef : JSString) (x : CodeUnit) (v : JSString) :
  plainChar x = true -> quietAt listBoundary bef (x :: v) = true.
Proof.
  intros Hx. unfold quietAt.
  destruct (matchAt listBoundary bef (x :: v)) eqn:E; [| reflexivity].
  assert (Hm : matchAt listBoundary bef (x :: v) <> None) by congruence.
  apply (matchAt_lit_prefix listBoundary (str "</") _ bef (x :: v) eq_refl)
    in Hm.
  change (str "</") with [60; 47]%N in Hm. cbn [prefixb] in Hm.
  destruct (plainChar_neq x Hx) as (_ & _ & _ & _ & _ & H60).
  rewrite N.eqb_sym, H60 in Hm. discriminate.
Qed.

Ltac count_goal :=
  rewrite ?count_app;
  repeat match goal with
         | H : lacks ?c ?t = true |- context [count ?c ?t] =>
             rewrite (count_lacks c t H)
         end;
  apply Nat.ltb_lt; vm_compute; reflexivity.

Ltac dot_goal :=
  rewrite ?forallb_app;
  repeat match goal with
         | H : forallb dot ?t = true |- context [forallb dot ?t] => rewrite H
         end;
  vm_compute; reflexivity.

Ltac lacks_goal :=
  rewrite ?lacks_app;
  repeat match goal with
         | H : lacks ?c ?t = true |- context [lacks ?c ?t] => rewrite H
         end;
  vm_compute; reflexivity.

(** The rule finds nothing: by its line anchor, or because the text has too
    few of a character the pattern needs. *)
Ltac quiet_rule :=
  first
    [ match goal with
      | |- quietAll ?re _ ?v = true => refine (quietAll_bol re _ v eq_refl _ _)
      end;
      [vm_compute; reflexivity | dot_goal]
    | apply (quietAll_marker (str "**") 42%N); [discriminate | count_goal]
    | apply (quietAll_marker (str "*") 42%N); [discriminate | count_goal]
    | apply (quietAll_marker (str "`") 96%N); [discriminate | count_goal]
    | apply (quietAll_marker (str "~~") 126%N); [discriminate | count_goal]
    | match goal with
      | |- quietAll ?re _ ?v = true =>
          refine (quietAll_lit re (str "```") _ 96%N v eq_refl _)
      end; count_goal
    | match goal with
      | |- quietAll ?re _ ?v = true =>
          refine (quietAll_lit re (str "[") _ 91%N v eq_refl _)
      end; count_goal
    | match goal with
      | |- quietAll ?re _ ?v = true =>
          refine (quietAll_lit re (str "![") _ 91%N v eq_refl _)
      end; count_goal
    | match goal with
      | |- quietAll ?re _ ?v = true =>
          refine (quietAll_lit re (str "</") _ 60%N v eq_refl _)
      end; count_goal ].

Ltac quiet_rules :=
  repeat (apply Forall_cons; [split; [reflexivity | cbn [fst]; quiet_rule] |]);
  apply Forall_nil.

(** The list boundary pattern finds nothing in a text made of tags around
    plain text: position by position. *)
Ltac quiet_walk Hplain :=
  cbn [str map list_ascii_of_string app];
  cbn [quietAll];
  repeat (apply andb_true_intro; split);
  first
    [ vm_compute; reflexivity
    | apply (quietAll_mid _ plainChar plain_quiet_listBoundary);
      [exact Hplain |];
      cbn [quietAll];
      repeat (apply andb_true_intro; split);
      vm_compute; reflexivity ].

Ltac plain_facts t Hplain :=
  let Hdot := fresh "Hdot" in
  pose proof (plain_dot t Hplain) as Hdot;
  let Hlf := fresh "Hlf" in
  pose proof (dot_lacks_LF t Hdot) as Hlf;
  destruct (plain_lacks t Hplain) as (? & ? & ? & ? & ?).

Lemma quietAt_bol_lit (l : JSString) (r : regex) (m : bool)
    (bef v : JSString) :
  prefixb l v = false ->
  quietAt (regexp (Seq Bol (Seq (lit l) r)) true m) bef v = true.
Proof.
  intros H. unfold quietAt, matchAt. cbn [source multiline regexp matcher].
  destruct (atLineStart _ _); [| reflexivity].
  rewrite matcher_lit. cbn [after]. now rewrite H.
Qed.

Lemma quietAt_bol_digit (r : regex) (m : bool) (bef v : JSString) :
  match v with [] => True | x :: _ => digit x = false end ->
  quietAt (regexp (Seq Bol (Seq (Rep digit 1 greedy) r)) true m) bef v = true.
Proof.
  intros H. unfold quietAt, matchAt. cbn [source multiline regexp matcher].
  destruct (atLineStart _ _); [| reflexivity].
  cbn [matcher before after captures]. destruct v as [| x v];
    cbn [RegExp.repeat]; [reflexivity |]. now rewrite H.
Qed.

(** A single line of plain text that does not begin with a character that
    opens a block rule (a hash, a greater-than sign, a hyphen or a digit) is
    left as it is. *)
Theorem convert_plain_line :
  forall t : JSString,
    forallb plainChar t = true ->
    match t with
    | [] => True
    | x :: _ => oneOf (str "#>-") x = false /\ digit x = false
    end ->
    convertToHTML t = t.
Proof.
  intros t Hplain Hfirst. plain_facts t Hplain.
  rewrite convertToHTML_steps.
  assert (Hx : forall c l, In c [35; 62; 45]%N -> prefixb (c :: l) t = false).
  { intros c l Hc. destruct t as [| x t]; [reflexivity |].
    destruct Hfirst as [Ho _]. unfold oneOf in Ho.
    change (str "#>-") with [35; 62; 45]%N in Ho. cbn [existsb] in Ho.
    cbn [prefixb]. rewrite (N.eqb_sym c x).
    destruct (N.eqb x 35) eqn:E1, (N.eqb x 62) eqn:E2, (N.eqb x 45) eqn:E3;
      try discriminate.
    cbn [In] in Hc. destruct Hc as [<- | [<- | [<- | []]]];
      now rewrite ?E1, ?E2, ?E3. }
  assert (Hd : match t with [] => True | x :: _ => digit x = false end).
  { destruct t; [exact I | apply Hfirst]. }
  rewrite (applyRules_quiet conversions).
  - rewrite (replace_quiet listBoundary); [| reflexivity | quiet_rule].
    rewrite replace_newline. now apply lineBreaks_id.
  - unfold conversions.
    repeat (apply Forall_cons;
            [split; [reflexivity |]; cbn [fst];
             first
               [ quiet_rule
               | match goal with
                 | |- quietAll ?re _ _ = true =>
                     refine (quietAll_bol re _ t eq_refl _ Hdot)
                 end;
                 first
                   [ apply quietAt_bol_digit; exact Hd
                   | apply quietAt_bol_lit; apply Hx; cbn [In]; auto ] ] |]).
    apply Forall_nil.
Qed.

(** ** The converter on one marked line *)

Ltac before_rule k :=
  rewrite convertToHTML_steps;
  change conversions with (firstn k conversions ++ skipn k conversions);
  rewrite applyRules_app;
  rewrite (applyRules_quiet (firstn k conversions));
  [| cbn [firstn conversions]; quiet_rules];
  cbn [skipn conversions]; try unfold conversions;
  rewrite applyRules_cons.

Ltac after_rule Hplain :=
  rewrite applyRules_quiet; [| quiet_rules];
  rewrite (replace_quiet listBoundary);
  [| reflexivity | first [quiet_rule | quiet_walk Hplain]];
  rewrite replace_newline; apply lineBreaks_id; lacks_goal.

Ltac line_case k l out Hplain :=
  before_rule k;
  match goal with
  | Hd : forallb dot ?t = true |- _ =>
      rewrite (replace_lineRule l _ t); [| discriminate | exact Hd]
  end;
  match goal with
  | |- context [substitute ?tpl ?m 1 ?caps] =>
      change (substitute tpl m 1 caps) with out
  end;
  after_rule Hplain.

(** A heading, blockquote or bullet marker followed by plain text up to the
    end of the input is rendered as the matching element around that text:
    [<h3>], [<h2>], [<h1>], [<blockquote>], or a one-item [<ul>]. *)
Theorem convert_marked_line :
  forall (mk open close t : JSString),
    In (mk, open, close)
       [ (str "### ", str "<h3>", str "</h3>");
         (str "## ", str "<h2>", str "</h2>");
         (str "# ", str "<h1>", str "</h1>");
         (str "> ", str "<blockquote>", str "</blockquote>");
         (str "- ", str "<ul><li>", str "</li></ul>") ] ->
    forallb plainChar t = true ->
    convertToHTML (mk ++ t) = open ++ t ++ close.
Proof.
  intros mk open close t Hin Hplain. plain_facts t Hplain.
  cbn [In] in Hin.
  destruct Hin as [E | [E | [E | [E | [E | []]]]]]; injection E as <- <- <-.
  - line_case 1 (str "### ") (str "<h3>" ++ t ++ str "</h3>") Hplain.
  - line_case 2 (str "## ") (str "<h2>" ++ t ++ str "</h2>") Hplain.
  - line_case 3 (str "# ") (str "<h1>" ++ t ++ str "</h1>") Hplain.
  - line_case 4 (str "> ")
      (str "<blockquote>" ++ t ++ str "</blockquote>") Hplain.
  - line_case 6 (str "- ") (str "<ul><li>" ++ t ++ str "</li></ul>") Hplain.
Qed.

Lemma convert_marked_line_witness :
  convertToHTML (str "## " ++ str "Release notes") =
  str "<h2>" ++ str "Release notes" ++ str "</h2>".
Proof.
  apply (convert_marked_line (str "## ") (str "<h2>") (str "</h2>")
           (str "Release notes")).
  - right; left; reflexivity.
  - reflexivity.
Defined.

Lemma convert_plain_line_witness :
  convertToHTML (str "see 3 > 2 - 1, #4!") = str "see 3 > 2 - 1, #4!".
Proof.
  apply (convert_plain_line (str "see 3 > 2 - 1, #4!")).
  - reflexivity.
  - split; reflexivity.
Defined.

(** ** Quantifiers that run to a known place *)

Lemma repeat_greedy_class (p : CodeUnit -> bool)
    (k : JSString -> JSString -> option MatchState) (res : MatchState) :
  forall t min rest bef,
    forallb p t = true -> min <= List.length t ->
    match rest with [] => True | c :: _ => p c = false end ->
    k (rev t ++ bef) rest = Some res ->
    repeat p min greedy k bef (t ++ rest) = Some res.
Proof.
  induction t as [| x t IH]; intros min rest bef Ht Hmin Hrest Hk.
  - cbn [List.length] in Hmin. assert (min = 0) by lia. subst min.
    cbn [app rev] in *. destruct rest as [| c rest]; cbn [repeat greedy].
    + exact Hk.
    + now rewrite Hrest.
  - cbn [forallb] in Ht. apply andb_prop in Ht as [Hx Ht].
    assert (Hk' : k (rev t ++ x :: bef) rest = Some res).
    { cbn [rev] in Hk. now rewrite <- app_assoc in Hk. }
    destruct min as [| min]; cbn [app repeat greedy]; rewrite Hx.
    + change (repeat p 0 true) with (repeat p 0 greedy).
      now rewrite (IH 0 rest (x :: bef) Ht (Nat.le_0_l _) Hrest Hk').
    + change (repeat p min true) with (repeat p min greedy).
      apply (IH min rest (x :: bef) Ht); auto. cbn [List.length] in Hmin. lia.
Qed.

Lemma repeat_lazy_first (p : CodeUnit -> bool)
    (k : JSString -> JSString -> option MatchState) (res : MatchState) :
  forall t rest bef,
    forallb p t = true ->
    (forall t1 x t2, t = t1 ++ x :: t2 ->
                     k (rev t1 ++ bef) (x :: t2 ++ rest) = None) ->
    k (rev t ++ bef) rest = Some res ->
    repeat p 0 lazy k bef (t ++ rest) = Some res.
Proof.
  induction t as [| x t IH]; intros rest bef Ht Hno Hk.
  - cbn [app rev] in *. destruct rest; cbn [repeat lazy]; now rewrite Hk.
  - cbn [forallb] in Ht. apply andb_prop in Ht as [Hx Ht].
    pose proof (Hno [] x t eq_refl) as H0. cbn [rev app] in H0.
    cbn [app repeat lazy]. rewrite H0, Hx.
    change (repeat p 0 false) with (repeat p 0 lazy).
    apply IH; [exact Ht | |].
    + intros t1 y t2 ->. specialize (Hno (x :: t1) y t2 eq_refl).
      cbn [rev] in Hno. now rewrite <- app_assoc in Hno.
    + cbn [rev] in Hk. now rewrite <- app_assoc in Hk.
Qed.

Lemma matcher_rest_of_line (s : MatchState) (t rest : JSString) :
  after s = t ++ rest ->
  forallb dot t = true ->
  match rest with [] => True | c :: _ => dot c = false end ->
  matcher true (Seq restOfLine Empty) Some s =
  Some {| before := rev t ++ before s; after := rest;
          captures := (1, t) :: captures s |}.
Proof.
  intros Ha Ht Hrest. unfold restOfLine.
  cbn [seq fold_right matcher]. rewrite Ha.
  rewrite (repeat_greedy_class dot _
             {| before := rev t ++ before s; after := rest;
                captures := (1, t) :: captures s |} t 0 rest (before s) Ht
             (Nat.le_0_l _) Hrest); [reflexivity |].
  unfold atLineEnd; cbn [after].
  assert (Hend : match rest with
                 | [] => true
                 | c :: _ => true && isLineTerminator c
                 end = true).
  { destruct rest as [| c rest]; [reflexivity |]. unfold dot in Hrest.
    now destruct (isLineTerminator c). }
  rewrite Hend. cbn [after before captures].
  rewrite length_app, Nat.add_sub, firstn_app, Nat.sub_diag, firstn_all.
  cbn [firstn]. now rewrite app_nil_r.
Qed.

(** ** The converter on a numbered line *)

Lemma named_rules :
  map fst conversions =
  [ fenceRule; lineRule (str "### "); lineRule (str "## ");
    lineRule (str "# "); lineRule (str "> "); numberedRule;
    lineRule (str "- ");
    regexp (seq [Bol; lit (str "---"); Grp 1 (Cls any)]) true true;
    markerPattern (str "**"); markerPattern (str "*");
    markerPattern (str "`"); markerPattern (str "~~");
    linkRule; imageRule ].
Proof. reflexivity. Qed.

Lemma matcher_Seq (m : bool) (a b : regex) (k : Continuation) (s : MatchState) :
  matcher m (Seq a b) k s = matcher m a (matcher m b k) s.
Proof. reflexivity. Qed.

Lemma matcher_Rep (m : bool) (p : CodeUnit -> bool) (n : nat) (g : bool)
    (k : Continuation) (s : MatchState) :
  matcher m (Rep p n g) k s =
  repeat p n g
    (fun b a => k {| before := b; after := a; captures := captures s |})
    (before s) (after s).
Proof. reflexivity. Qed.

Lemma matcher_Grp (m : bool) (n : nat) (r : regex) (k : Continuation)
    (s : MatchState) :
  matcher m (Grp n r) k s =
  matcher m r
    (fun s' =>
       k {| before := before s'; after := after s';
            captures :=
              (n, firstn (List.length (after s) - List.length (after s'))
                    (after s)) :: captures s' |}) s.
Proof. reflexivity. Qed.

Lemma digit_facts (x : CodeUnit) :
  digit x = true ->
  plainChar x = true /\ N.eqb 35 x = false /\ N.eqb 62 x = false /\
  N.eqb 45 x = false.
Proof.
  unfold digit. intros H. apply andb_prop in H as [H1 H2].
  apply N.leb_le in H1, H2.
  assert (Hne : forall c : N, (c < 48 \/ 57 < c)%N -> N.eqb x c = false)
    by (intros c Hc; apply N.eqb_neq; lia).
  unfold plainChar, dot, isLineTerminator, oneOf.
  change (str "`*~[<") with [96; 42; 126; 91; 60]%N. cbn [existsb].
  rewrite !(N.eqb_sym _ x), !Hne by lia. auto.
Qed.

Lemma digits_plain (d : JSString) :
  forallb digit d = true -> forallb plainChar d = true.
Proof.
  induction d as [| x d IH]; cbn [forallb]; [reflexivity |].
  intros H; apply andb_prop in H as [Hx Hd].
  destruct (digit_facts x Hx) as [-> _]. now apply IH.
Qed.

Lemma matchAt_numbered (d t : JSString) :
  d <> [] -> forallb digit d = true -> forallb dot t = true ->
  matchAt numberedRule [] ((d ++ str ". " ++ t) ++ []) =
  Some (List.length (d ++ str ". " ++ t), [(1, t)]).
Proof.
  intros Hd Hdig Ht. unfold matchAt.
  change (source numberedRule)
    with (Seq Bol (Seq (Rep digit 1 greedy)
                     (Seq (lit (str ". ")) (Seq restOfLine Empty)))).
  rewrite matcher_Seq. cbn [matcher atLineStart before].
  rewrite app_nil_r.
  rewrite (repeat_greedy_class digit _
             {| before := rev t ++ rev (str ". ") ++ rev d ++ [];
                after := []; captures := [(1, t)] |}
             d 1 (str ". " ++ t) [] Hdig).
  - cbn [after captures List.length]. now rewrite Nat.sub_0_r.
  - destruct d; [congruence | cbn [List.length]; lia].
  - reflexivity.
  - rewrite matcher_lit. cbn [after before captures].
    rewrite prefixb_app, skipn_app, Nat.sub_diag, skipn_all. cbn [skipn app].
    match goal with
    | |- matcher _ _ _ ?s = ?r =>
        change (matcher true (Seq restOfLine Empty) Some s = r)
    end.
    rewrite (matcher_rest_of_line _ t []); [reflexivity | | exact Ht | exact I].
    cbn [after]. now rewrite app_nil_r.
Qed.

Lemma replace_numbered (d t tpl : JSString) :
  d <> [] -> forallb digit d = true -> forallb dot t = true ->
  replace (d ++ str ". " ++ t) numberedRule tpl =
  substitute tpl (d ++ str ". " ++ t) 1 [(1, t)].
Proof.
  intros Hd Hdig Ht. unfold replace. cbn [global numberedRule regexp].
  rewrite <- (app_nil_r (d ++ str ". " ++ t)) at 1.
  rewrite (replaceAll_matched _ tpl _ [] [] [(1, t)]).
  - cbn [replaceAll].
    assert (Hnil : forall bef, matchAt numberedRule bef [] = None).
    { intros bef. unfold matchAt.
      cbn [source multiline numberedRule regexp seq fold_right matcher].
      destruct (atLineStart _ _); reflexivity. }
    rewrite Hnil. now rewrite app_nil_r.
  - destruct d; [congruence | discriminate].
  - now apply matchAt_numbered.
Qed.

(** A numbered line, a non-empty run of digits followed by a period, a
    space and plain text, is rendered as a one-item [<ol>]; the number itself
    is not part of the output. *)
Theorem convert_numbered_line :
  forall d t : JSString,
    d <> [] -> forallb digit d = true -> forallb plainChar t = true ->
    convertToHTML (d ++ str ". " ++ t) = str "<ol><li>" ++ t ++ str "</li></ol>".
Proof.
  intros d t Hd Hdig Hplain. plain_facts t Hplain.
  pose proof (digits_plain d Hdig) as Hdplain. plain_facts d Hdplain.
  assert (Hx : forall c l, In c [35; 62; 45]%N ->
                           prefixb (c :: l) (d ++ str ". " ++ t) = false).
  { intros c l Hc. destruct d as [| x d']; [congruence |].
    cbn [forallb] in Hdig. apply andb_prop in Hdig as [Hxd _].
    destruct (digit_facts x Hxd) as (_ & E1 & E2 & E3).
    cbn [app prefixb In] in *.
    destruct Hc as [<- | [<- | [<- | []]]]; now rewrite ?E1, ?E2, ?E3. }
  rewrite convertToHTML_steps.
  change conversions with (firstn 5 conversions ++ skipn 5 conversions).
  rewrite applyRules_app.
  rewrite (applyRules_quiet (firstn 5 conversions)).
  2:{ cbn [firstn conversions].
      repeat (apply Forall_cons;
              [split; [reflexivity |]; cbn [fst];
               first
                 [ quiet_rule
                 | match goal with
                   | |- quietAll ?re _ ?v = true =>
                       refine (quietAll_bol re _ v eq_refl _ _)
                   end;
                   [apply quietAt_bol_lit; apply Hx; cbn [In]; auto
                   | dot_goal] ] |]).
      apply Forall_nil. }
  cbn [skipn conversions]. rewrite applyRules_cons.
  rewrite (replace_numbered d t _ Hd Hdig)
    by (match goal with H : forallb dot t = true |- _ => exact H end).
  change (substitute _ _ 1 [(1, t)]) with (str "<ol><li>" ++ t ++ str "</li></ol>").
  after_rule Hplain.
Qed.

Lemma convert_numbered_line_witness :
  convertToHTML (str "12" ++ str ". " ++ str "twelfth item") =
  str "<ol><li>" ++ str "twelfth item" ++ str "</li></ol>".
Proof.
  apply (convert_numbered_line (str "12") (str "twelfth item")).
  - discriminate.
  - reflexivity.
  - reflexivity.
Defined.

(** ** A lazy capture up to a literal *)

Lemma lacks_head (c x : CodeUnit) (t1 t2 l v : JSString) (t : JSString) :
  lacks c t = true -> t = t1 ++ x :: t2 -> prefixb (c :: l) (x :: v) = false.
Proof.
  intros Hl ->. unfold lacks in Hl. rewrite forallb_app in Hl.
  apply andb_prop in Hl as [_ Hl]. cbn [forallb] in Hl.
  apply andb_prop in Hl as [Hx _]. cbn [prefixb]. rewrite (N.eqb_sym c x).
  destruct (N.eqb x c); [discriminate | reflexivity].
Qed.

(** A lazy capture group over a class, followed by a literal whose first
    character does not occur in [t], captures exactly [t] when [t] is made
    of characters of the class and the literal follows it. *)
Lemma matcher_lazy_group (m : bool) (p : CodeUnit -> bool) (n : nat)
    (c : CodeUnit) (l' : JSString) (r : regex) (k : Continuation)
    (s : MatchState) (t rest : JSString) (res : MatchState) :
  after s = t ++ (c :: l') ++ rest ->
  forallb p t = true -> lacks c t = true ->
  matcher m r k
    {| before := rev (c :: l') ++ rev t ++ before s; after := rest;
       captures := (n, t) :: captures s |} = Some res ->
  matcher m (Seq (Grp n (Rep p 0 lazy)) (Seq (lit (c :: l')) r)) k s = Some res.
Proof.
  intros Ha Ht Hl Hk.
  rewrite matcher_Seq, matcher_Grp, matcher_Rep, Ha.
  apply repeat_lazy_first; [exact Ht | |].
  - intros t1 x t2 E. rewrite matcher_Seq, matcher_lit.
    cbn [after]. now rewrite (lacks_head c x t1 t2 l' _ t Hl E).
  - rewrite matcher_Seq, matcher_lit. cbn [after before captures].
    rewrite prefixb_app, skipn_app, Nat.sub_diag, skipn_all.
    cbn [skipn app]. rewrite <- Hk. do 2 f_equal.
    rewrite (length_app t), Nat.add_sub, firstn_app, Nat.sub_diag, firstn_all.
    cbn [firstn]. now rewrite app_nil_r.
Qed.

Lemma forallb_any (t : JSString) : forallb any t = true.
Proof.
  induction t as [| x t IH]; cbn [forallb]; [reflexivity |].
  rewrite IH. unfold any. now destruct (space x).
Qed.

Lemma matchAt_fence (bef t : JSString) :
  lacks 96%N t = true ->
  matchAt fenceRule bef ((str "```" ++ t ++ str "```") ++ []) =
  Some (List.length (str "```" ++ t ++ str "```"), [(1, t)]).
Proof.
  intros Hl. unfold matchAt.
  change (source fenceRule)
    with (Seq (lit (str "```"))
            (Seq (Grp 1 (Rep any 0 lazy)) (Seq (lit (str "```")) Empty))).
  rewrite matcher_Seq, matcher_lit. cbn [after before captures].
  rewrite app_nil_r, prefixb_app, skipn_app, Nat.sub_diag, skipn_all.
  cbn [skipn app].
  change (str "```") with (96%N :: str "``") at 3.
  rewrite (matcher_lazy_group (multiline fenceRule) any 1 96%N (str "``") Empty
             Some _ t []
             {| before := rev (str "```") ++ rev t ++ rev (str "```") ++ bef;
                after := []; captures := [(1, t)] |}).
  - cbn [after captures List.length]. now rewrite Nat.sub_0_r.
  - cbn [after]. now rewrite app_nil_r.
  - apply forallb_any.
  - exact Hl.
  - reflexivity.
Qed.

Lemma matchAt_link (bef t u : JSString) :
  forallb dot t = true -> lacks 93%N t = true ->
  forallb dot u = true -> lacks 41%N u = true ->
  matchAt linkRule bef ((str "[" ++ t ++ str "](" ++ u ++ str ")") ++ []) =
  Some (List.length (str "[" ++ t ++ str "](" ++ u ++ str ")"),
        [(2, u); (1, t)]).
Proof.
  intros Ht Hlt Hu Hlu. unfold matchAt.
  change (source linkRule)
    with (Seq (lit (str "["))
            (Seq (Grp 1 (Rep dot 0 lazy))
               (Seq (lit (str "]("))
                  (Seq (Grp 2 (Rep dot 0 lazy)) (Seq (lit (str ")")) Empty))))).
  rewrite matcher_Seq, matcher_lit. cbn [after before captures].
  rewrite app_nil_r, prefixb_app, skipn_app, Nat.sub_diag, skipn_all.
  cbn [skipn app].
  change (str "](") with (93%N :: str "(").
  rewrite (matcher_lazy_group (multiline linkRule) dot 1 93%N (str "(") _
             Some _ t (u ++ str ")")
             {| before := rev (str ")") ++ rev u ++ rev (93%N :: str "(") ++
                          rev t ++ rev (str "[") ++ bef;
                after := []; captures := [(2, u); (1, t)] |}).
  - cbn [after captures List.length]. now rewrite Nat.sub_0_r.
  - reflexivity.
  - exact Ht.
  - exact Hlt.
  - change (str ")") with (41%N :: []).
    rewrite (matcher_lazy_group (multiline linkRule) dot 2 41%N [] Empty
               Some _ u []
               {| before := rev [41%N] ++ rev u ++ rev (93%N :: str "(") ++
                            rev t ++ rev (str "[") ++ bef;
                  after := []; captures := [(2, u); (1, t)] |});
      [reflexivity | | exact Hu | exact Hlu | reflexivity].
    cbn [after]. reflexivity.
Qed.

Section SpanTemplate.

Variable mk : JSString.
Hypothesis mk_nonempty : mk <> [].

Lemma replace_span_tpl (tpl sel : JSString) :
  forallb dot sel = true ->
  forallb (fun x => negb (oneOf mk x)) sel = true ->
  replace (mk ++ sel ++ mk) (markerPattern mk) tpl =
  substitute tpl (mk ++ sel ++ mk) 1 [(1, sel)].
Proof.
  intros Hd Ha. rewrite replace_marker_global.
  assert (Hm : matchAt (markerPattern mk) [] ((mk ++ sel ++ mk) ++ []) =
               Some (List.length (mk ++ sel ++ mk), [(1, sel)])).
  { rewrite app_nil_r, matchAt_marker, prefixb_app.
    rewrite skipn_app, Nat.sub_diag, skipn_all.
    change ([] ++ skipn 0 (sel ++ mk)) with (sel ++ mk).
    rewrite <- (app_nil_r mk) at 2 4.
    rewrite (closing_absent mk mk_nonempty sel [] Hd Ha).
    rewrite firstn_app, Nat.sub_diag, firstn_all. simpl firstn.
    rewrite !app_nil_r, !length_app. do 2 f_equal. lia. }
  rewrite <- (app_nil_r (mk ++ sel ++ mk)) at 1.
  rewrite (replaceAll_matched _ tpl _ [] [] [(1, sel)]); [| | exact Hm].
  - cbn [replaceAll]. rewrite (matchAt_marker_nil mk mk_nonempty).
    rewrite app_nil_r. f_equal.
    unfold markerPattern. cbn [source regexp seq fold_right groups].
    now rewrite !groups_lit.
  - destruct mk; [congruence | discriminate].
Qed.

End SpanTemplate.

Lemma absent_of_lacks (c : CodeUnit) (mk t : JSString) :
  (forall x, oneOf mk x = true -> N.eqb x c = true) ->
  lacks c t = true -> forallb (fun x => negb (oneOf mk x)) t = true.
Proof.
  intros Hmk. unfold lacks. induction t as [| x t IH]; cbn [forallb];
    [reflexivity |].
  intros H; apply andb_prop in H as [Hx Ht]. rewrite (IH Ht), andb_true_r.
  destruct (oneOf mk x) eqn:E; [| reflexivity].
  apply Hmk in E. now rewrite E in Hx.
Qed.

(** ** The converter on one inline span, fenced block, link or image *)

Lemma replace_whole (re : RegExp) (tpl v : JSString)
    (caps : list (nat * JSString)) :
  global re = true -> v <> [] ->
  matchAt re [] (v ++ []) = Some (List.length v, caps) ->
  (forall bef, matchAt re bef [] = None) ->
  replace v re tpl = substitute tpl v (groups (source re)) caps.
Proof.
  intros Hg Hv Hm Hnil. unfold replace. rewrite Hg.
  rewrite <- (app_nil_r v) at 1.
  rewrite (replaceAll_matched re tpl v [] [] caps Hv Hm).
  cbn [replaceAll]. now rewrite Hnil, app_nil_r.
Qed.

Lemma replace_after_one (re : RegExp) (tpl v : JSString) (x : CodeUnit)
    (caps : list (nat * JSString)) :
  global re = true -> v <> [] ->
  matchAt re [] (x :: v) = None ->
  matchAt re [x] (v ++ []) = Some (List.length v, caps) ->
  (forall bef, matchAt re bef [] = None) ->
  replace (x :: v) re tpl = x :: substitute tpl v (groups (source re)) caps.
Proof.
  intros Hg Hv H0 Hm Hnil. unfold replace. rewrite Hg.
  cbn [replaceAll]. rewrite H0. f_equal.
  rewrite <- (app_nil_r v) at 1.
  rewrite (replaceAll_matched re tpl v [] [x] caps Hv Hm).
  cbn [replaceAll]. now rewrite Hnil, app_nil_r.
Qed.

Ltac walk_steps :=
  cbn [quietAll];
  repeat (apply andb_true_intro; split);
  first
    [ vm_compute; reflexivity
    | apply (quietAll_mid _ plainChar plain_quiet_listBoundary);
      [assumption | walk_steps] ].

Ltac after_rule_walk :=
  rewrite applyRules_quiet; [| quiet_rules];
  rewrite (replace_quiet listBoundary);
  [| reflexivity
   | first [quiet_rule
           | cbn [str map list_ascii_of_string app]; walk_steps]];
  rewrite replace_newline; apply lineBreaks_id; lacks_goal.

Ltac inline_case k mk out Hdot Habs :=
  before_rule k;
  rewrite (replace_span_tpl mk); [| discriminate | exact Hdot | exact Habs];
  match goal with
  | |- context [substitute ?tpl ?m 1 ?caps] =>
      change (substitute tpl m 1 caps) with out
  end;
  after_rule_walk.

(** An inline marker, plain text and the same marker again, as the whole
    input, are rendered as the matching element around that text:
    [<strong>], [<em>], [<code>] or [<del>]. *)
Theorem convert_inline_span :
  forall (mk open close t : JSString),
    In (mk, open, close)
       [ (str "**", str "<strong>", str "</strong>");
         (str "*", str "<em>", str "</em>");
         (str "`", str "<code>", str "</code>");
         (str "~~", str "<del>", str "</del>") ] ->
    forallb plainChar t = true ->
    convertToHTML (mk ++ t ++ mk) = open ++ t ++ close.
Proof.
  intros mk open close t Hin Hplain. plain_facts t Hplain.
  assert (Habs : forall c mk0,
             (forall x, oneOf mk0 x = true -> N.eqb x c = true) ->
             lacks c t = true ->
             forallb (fun x => negb (oneOf mk0 x)) t = true)
    by (intros c mk0; apply absent_of_lacks).
  assert (H42 : forall x, oneOf (str "**") x = true -> N.eqb x 42 = true).
  { intros x. unfold oneOf. change (str "**") with [42; 42]%N.
    cbn [existsb]. now destruct (N.eqb x 42). }
  assert (H42' : forall x, oneOf (str "*") x = true -> N.eqb x 42 = true).
  { intros x. unfold oneOf. change (str "*") with [42]%N.
    cbn [existsb]. now destruct (N.eqb x 42). }
  assert (H96 : forall x, oneOf (str "`") x = true -> N.eqb x 96 = true).
  { intros x. unfold oneOf. change (str "`") with [96]%N.
    cbn [existsb]. now destruct (N.eqb x 96). }
  assert (H126 : forall x, oneOf (str "~~") x = true -> N.eqb x 126 = true).
  { intros x. unfold oneOf. change (str "~~") with [126; 126]%N.
    cbn [existsb]. now destruct (N.eqb x 126). }
  cbn [In] in Hin.
  destruct Hin as [E | [E | [E | [E | []]]]]; injection E as <- <- <-.
  - pose proof (Habs _ _ H42 ltac:(assumption)) as Ha.
    inline_case 8 (str "**") (str "<strong>" ++ t ++ str "</strong>") Hdot Ha.
  - pose proof (Habs _ _ H42' ltac:(assumption)) as Ha.
    inline_case 9 (str "*") (str "<em>" ++ t ++ str "</em>") Hdot Ha.
  - pose proof (Habs _ _ H96 ltac:(assumption)) as Ha.
    inline_case 10 (str "`") (str "<code>" ++ t ++ str "</code>") Hdot Ha.
  - pose proof (Habs _ _ H126 ltac:(assumption)) as Ha.
    inline_case 11 (str "~~") (str "<del>" ++ t ++ str "</del>") Hdot Ha.
Qed.

Lemma convert_inline_span_witness :
  convertToHTML (str "~~" ++ str "old price" ++ str "~~") =
  str "<del>" ++ str "old price" ++ str "</del>".
Proof.
  apply (convert_inline_span (str "~~") (str "<del>") (str "</del>")
           (str "old price")).
  - do 3 right; left; reflexivity.
  - reflexivity.
Defined.

(** A fenced block of plain text, as the whole input, is rendered as a
    [<pre><code>] element around that text. *)
Theorem convert_fenced_span :
  forall t : JSString,
    forallb plainChar t = true ->
    convertToHTML (str "```" ++ t ++ str "```") =
    str "<pre><code>" ++ t ++ str "</code></pre>".
Proof.
  intros t Hplain. plain_facts t Hplain.
  before_rule 0.
  rewrite (replace_whole fenceRule _ _ [(1, t)]);
    [| reflexivity | discriminate | now apply matchAt_fence
     | intros bef; reflexivity].
  change (substitute _ _ _ [(1, t)])
    with (str "<pre><code>" ++ t ++ str "</code></pre>").
  after_rule_walk.
Qed.

Lemma convert_fenced_span_witness :
  convertToHTML (str "```" ++ str "x = y + 1" ++ str "```") =
  str "<pre><code>" ++ str "x = y + 1" ++ str "</code></pre>".
Proof.
  apply (convert_fenced_span (str "x = y + 1")). reflexivity.
Defined.

(** A link, as the whole input, whose text is plain and has no closing
    bracket and whose address is plain and has no closing parenthesis, is
    rendered as an anchor with that address and that text. *)
Theorem convert_link :
  forall t u : JSString,
    forallb plainChar t = true -> lacks 93%N t = true ->
    forallb plainChar u = true -> lacks 41%N u = true ->
    convertToHTML (str "[" ++ t ++ str "](" ++ u ++ str ")") =
    str "<a href=" ++ [DQ] ++ u ++ [DQ] ++ str ">" ++ t ++ str "</a>".
Proof.
  intros t u Ht Hlt Hu Hlu. plain_facts t Ht. plain_facts u Hu.
  before_rule 12.
  rewrite (replace_whole linkRule _ _ [(2, u); (1, t)]);
    [| reflexivity | discriminate | now apply matchAt_link
     | intros bef; reflexivity].
  change (substitute _ _ _ [(2, u); (1, t)])
    with (str "<a href=" ++ [DQ] ++ u ++ [DQ] ++ str ">" ++ t ++ str "</a>").
  after_rule_walk.
Qed.

Lemma convert_link_witness :
  convertToHTML (str "[" ++ str "click" ++ str "](" ++ str "http://x" ++ str ")") =
  str "<a href=" ++ [DQ] ++ str "http://x" ++ [DQ] ++ str ">" ++ str "click" ++
  str "</a>".
Proof.
  apply (convert_link (str "click") (str "http://x")); reflexivity.
Defined.

(** An image, as the whole input, with a plain alternative text without a
    closing bracket and a plain address without a closing parenthesis, is
    never rendered as an [<img>] element: the link rule, which runs first,
    turns everything after the exclamation mark into an anchor, and the
    image rule then finds nothing. *)
Theorem convert_image_as_link :
  forall t u : JSString,
    forallb plainChar t = true -> lacks 93%N t = true ->
    forallb plainChar u = true -> lacks 41%N u = true ->
    convertToHTML (str "![" ++ t ++ str "](" ++ u ++ str ")") =
    str "!<a href=" ++ [DQ] ++ u ++ [DQ] ++ str ">" ++ t ++ str "</a>".
Proof.
  intros t u Ht Hlt Hu Hlu. plain_facts t Ht. plain_facts u Hu.
  before_rule 12.
  change (str "![" ++ t ++ str "](" ++ u ++ str ")")
    with (33%N :: (str "[" ++ t ++ str "](" ++ u ++ str ")")).
  rewrite (replace_after_one linkRule _ _ 33%N [(2, u); (1, t)]);
    [| reflexivity | discriminate | reflexivity | now apply matchAt_link
     | intros bef; reflexivity].
  change (33%N :: substitute _ _ _ [(2, u); (1, t)])
    with (str "!<a href=" ++ [DQ] ++ u ++ [DQ] ++ str ">" ++ t ++ str "</a>").
  after_rule_walk.
Qed.

Lemma convert_image_as_link_witness :
  convertToHTML (str "![" ++ str "logo" ++ str "](" ++ str "logo.png" ++ str ")") =
  str "!<a href=" ++ [DQ] ++ str "logo.png" ++ [DQ] ++ str ">" ++ str "logo" ++
  str "</a>".
Proof.
  apply (convert_image_as_link (str "logo") (str "logo.png")); reflexivity.
Defined.

(** ** From a toolbar button to the preview *)

Lemma substring_whole (t : JSString) :
  substring t 0 (length t) = t /\ substring t 0 0 = [] /\
  substring_from t (length t) = [].
Proof.
  assert (H0 : (0 <= 0 <= length t)%Z) by (unfold length; lia).
  assert (H1 : (length t <= length t)%Z) by lia.
  rewrite (substring_selection t 0 (length t) H0 H1).
  rewrite (substring_suffix t 0 (length t) H0 H1).
  assert (H00 : (0 <= 0 <= 0)%Z) by lia.
  assert (H01 : (0 <= length t)%Z) by (unfold length; lia).
  rewrite (substring_selection t 0 0 H00 H01).
  unfold length. rewrite Nat2Z.id. cbn [Z.to_nat skipn Nat.sub firstn].
  rewrite Nat.sub_0_r, firstn_all, skipn_all. auto.
Qed.

Lemma plain_not_LF_first (t : JSString) :
  forallb plainChar t = true -> startsWith t [LF] = false.
Proof.
  unfold startsWith. destruct t as [| x t]; [reflexivity |].
  cbn [forallb prefixb]. intros H; apply andb_prop in H as [Hx _].
  destruct (plainChar_neq x Hx) as [Hd _].
  unfold dot, isLineTerminator in Hd. rewrite (N.eqb_sym LF x).
  unfold LF. now destruct (N.eqb x 10).
Qed.

Lemma inline_on_whole (id : string) (f : Format) (c : CodeUnit) (t : JSString) :
  lookup id formats = Some f -> type f = inline ->
  (forall x, oneOf (marker f) x = true -> N.eqb x c = true) ->
  forallb dot t = true -> lacks c t = true ->
  exists cur,
    formatText t 0 (length t) id = Some (marker f ++ t ++ marker f, cur).
Proof.
  intros Hid Hty Hmk Hd Hl.
  destruct (inline_formats id f Hid Hty) as [Hp Hne].
  rewrite (formatText_inline t 0 (length t) id f Hid _ Hty Hp). cbv zeta.
  destruct (substring_whole t) as (-> & -> & ->).
  rewrite (no_span_absent (marker f) Hne t (absent_of_lacks c _ t Hmk Hl)).
  rewrite app_nil_r. eexists; reflexivity.
Qed.

Lemma line_on_whole (id : string) (f : Format) (t : JSString) :
  lookup id formats = Some f -> type f = line ->
  forallb plainChar t = true -> startsWith t (marker f) = false ->
  formatText t 0 (length t) id = Some (marker f ++ t, 0%Z).
Proof.
  intros Hid Hty Hplain Hsw.
  assert (Hsel : 0 <= List.length t <= List.length t) by lia.
  pose proof (formatText_line_on t 0 (List.length t) id f Hid Hty Hsel
                (or_intror (plain_not_LF_first t Hplain))) as H.
  cbv zeta in H. change (lineStartOf t 0) with 0 in H.
  unfold lineEndOf in H. rewrite skipn_all in H.
  cbn [untilLF skipn firstn app] in H.
  rewrite Nat.add_0_r, Nat.sub_0_r, firstn_all in H.
  exact (H Hsw).
Qed.

Lemma handler_on_whole (id : string) (f : Format) (h : JSString -> JSString)
    (t : JSString) :
  lookup id formats = Some f -> type f = special -> handler f = Some h ->
  exists cur, formatText t 0 (length t) id = Some (h t, cur).
Proof.
  intros Hid Hty Hh.
  rewrite (formatText_special_handler t 0 (length t) id f Hid h Hty Hh).
  destruct (substring_whole t) as (-> & -> & ->).
  rewrite app_nil_r. eexists; reflexivity.
Qed.

(** What the preview shows after one click. Each of these eleven
    identifiers belongs to a toolbar button. With a whole line of plain text
    selected that has no closing bracket and does not already begin with the
    marker, the button puts its markup around the text, and the converter
    renders the result as the element of the button; the image button alone
    does not give its element, but an exclamation mark and a link. *)
Theorem toolbar_button_preview :
  forall (id : string) (pre post open close t : JSString),
    In (id, pre, post, open, close)
       [ ("bold", str "**", str "**", str "<strong>", str "</strong>");
         ("italic", str "*", str "*", str "<em>", str "</em>");
         ("code", str "`", str "`", str "<code>", str "</code>");
         ("h1", str "# ", [], str "<h1>", str "</h1>");
         ("h2", str "## ", [], str "<h2>", str "</h2>");
         ("h3", str "### ", [], str "<h3>", str "</h3>");
         ("bulletList", str "- ", [], str "<ul><li>", str "</li></ul>");
         ("numberList", str "1. ", [], str "<ol><li>", str "</li></ol>");
         ("blockquote", str "> ", [], str "<blockquote>", str "</blockquote>");
         ("link", str "[", str "](url)",
          str "<a href=" ++ [DQ] ++ str "url" ++ [DQ] ++ str ">", str "</a>");
         ("image", str "![", str "](image-url)",
          str "!<a href=" ++ [DQ] ++ str "image-url" ++ [DQ] ++ str ">",
          str "</a>") ] ->
    forallb plainChar t = true -> lacks 93%N t = true ->
    startsWith t pre = false ->
    In id toolbar /\
    (exists cur,
        formatText t 0 (length t) id = Some (pre ++ t ++ post, cur)) /\
    convertToHTML (pre ++ t ++ post) = open ++ t ++ close.
Proof.
  intros id pre post open close t Hin Hplain H93 Hsw. plain_facts t Hplain.
  assert (Habs : forall c mk0,
             (forall x, oneOf mk0 x = true -> N.eqb x c = true) ->
             lacks c t = true ->
             forallb (fun x => negb (oneOf mk0 x)) t = true)
    by (intros c mk0; apply absent_of_lacks).
  assert (H42 : forall x, oneOf (str "**") x = true -> N.eqb x 42 = true).
  { intros x. unfold oneOf. change (str "**") with [42; 42]%N.
    cbn [existsb]. now destruct (N.eqb x 42). }
  assert (H42' : forall x, oneOf (str "*") x = true -> N.eqb x 42 = true).
  { intros x. unfold oneOf. change (str "*") with [42]%N.
    cbn [existsb]. now destruct (N.eqb x 42). }
  assert (H96 : forall x, oneOf (str "`") x = true -> N.eqb x 96 = true).
  { intros x. unfold oneOf. change (str "`") with [96]%N.
    cbn [existsb]. now destruct (N.eqb x 96). }
  cbn [In] in Hin.
  repeat (destruct Hin as [E | Hin]; [injection E as <- <- <- <- <- |]);
    try contradiction; rewrite ?app_nil_r;
    (split; [unfold toolbar; cbn [In]; auto 20 |]); split.
  - exact (inline_on_whole "bold" _ 42%N t eq_refl eq_refl H42 Hdot
             ltac:(assumption)).
  - pose proof (Habs _ _ H42 ltac:(assumption)) as Ha.
    inline_case 8 (str "**") (str "<strong>" ++ t ++ str "</strong>") Hdot Ha.
  - exact (inline_on_whole "italic" _ 42%N t eq_refl eq_refl H42' Hdot
             ltac:(assumption)).
  - pose proof (Habs _ _ H42' ltac:(assumption)) as Ha.
    inline_case 9 (str "*") (str "<em>" ++ t ++ str "</em>") Hdot Ha.
  - exact (inline_on_whole "code" _ 96%N t eq_refl eq_refl H96 Hdot
             ltac:(assumption)).
  - pose proof (Habs _ _ H96 ltac:(assumption)) as Ha.
    inline_case 10 (str "`") (str "<code>" ++ t ++ str "</code>") Hdot Ha.
  - eexists. exact (line_on_whole "h1" _ t eq_refl eq_refl Hplain Hsw).
  - line_case 3 (str "# ") (str "<h1>" ++ t ++ str "</h1>") Hplain.
  - eexists. exact (line_on_whole "h2" _ t eq_refl eq_refl Hplain Hsw).
  - line_case 2 (str "## ") (str "<h2>" ++ t ++ str "</h2>") Hplain.
  - eexists. exact (line_on_whole "h3" _ t eq_refl eq_refl Hplain Hsw).
  - line_case 1 (str "### ") (str "<h3>" ++ t ++ str "</h3>") Hplain.
  - eexists. exact (line_on_whole "bulletList" _ t eq_refl eq_refl Hplain Hsw).
  - line_case 6 (str "- ") (str "<ul><li>" ++ t ++ str "</li></ul>") Hplain.
  - eexists. exact (line_on_whole "numberList" _ t eq_refl eq_refl Hplain Hsw).
  - before_rule 5.
    rewrite (replace_numbered (str "1") t _); [| discriminate | reflexivity |
                                               exact Hdot].
    change (substitute _ _ 1 [(1, t)])
      with (str "<ol><li>" ++ t ++ str "</li></ol>").
    after_rule Hplain.
  - eexists. exact (line_on_whole "blockquote" _ t eq_refl eq_refl Hplain Hsw).
  - line_case 4 (str "> ")
      (str "<blockquote>" ++ t ++ str "</blockquote>") Hplain.
  - exact (handler_on_whole "link" _ _ t eq_refl eq_refl eq_refl).
  - before_rule 12.
    rewrite (replace_whole linkRule _ _ [(2, str "url"); (1, t)]);
      [| reflexivity | discriminate
       | apply (matchAt_link [] t (str "url")); auto | intros bef; reflexivity].
    change (substitute _ _ _ [(2, str "url"); (1, t)])
      with ((str "<a href=" ++ [DQ] ++ str "url" ++ [DQ] ++ str ">") ++ t ++
            str "</a>").
    after_rule_walk.
  - exact (handler_on_whole "image" _ _ t eq_refl eq_refl eq_refl).
  - before_rule 12.
    change (str "![" ++ t ++ str "](image-url)")
      with (33%N :: (str "[" ++ t ++ str "](" ++ str "image-url" ++ str ")")).
    rewrite (replace_after_one linkRule _ _ 33%N [(2, str "image-url"); (1, t)]);
      [| reflexivity | discriminate | reflexivity
       | apply (matchAt_link [33%N] t (str "image-url")); auto
       | intros bef; reflexivity].
    change (33%N :: substitute _ _ _ [(2, str "image-url"); (1, t)])
      with ((str "!<a href=" ++ [DQ] ++ str "image-url" ++ [DQ] ++ str ">") ++
            t ++ str "</a>").
    after_rule_walk.
Qed.

Lemma toolbar_button_preview_witness :
  In "image" toolbar /\
  (exists cur,
      formatText (str "my cat") 0 6 "image" =
      Some (str "![" ++ str "my cat" ++ str "](image-url)", cur)) /\
  convertToHTML (str "![" ++ str "my cat" ++ str "](image-url)") =
  (str "!<a href=" ++ [DQ] ++ str "image-url" ++ [DQ] ++ str ">") ++
  str "my cat" ++ str "</a>".
Proof.
  apply (toolbar_button_preview "image" (str "![") (str "](image-url)")
           (str "!<a href=" ++ [DQ] ++ str "image-url" ++ [DQ] ++ str ">")
           (str "</a>") (str "my cat")).
  - do 10 right; left; reflexivity.
  - reflexivity.
  - reflexivity.
  - reflexivity.
Defined.

(** ** What the output never contains *)

Lemma lineBreaks_lacks_LF (s : JSString) : lacks LF (lineBreaks s) = true.
Proof.
  unfold lineBreaks. induction s as [| x s IH]; [reflexivity |].
  cbn [flat_map]. rewrite lacks_app, IH, andb_true_r.
  destruct (N.eqb x LF) eqn:E; [reflexivity |].
  unfold lacks. cbn [forallb]. now rewrite E.
Qed.

(** Whatever the input, the rendered HTML contains no newline: the last
    step turns every newline that the rules and the collapse step have left
    into a [<br>]. *)
Theorem convert_no_newline :
  forall text : JSString, lacks LF (convertToHTML text) = true.
Proof.
  intros text. rewrite convertToHTML_steps, replace_newline.
  apply lineBreaks_lacks_LF.
Qed.

(** ** The converter on several lines of plain text *)

Lemma quietAll_bol_lines (re : RegExp) (r : regex) (G : CodeUnit -> bool) :
  source re = Seq Bol r ->
  (forall bef x v, G x = true -> quietAt re bef (x :: v) = true) ->
  G LF = true ->
  (forall bef, quietAt re bef [] = true) ->
  forall t atStart bef,
    (atStart = false ->
     match bef with [] => False | y :: _ => dot y = true end) ->
    linesOk G atStart t = true -> quietAll re bef t = true.
Proof.
  intros Hsrc HG HLF Hnil.
  assert (Hin : forall bef v,
             match bef with [] => False | y :: _ => dot y = true end ->
             quietAt re bef v = true).
  { intros [| y bef] v Hy; [contradiction |]. unfold quietAt.
    now rewrite (matchAt_bol_inside re r y bef v Hsrc Hy). }
  induction t as [| x t IH]; intros atStart bef Hbef Hok;
    cbn [quietAll linesOk] in *.
  - now rewrite Hnil.
  - destruct (N.eqb x LF) eqn:E.
    + apply N.eqb_eq in E; subst x. rewrite (HG bef LF t HLF). cbn [andb].
      apply (IH true); [discriminate | exact Hok].
    + apply andb_prop in Hok as [Hok Ht]. apply andb_prop in Hok as [Hx Hg].
      apply andb_true_intro; split.
      * destruct atStart; cbn [negb orb] in Hg.
        -- now apply HG.
        -- apply Hin. now apply Hbef.
      * apply (IH false); [intros _; exact Hx | exact Ht].
Qed.

Lemma starterFree_facts (x : CodeUnit) :
  starterFree x = true ->
  N.eqb 35 x = false /\ N.eqb 62 x = false /\ N.eqb 45 x = false /\
  digit x = false.
Proof.
  unfold starterFree, oneOf. change (str "#>-") with [35; 62; 45]%N.
  cbn [existsb]. rewrite !(N.eqb_sym x). intros H.
  apply andb_prop in H as [H1 H2].
  destruct (N.eqb 35 x), (N.eqb 62 x), (N.eqb 45 x), (digit x);
    try discriminate.
  auto.
Qed.

Lemma starterFree_quiet_lit (c : CodeUnit) (l : JSString) (r : regex)
    (bef : JSString) (x : CodeUnit) (v : JSString) :
  In c [35; 62; 45]%N -> starterFree x = true ->
  quietAt (regexp (Seq Bol (Seq (lit (c :: l)) r)) true true) bef (x :: v) = true.
Proof.
  intros Hc Hx. apply quietAt_bol_lit. cbn [prefixb].
  destruct (starterFree_facts x Hx) as (E1 & E2 & E3 & _).
  cbn [In] in Hc. destruct Hc as [<- | [<- | [<- | []]]];
    now rewrite ?E1, ?E2, ?E3.
Qed.

Lemma plainLines_lacks (c : CodeUnit) (t : JSString) :
  oneOf (str "`*~[<") c = true ->
  forallb (fun x => N.eqb x LF || plainChar x) t = true ->
  lacks c t = true.
Proof.
  intros Hc. unfold lacks. induction t as [| x t IH]; cbn [forallb];
    [reflexivity |].
  intros H; apply andb_prop in H as [Hx Ht]. rewrite (IH Ht), andb_true_r.
  destruct (N.eqb x c) eqn:E; [| reflexivity].
  apply N.eqb_eq in E; subst x. unfold plainChar in Hx. rewrite Hc in Hx.
  rewrite andb_false_r, orb_false_r in Hx.
  apply N.eqb_eq in Hx; subst c. discriminate Hc.
Qed.

(** Several lines of plain text, none of which begins with a character that
    opens a block rule, are rendered with a [<br>] in place of each newline
    and are otherwise left as they are. *)
Theorem convert_plain_lines :
  forall text : JSString,
    plainLines text = true -> convertToHTML text = lineBreaks text.
Proof.
  intros text H. unfold plainLines in H. apply andb_prop in H as [Hok Hpl].
  pose proof (plainLines_lacks 96%N text eq_refl Hpl) as H96.
  pose proof (plainLines_lacks 42%N text eq_refl Hpl) as H42.
  pose proof (plainLines_lacks 126%N text eq_refl Hpl) as H126.
  pose proof (plainLines_lacks 91%N text eq_refl Hpl) as H91.
  pose proof (plainLines_lacks 60%N text eq_refl Hpl) as H60.
  rewrite convertToHTML_steps.
  rewrite (applyRules_quiet conversions).
  - rewrite (replace_quiet listBoundary); [| reflexivity | quiet_rule].
    apply replace_newline.
  - unfold conversions.
    repeat (apply Forall_cons;
            [split; [reflexivity |]; cbn [fst];
             first
               [ quiet_rule
               | match goal with
                 | |- quietAll ?re _ _ = true =>
                     refine (quietAll_bol_lines re _ starterFree eq_refl _
                               eq_refl _ text true [] _ Hok)
                 end;
                 [ intros bef x v Hx;
                   first
                     [ apply starterFree_quiet_lit;
                       [cbn [In]; auto | exact Hx]
                     | apply quietAt_bol_digit;
                       apply (starterFree_facts x Hx) ]
                 | intros bef;
                   first [ apply quietAt_bol_lit; reflexivity
                         | apply quietAt_bol_digit; exact I ]
                 | discriminate ] ] |]).
    apply Forall_nil.
Qed.

Lemma convert_plain_lines_witness :
  convertToHTML (str "Dear all," ++ [LF] ++ [LF] ++ str "see you at 5 - 6 pm.")
  = lineBreaks (str "Dear all," ++ [LF] ++ [LF] ++ str "see you at 5 - 6 pm.").
Proof.
  apply (convert_plain_lines
           (str "Dear all," ++ [LF] ++ [LF] ++ str "see you at 5 - 6 pm.")).
  reflexivity.
Defined.

(** ** The collapse of list boundaries *)

Lemma replaceAll_quietPre (re : RegExp) (tpl u v bef : JSString) :
  quietPre re bef u v = true ->
  replaceAll re tpl bef (u ++ v) 0 = u ++ replaceAll re tpl (rev u ++ bef) v 0.
Proof.
  revert bef; induction u as [| x u IH]; intros bef H.
  - destruct v; reflexivity.
  - cbn [quietPre] in H. apply andb_prop in H as [Hx Hu].
    cbn [app replaceAll]. unfold quietAt in Hx.
    destruct (matchAt re bef (x :: u ++ v)); [discriminate |].
    cbn [rev]. rewrite <- app_assoc. cbn [app]. f_equal. now apply IH.
Qed.

Lemma quietPre_mid (re : RegExp) (G : CodeUnit -> bool) :
  (forall bef x w, G x = true -> quietAt re bef (x :: w) = true) ->
  forall t bef B v,
    forallb G t = true ->
    quietPre re (rev t ++ bef) B v = true ->
    quietPre re bef (t ++ B) v = true.
Proof.
  intros HG. induction t as [| x t IH]; intros bef B v Ht HB; [exact HB |].
  cbn [forallb] in Ht. apply andb_prop in Ht as [Hx Ht].
  cbn [app quietPre]. rewrite (HG bef x _ Hx). cbn [andb].
  apply IH; [exact Ht |]. cbn [rev] in HB. now rewrite <- app_assoc in HB.
Qed.

Lemma matcher_Cls (m : bool) (p : CodeUnit -> bool) (k : Continuation)
    (s : MatchState) (x : CodeUnit) (t : JSString) :
  after s = x :: t -> p x = true ->
  matcher m (Cls p) k s = k (advance x t s).
Proof. intros Ha Hp. cbn [matcher]. now rewrite Ha, Hp. Qed.

(** A closing list tag, white space and an opening list tag, of either
    kind each, are matched as a whole. *)
Lemma matchAt_boundary (bef : JSString) (c1 c2 : CodeUnit) (ws rest : JSString) :
  oneOf (str "ou") c1 = true -> oneOf (str "ou") c2 = true ->
  forallb space ws = true ->
  let m := str "</" ++ c1 :: str "l>" ++ ws ++ str "<" ++ c2 :: str "l>" in
  matchAt listBoundary bef (m ++ rest) = Some (List.length m, []).
Proof.
  intros H1 H2 Hws m. unfold matchAt.
  change (source listBoundary)
    with (Seq (lit (str "</"))
            (Seq (Cls (oneOf (str "ou")))
               (Seq (lit (str "l>"))
                  (Seq (Rep space 0 greedy)
                     (Seq (lit (str "<"))
                        (Seq (Cls (oneOf (str "ou")))
                           (Seq (lit (str "l>")) Empty))))))).
  set (mu := multiline listBoundary).
  assert (Hres : forall k0,
             matcher mu
               (Seq (lit (str "</"))
                  (Seq (Cls (oneOf (str "ou")))
                     (Seq (lit (str "l>"))
                        (Seq (Rep space 0 greedy)
                           (Seq (lit (str "<"))
                              (Seq (Cls (oneOf (str "ou")))
                                 (Seq (lit (str "l>")) Empty)))))))
               Some {| before := bef; after := m ++ rest; captures := k0 |} =
             Some {| before := rev m ++ bef; after := rest; captures := k0 |}).
  { intros k0. unfold m.
    rewrite matcher_Seq, matcher_lit. cbn [after before captures].
    rewrite <- !app_assoc. cbn [app str map list_ascii_of_string prefixb].
    rewrite !N.eqb_refl. cbn [andb List.length skipn].
    rewrite matcher_Seq.
    erewrite (matcher_Cls mu _ _ _ c1); [| reflexivity | exact H1].
    rewrite matcher_Seq, matcher_lit. cbn [advance after before captures].
    cbn [prefixb]. rewrite !N.eqb_refl. cbn [andb List.length skipn].
    rewrite matcher_Seq, matcher_Rep. cbn [after before captures].
    rewrite <- (app_assoc ws).
    rewrite (repeat_greedy_class space _
               {| before := rev (str "</" ++ c1 :: str "l>" ++ ws ++ str "<" ++
                                 c2 :: str "l>") ++ bef;
                  after := rest; captures := k0 |}
               ws 0 _ _ Hws (Nat.le_0_l _)); [reflexivity | reflexivity |].
    rewrite matcher_Seq, matcher_lit. cbn [after before captures prefixb app].
    rewrite N.eqb_refl. cbn [andb List.length skipn].
    rewrite matcher_Seq.
    erewrite (matcher_Cls mu _ _ _ c2); [| reflexivity | exact H2].
    rewrite matcher_Seq, matcher_lit. cbn [advance after before captures].
    cbn [prefixb]. rewrite !N.eqb_refl. cbn [andb List.length skipn matcher].
    f_equal. f_equal.
    rewrite !rev_app_distr. cbn [rev app str map list_ascii_of_string].
    rewrite !rev_app_distr. cbn [rev app]. rewrite <- !app_assoc.
    reflexivity. }
  rewrite Hres. cbn [after captures]. rewrite length_app, Nat.add_sub.
  reflexivity.
Qed.

(** ** Lines joined by newlines *)

Lemma dot_not_LF (x : CodeUnit) : dot x = true -> N.eqb x LF = false.
Proof.
  unfold dot, isLineTerminator, LF. now destruct (N.eqb x 10).
Qed.

Lemma linesOk_inside (G : CodeUnit -> bool) (w rest : JSString) :
  forallb dot w = true ->
  linesOk G false (w ++ LF :: rest) = linesOk G true rest /\
  linesOk G false w = true.
Proof.
  induction w as [| x w IH]; cbn [forallb app linesOk].
  - intros _. now rewrite N.eqb_refl.
  - intros H; apply andb_prop in H as [Hx Hw].
    rewrite (dot_not_LF x Hx), Hx. cbn [negb orb andb]. now apply IH.
Qed.

Lemma linesOk_line (G : CodeUnit -> bool) (b : bool) (x : CodeUnit)
    (w rest : JSString) :
  G x = true -> forallb dot (x :: w) = true ->
  linesOk G b ((x :: w) ++ LF :: rest) = linesOk G true rest /\
  linesOk G b (x :: w) = true.
Proof.
  intros Hg H. cbn [forallb] in H. apply andb_prop in H as [Hx Hw].
  cbn [app linesOk]. rewrite (dot_not_LF x Hx), Hx, Hg, orb_true_r.
  cbn [andb]. now apply linesOk_inside.
Qed.

Lemma joinLines_two (l l2 : JSString) (rest : list JSString) :
  joinLines (l :: l2 :: rest) = l ++ LF :: joinLines (l2 :: rest).
Proof. reflexivity. Qed.

Lemma linesOk_join (G : CodeUnit -> bool) (c : CodeUnit) (pre : JSString)
    (items : list JSString) :
  G c = true -> forallb dot (c :: pre) = true ->
  Forall (fun t => forallb dot t = true) items ->
  linesOk G true (joinLines (map (app (c :: pre)) items)) = true.
Proof.
  intros Hg Hpre. induction items as [| t items IH]; intros Hit;
    [reflexivity |].
  inversion Hit as [| t' items' Ht Hrest]; subst.
  assert (Hline : forallb dot (c :: pre ++ t) = true).
  { change (c :: pre ++ t) with ((c :: pre) ++ t).
    now rewrite forallb_app, Hpre, Ht. }
  destruct items as [| t2 items].
  - cbn [map joinLines].
    change ((c :: pre) ++ t) with (c :: (pre ++ t)).
    exact (proj2 (linesOk_line G true c (pre ++ t) [] Hg Hline)).
  - cbn [map] in *. rewrite joinLines_two.
    change ((c :: pre) ++ t) with (c :: (pre ++ t)).
    rewrite (proj1 (linesOk_line G true c (pre ++ t) _ Hg Hline)).
    now apply IH.
Qed.

Lemma lacks_join (c : CodeUnit) (pre : JSString) (items : list JSString) :
  N.eqb LF c = false -> lacks c pre = true ->
  Forall (fun t => lacks c t = true) items ->
  lacks c (joinLines (map (app pre) items)) = true.
Proof.
  intros Hc Hpre. induction items as [| t items IH]; intros Hit;
    [reflexivity |].
  inversion Hit as [| t' items' Ht Hrest]; subst.
  destruct items as [| t2 items].
  - cbn [map joinLines]. now rewrite lacks_app, Hpre, Ht.
  - cbn [map] in *. rewrite joinLines_two, !lacks_app, Hpre, Ht.
    unfold lacks at 1. cbn [forallb andb]. rewrite Hc. cbn [negb andb].
    now apply IH.
Qed.

Lemma matchAt_bol_lit_none (l : JSString) (r : regex) (m : bool)
    (bef v : JSString) :
  prefixb l v = false ->
  matchAt (regexp (Seq Bol (Seq (lit l) r)) true m) bef v = None.
Proof.
  intros H. pose proof (quietAt_bol_lit l r m bef v H) as Hq.
  unfold quietAt in Hq. now destruct (matchAt _ bef v).
Qed.

(** The bullet rule on bullet lines: each line becomes a list of its own. *)
Lemma replaceAll_bullets (items : list JSString) :
  Forall (fun t => forallb dot t = true) items ->
  forall bef,
    match bef with [] => True | y :: _ => dot y = false end ->
    replaceAll (lineRule (str "- ")) (str "<ul><li>$1</li></ul>") bef
      (joinLines (map (app (str "- ")) items)) 0 =
    joinLines (map (fun t => str "<ul><li>" ++ t ++ str "</li></ul>") items).
Proof.
  induction items as [| t items IH]; intros Hit bef Hbef.
  - cbn [map joinLines replaceAll].
    now rewrite (matchAt_lineRule_nil (str "- ") bef) by discriminate.
  - inversion Hit as [| t' items' Ht Hrest]; subst.
    destruct items as [| t2 items].
    + cbn [map joinLines].
      rewrite <- (app_nil_r (str "- " ++ t)) at 1.
      rewrite (replaceAll_matched _ _ (str "- " ++ t) [] bef [(1, t)]);
        [| discriminate | now apply matchAt_lineRule].
      cbn [replaceAll].
      rewrite (matchAt_lineRule_nil (str "- ")) by discriminate.
      rewrite app_nil_r. reflexivity.
    + cbn [map] in *. rewrite !joinLines_two.
      rewrite (replaceAll_matched _ _ (str "- " ++ t) _ bef [(1, t)]);
        [| discriminate | now apply matchAt_lineRule].
      change (substitute _ _ _ [(1, t)])
        with (str "<ul><li>" ++ t ++ str "</li></ul>").
      rewrite <- !app_assoc. do 3 f_equal.
      cbn [replaceAll app].
      change (lineRule (str "- "))
        with (regexp (Seq Bol (Seq (lit (str "- ")) (Seq restOfLine Empty)))
                true true).
      rewrite matchAt_bol_lit_none by reflexivity.
      do 5 f_equal. f_equal.
      apply (IH Hrest). reflexivity.
Qed.

Lemma quietAll_bol_join (re : RegExp) (r : regex) (c : CodeUnit)
    (pre : JSString) (items : list JSString) :
  source re = Seq Bol r ->
  (forall bef v, quietAt re bef (c :: v) = true) ->
  (forall bef v, quietAt re bef (LF :: v) = true) ->
  (forall bef, quietAt re bef [] = true) ->
  forallb dot (c :: pre) = true ->
  Forall (fun t => forallb dot t = true) items ->
  quietAll re [] (joinLines (map (app (c :: pre)) items)) = true.
Proof.
  intros Hsrc Hc Hlf Hnil Hpre Hit.
  refine (quietAll_bol_lines re r (fun x => N.eqb x c || N.eqb x LF) Hsrc _ _
            Hnil _ true [] _ _).
  - intros bef x v Hx. apply orb_prop in Hx as [Hx | Hx];
      apply N.eqb_eq in Hx; subst x; auto.
  - now rewrite N.eqb_refl, orb_true_r.
  - discriminate.
  - apply linesOk_join; [now rewrite N.eqb_refl | exact Hpre | exact Hit].
Qed.

Lemma kind_cases (k : CodeUnit) :
  oneOf (str "ou") k = true -> k = 111%N \/ k = 117%N.
Proof.
  unfold oneOf. change (str "ou") with [111; 117]%N. cbn [existsb].
  rewrite orb_false_r. intros H. apply orb_prop in H as [H | H];
    apply N.eqb_eq in H; auto.
Qed.

(** One list per line, written with the lines after the first as a fold. *)
Lemma joinLines_wrapped (items : list (CodeUnit * JSString)) :
  forall k t,
    joinLines
      (map (fun kt => 60%N :: fst kt :: str "l>" ++ str "<li>" ++ snd kt ++
                      str "</li>" ++ 60%N :: 47%N :: fst kt :: str "l>")
         ((k, t) :: items)) =
    60%N :: k :: str "l>" ++ str "<li>" ++ t ++ str "</li>" ++
    60%N :: 47%N :: k :: str "l>" ++
    fold_right
      (fun kt acc => LF :: 60%N :: fst kt :: str "l>" ++ str "<li>" ++
                     snd kt ++ str "</li>" ++
                     60%N :: 47%N :: fst kt :: str "l>" ++ acc)
      [] items.
Proof.
  induction items as [| [k2 t2] items IH]; intros k t.
  - cbn [map joinLines fold_right fst snd app]. now rewrite app_nil_r.
  - specialize (IH k2 t2). cbn [map] in *.
    rewrite joinLines_two.
    refine (eq_trans (f_equal (fun z => _ ++ LF :: z) IH) _).
    cbn [fst snd fold_right app].
    rewrite <- !app_assoc. cbn [app]. rewrite <- ?app_assoc. reflexivity.
Qed.

Lemma quietPre_item (k : CodeUnit) (t v bef : JSString) :
  forallb plainChar t = true ->
  quietPre listBoundary bef (str "<li>" ++ t ++ str "</li>")
    (60%N :: 47%N :: k :: str "l>" ++ v) = true.
Proof.
  intros Ht. change (str "<li>") with [60; 108; 105; 62]%N.
  cbn [app quietPre]. repeat (apply andb_true_intro; split);
    try (vm_compute; reflexivity).
  apply (quietPre_mid listBoundary plainChar plain_quiet_listBoundary);
    [exact Ht |].
  generalize (rev t ++ [62; 105; 108; 60]%N ++ bef); intros bef'.
  change (str "</li>") with [60; 47; 108; 105; 62]%N.
  cbn [app quietPre]. repeat (apply andb_true_intro; split);
    vm_compute; reflexivity.
Qed.

Lemma last_cons_default (A : Type) (l : list A) (a d : A) :
  last (a :: l) d = last l a.
Proof.
  revert a d; induction l as [| b l IH]; intros a d; [reflexivity |].
  change (last (a :: b :: l) d) with (last (b :: l) d).
  now rewrite (IH b d), (IH b a).
Qed.

Lemma replaceAll_item (k : CodeUnit) (t v bef : JSString) :
  forallb plainChar t = true ->
  replaceAll listBoundary [] bef
    (str "<li>" ++ t ++ str "</li>" ++ 60%N :: 47%N :: k :: str "l>" ++ v) 0 =
  str "<li>" ++ t ++ str "</li>" ++
  replaceAll listBoundary [] (rev (str "<li>" ++ t ++ str "</li>") ++ bef)
    (60%N :: 47%N :: k :: str "l>" ++ v) 0.
Proof.
  intros Ht. rewrite (app_assoc t), (app_assoc (str "<li>")).
  rewrite replaceAll_quietPre by (apply quietPre_item; exact Ht).
  now rewrite <- !app_assoc.
Qed.

(** The boundary pattern on one list per line: every closing tag that is
    followed by a newline and an opening tag goes with them, whatever the
    two list kinds are; the last closing tag stays. *)
Lemma collapse_items (items : list (CodeUnit * JSString)) :
  Forall (fun kt => oneOf (str "ou") (fst kt) = true /\
                    forallb plainChar (snd kt) = true) items ->
  forall k t bef,
    oneOf (str "ou") k = true -> forallb plainChar t = true ->
    replaceAll listBoundary [] bef
      (str "<li>" ++ t ++ str "</li>" ++ 60%N :: 47%N :: k :: str "l>" ++
       fold_right
         (fun kt acc => LF :: 60%N :: fst kt :: str "l>" ++ str "<li>" ++
                        snd kt ++ str "</li>" ++
                        60%N :: 47%N :: fst kt :: str "l>" ++ acc)
         [] items) 0 =
    str "<li>" ++ t ++ str "</li>" ++
    List.concat (map (fun kt => str "<li>" ++ snd kt ++ str "</li>") items) ++
    60%N :: 47%N :: last (map fst items) k :: str "l>".
Proof.
  induction items as [| [k2 t2] items IH]; intros Hit k t bef Hk Ht.
  - cbn [fold_right map List.concat last app].
    rewrite (replaceAll_item k t [] bef Ht). do 3 f_equal.
    apply replaceAll_quiet.
    generalize (rev (str "<li>" ++ t ++ str "</li>") ++ bef); intros bef'.
    destruct (kind_cases k Hk); subst k; vm_compute; reflexivity.
  - inversion Hit as [| kt items' [Hk2 Ht2] Hrest]; subst.
    cbn [fst snd] in Hk2, Ht2.
    cbn [fold_right map List.concat fst snd].
    rewrite last_cons_default, <- !app_assoc.
    rewrite (replaceAll_item k t _ bef Ht). do 3 f_equal.
    match goal with
    | |- replaceAll _ _ ?b _ _ = _ => generalize b; intros bef'
    end.
    match goal with
    | |- replaceAll _ _ _ (_ :: _ :: _ :: _ ++ _ :: _ :: _ :: _ ++ ?rest) _ = _ =>
        pose proof (matchAt_boundary bef' k k2 [LF] rest Hk Hk2 eq_refl) as Hm;
        cbv zeta in Hm;
        change (replaceAll listBoundary [] bef'
                  ((str "</" ++ k :: str "l>" ++ [LF] ++ str "<" ++
                    k2 :: str "l>") ++ rest) 0 =
                str "<li>" ++ t2 ++ str "</li>" ++
                List.concat (map (fun kt => str "<li>" ++ snd kt ++ str "</li>")
                          items) ++
                60%N :: 47%N :: last (map fst items) k2 :: str "l>");
        assert (Hne : str "</" ++ k :: str "l>" ++ [LF] ++ str "<" ++
                      k2 :: str "l>" <> []) by discriminate;
        rewrite (replaceAll_matched listBoundary [] _ rest bef' [] Hne Hm)
    end.
    change (substitute [] _ _ _) with (@nil CodeUnit). cbn [app].
    now apply IH.
Qed.

Lemma replace_global (s : JSString) (re : RegExp) (tpl : JSString) :
  global re = true -> replace s re tpl = replaceAll re tpl [] s 0.
Proof. intros H. unfold replace. now rewrite H. Qed.

Lemma lacks_concat (c : CodeUnit) (ls : list JSString) :
  Forall (fun l => lacks c l = true) ls -> lacks c (List.concat ls) = true.
Proof.
  induction 1 as [| l ls Hl _ IH]; [reflexivity |].
  cbn [List.concat]. now rewrite lacks_app, Hl, IH.
Qed.

Lemma last_same_kind (k : CodeUnit) (items : list JSString) :
  last (map fst (map (pair k) items)) k = k.
Proof.
  induction items as [| t items IH]; [reflexivity |].
  cbn [map fst]. now rewrite last_cons_default.
Qed.

(** ** A bullet list of any length *)

(** Consecutive bullet lines of plain text are rendered as one [<ul>] with
    one [<li>] per line, in order, with nothing between the items. *)
Theorem convert_bullet_list :
  forall items : list JSString,
    items <> [] ->
    Forall (fun t => forallb plainChar t = true) items ->
    convertToHTML (joinLines (map (app (str "- ")) items)) =
    str "<ul>" ++
    List.concat (map (fun t => str "<li>" ++ t ++ str "</li>") items) ++
    str "</ul>".
Proof.
  intros items Hne Hplain.
  assert (Hdot : Forall (fun t => forallb dot t = true) items)
    by (eapply Forall_impl; [| exact Hplain]; intros a; apply plain_dot).
  assert (L0 : forall c, In c [96; 42; 126; 91; 60]%N ->
                 lacks c (joinLines (map (app (str "- ")) items)) = true).
  { intros c Hc. apply lacks_join.
    - cbn [In] in Hc. decompose [or] Hc; subst; try reflexivity; contradiction.
    - cbn [In] in Hc. decompose [or] Hc; subst; try reflexivity; contradiction.
    - eapply Forall_impl; [| exact Hplain]. intros a Ha.
      destruct (plain_lacks a Ha) as (? & ? & ? & ? & ?).
      cbn [In] in Hc. decompose [or] Hc; subst; assumption || contradiction. }
  pose proof (L0 96%N ltac:(cbn [In]; auto)) as H96.
  pose proof (L0 42%N ltac:(cbn [In]; auto)) as H42.
  pose proof (L0 126%N ltac:(cbn [In]; auto)) as H126.
  pose proof (L0 91%N ltac:(cbn [In]; auto 6)) as H91.
  pose proof (L0 60%N ltac:(cbn [In]; auto 6)) as H60.
  clear L0.
  rewrite convertToHTML_steps.
  change conversions with (firstn 6 conversions ++ skipn 6 conversions).
  rewrite applyRules_app.
  rewrite (applyRules_quiet (firstn 6 conversions)).
  2:{ cbn [firstn conversions].
      repeat (apply Forall_cons;
              [split; [reflexivity |]; cbn [fst];
               first
                 [ quiet_rule
                 | match goal with
                   | |- quietAll ?re _ _ = true =>
                       refine (quietAll_bol_join re _ 45%N (str " ") items
                                 eq_refl _ _ _ eq_refl Hdot)
                   end;
                   [ intros bef v;
                     first [ apply quietAt_bol_lit; reflexivity
                           | apply quietAt_bol_digit; reflexivity ]
                   | intros bef v;
                     first [ apply quietAt_bol_lit; reflexivity
                           | apply quietAt_bol_digit; reflexivity ]
                   | intros bef;
                     first [ apply quietAt_bol_lit; reflexivity
                           | apply quietAt_bol_digit; exact I ] ] ] |]).
      apply Forall_nil. }
  cbn [skipn conversions]. try unfold conversions.
  rewrite applyRules_cons.
  rewrite (replace_global (joinLines (map (app (str "- ")) items)))
    by reflexivity.
  change (regexp (seq [Bol; lit (str "- "); restOfLine]) true true)
    with (lineRule (str "- ")).
  rewrite (replaceAll_bullets items Hdot [] I).
  clear H96 H42 H126 H91 H60.
  assert (E1 : joinLines
                 (map (fun t => str "<ul><li>" ++ t ++ str "</li></ul>") items)
               = joinLines
                   (map (app (60%N :: str "ul><li>"))
                      (map (fun t => t ++ str "</li></ul>") items)))
    by (now rewrite map_map).
  assert (E2 : joinLines
                 (map (fun t => str "<ul><li>" ++ t ++ str "</li></ul>") items)
               = joinLines
                   (map (fun kt => 60%N :: fst kt :: str "l>" ++ str "<li>" ++
                                   snd kt ++ str "</li>" ++
                                   60%N :: 47%N :: fst kt :: str "l>")
                      (map (pair 117%N) items)))
    by (now rewrite map_map).
  assert (Hdot1 : Forall (fun t => forallb dot t = true)
                    (map (fun t => t ++ str "</li></ul>") items)).
  { apply Forall_map. eapply Forall_impl; [| exact Hdot]. cbv beta.
    intros a Ha. now rewrite forallb_app, Ha. }
  assert (L1 : forall c, In c [96; 42; 126; 91]%N ->
                 lacks c
                   (joinLines
                      (map (app (60%N :: str "ul><li>"))
                         (map (fun t => t ++ str "</li></ul>") items)))
                 = true).
  { intros c Hc. apply lacks_join.
    - cbn [In] in Hc. decompose [or] Hc; subst; try reflexivity; contradiction.
    - cbn [In] in Hc. decompose [or] Hc; subst; try reflexivity; contradiction.
    - apply Forall_map. eapply Forall_impl; [| exact Hplain]. cbv beta.
      intros a Ha. destruct (plain_lacks a Ha) as (? & ? & ? & ? & ?).
      rewrite lacks_app.
      cbn [In] in Hc. decompose [or] Hc; subst;
        try contradiction;
        match goal with H : lacks ?c a = true |- lacks ?c a && _ = true =>
          rewrite H; reflexivity
        end. }
  pose proof (L1 96%N ltac:(cbn [In]; auto)) as H96.
  pose proof (L1 42%N ltac:(cbn [In]; auto)) as H42.
  pose proof (L1 126%N ltac:(cbn [In]; auto)) as H126.
  pose proof (L1 91%N ltac:(cbn [In]; auto 6)) as H91.
  clear L1.
  rewrite E1.
  rewrite applyRules_quiet.
  2:{ repeat (apply Forall_cons;
              [split; [reflexivity |]; cbn [fst];
               first
                 [ quiet_rule
                 | match goal with
                   | |- quietAll ?re _ _ = true =>
                       refine (quietAll_bol_join re _ 60%N (str "ul><li>") _
                                 eq_refl _ _ _ eq_refl Hdot1)
                   end;
                   [ intros bef v; apply quietAt_bol_lit; reflexivity
                   | intros bef v; apply quietAt_bol_lit; reflexivity
                   | intros bef; apply quietAt_bol_lit; reflexivity ] ] |]).
      apply Forall_nil. }
  rewrite <- E1, E2. clear E1 E2 H96 H42 H126 H91 Hdot1.
  destruct items as [| t items]; [congruence |]. clear Hne.
  inversion Hplain as [| t' items' Ht Hrest]; subst.
  change (map (pair 117%N) (t :: items))
    with ((117%N, t) :: map (pair 117%N) items).
  rewrite joinLines_wrapped.
  rewrite replace_newline, (replace_global _ listBoundary) by reflexivity.
  match goal with
  | |- lineBreaks (replaceAll _ _ _ (_ :: _ :: _ ++ ?X) _) = ?R =>
      change (lineBreaks (replaceAll listBoundary [] [] (str "<ul>" ++ X) 0)
              = R)
  end.
  rewrite replaceAll_quietPre.
  2:{ change (str "<ul>") with [60; 117; 108; 62]%N. cbn [quietPre app].
      repeat (apply andb_true_intro; split); vm_compute; reflexivity. }
  rewrite collapse_items; [| | reflexivity | exact Ht].
  2:{ apply Forall_map. eapply Forall_impl; [| exact Hrest]. cbv beta.
      intros a Ha. split; [reflexivity | exact Ha]. }
  rewrite last_same_kind, map_map. cbn [snd].
  assert (Hlf : forall a, forallb plainChar a = true -> lacks LF a = true)
    by (intros a Ha; apply dot_lacks_LF, plain_dot, Ha).
  rewrite lineBreaks_id.
  - cbn [map List.concat]. now rewrite <- !app_assoc.
  - rewrite !lacks_app, (Hlf t Ht), lacks_concat; [reflexivity |].
    apply Forall_map. eapply Forall_impl; [| exact Hrest]. cbv beta.
    intros a Ha. now rewrite !lacks_app, (Hlf a Ha).
Qed.

Lemma convert_bullet_list_witness :
  convertToHTML
    (joinLines (map (app (str "- ")) [str "tea"; str "milk"; str "rye bread"]))
  = str "<ul>" ++
    List.concat (map (fun t => str "<li>" ++ t ++ str "</li>")
                   [str "tea"; str "milk"; str "rye bread"]) ++
    str "</ul>".
Proof.
  apply (convert_bullet_list [str "tea"; str "milk"; str "rye bread"]).
  - discriminate.
  - repeat (apply Forall_cons; [reflexivity |]). apply Forall_nil.
Defined.

(** ** Lines before and after a piece of markup *)

Lemma linesOk_app_LF (G : CodeUnit -> bool) (u v : JSString) :
  forall b, linesOk G b (u ++ LF :: v) = linesOk G b u && linesOk G true v.
Proof.
  induction u as [| x u IH]; intros b; cbn [app linesOk].
  - now rewrite N.eqb_refl.
  - destruct (N.eqb x LF); [apply IH |]. now rewrite IH, andb_assoc.
Qed.

Lemma quietAll_bol_lines_app (re : RegExp) (r : regex)
    (G : CodeUnit -> bool) :
  source re = Seq Bol r ->
  (forall bef x v, G x = true -> quietAt re bef (x :: v) = true) ->
  G LF = true ->
  forall t atStart bef v,
    (atStart = false ->
     match bef with [] => False | y :: _ => dot y = true end) ->
    linesOk G atStart t = true ->
    quietAll re (rev t ++ bef) v = true -> quietAll re bef (t ++ v) = true.
Proof.
  intros Hsrc HG HLF.
  induction t as [| x t IH]; intros atStart bef v Hbef Hok Hv;
    cbn [quietAll linesOk app rev] in *; [exact Hv |].
  rewrite <- app_assoc in Hv. cbn [app] in Hv.
  destruct (N.eqb x LF) eqn:E.
  - apply N.eqb_eq in E; subst x. rewrite (HG bef LF _ HLF). cbn [andb].
    apply (IH true); [discriminate | exact Hok | exact Hv].
  - apply andb_prop in Hok as [Hok Ht]. apply andb_prop in Hok as [Hx Hg].
    apply andb_true_intro; split.
    + destruct atStart; cbn [negb orb] in Hg; [now apply HG |].
      specialize (Hbef eq_refl). destruct bef as [| y bef]; [contradiction |].
      unfold quietAt. now rewrite (matchAt_bol_inside re r y bef _ Hsrc Hbef).
    + apply (IH false); [intros _; exact Hx | exact Ht | exact Hv].
Qed.

Lemma quietPre_bol_lines (re : RegExp) (r : regex) (G : CodeUnit -> bool) :
  source re = Seq Bol r ->
  (forall bef x v, G x = true -> quietAt re bef (x :: v) = true) ->
  G LF = true ->
  forall t atStart bef v,
    (atStart = false ->
     match bef with [] => False | y :: _ => dot y = true end) ->
    linesOk G atStart t = true -> quietPre re bef t v = true.
Proof.
  intros Hsrc HG HLF.
  induction t as [| x t IH]; intros atStart bef v Hbef Hok;
    cbn [quietPre linesOk] in *; [reflexivity |].
  destruct (N.eqb x LF) eqn:E.
  - apply N.eqb_eq in E; subst x. rewrite (HG bef LF _ HLF). cbn [andb].
    apply (IH true); [discriminate | exact Hok].
  - apply andb_prop in Hok as [Hok Ht]. apply andb_prop in Hok as [Hx Hg].
    apply andb_true_intro; split.
    + destruct atStart; cbn [negb orb] in Hg; [now apply HG |].
      specialize (Hbef eq_refl). destruct bef as [| y bef]; [contradiction |].
      unfold quietAt. now rewrite (matchAt_bol_inside re r y bef _ Hsrc Hbef).
    + apply (IH false); [intros _; exact Hx | exact Ht].
Qed.

Lemma lineBreaks_app (u v : JSString) :
  lineBreaks (u ++ v) = lineBreaks u ++ lineBreaks v.
Proof. apply flat_map_app. Qed.

Lemma text_quiet_listBoundary (bef : JSString) (x : CodeUnit) (v : JSString) :
  N.eqb x LF || plainChar x = true -> quietAt listBoundary bef (x :: v) = true.
Proof.
  intros Hx. apply orb_prop in Hx as [Hx | Hx].
  - apply N.eqb_eq in Hx; subst x. reflexivity.
  - now apply plain_quiet_listBoundary.
Qed.

(** A line-start rule finds nothing at a character that opens no block. *)
Ltac starter_guard :=
  let bef := fresh "bef" in
  let x := fresh "x" in
  let v := fresh "v" in
  let Hx := fresh "Hx" in
  intros bef x v Hx;
  first
    [ apply starterFree_quiet_lit; [cbn [In]; auto | exact Hx]
    | apply quietAt_bol_digit; apply (starterFree_facts x Hx) ].

(** A line-start rule finds nothing at a given position: its literal or its
    digit is not there. *)
Ltac bol_miss :=
  first [ apply quietAt_bol_lit; reflexivity
        | apply quietAt_bol_digit; reflexivity
        | apply quietAt_bol_digit; exact I ].

(** ** The horizontal rule between lines of plain text *)

Lemma matchAt_rule (bef : JSString) (x : CodeUnit) (rest : JSString) :
  match bef with [] => True | c :: _ => dot c = false end ->
  matchAt (regexp (seq [Bol; lit (str "---"); Grp 1 (Cls any)]) true true) bef
    (str "---" ++ x :: rest) = Some (4, [(1, [x])]).
Proof.
  intros Hbef. unfold matchAt.
  cbn [source multiline regexp seq fold_right matcher].
  assert (Hstart : atLineStart true
                     {| before := bef; after := str "---" ++ x :: rest;
                        captures := [] |} = true).
  { unfold atLineStart; cbn [before]. destruct bef as [| c bef];
      [reflexivity |]. unfold dot in Hbef.
    now destruct (isLineTerminator c). }
  rewrite Hstart, matcher_lit. cbn [after before captures].
  change (prefixb (str "---") (str "---" ++ x :: rest)) with true.
  cbv iota.
  change (skipn (List.length (str "---")) (str "---" ++ x :: rest))
    with (x :: rest).
  assert (Hany : any x = true) by (unfold any; now destruct (space x)).
  cbn [advance after before captures]. rewrite Hany.
  cbn [advance after before captures List.length].
  change (List.length (str "---" ++ x :: rest))
    with (4 + List.length rest).
  replace (S (List.length rest) - List.length rest) with 1
    by (unfold JSString, CodeUnit in *; lia).
  rewrite Nat.add_sub. reflexivity.
Qed.


(** Three hyphens on a line of their own, between lines of plain text, are
    rendered as [<hr>], with a [<br>] for the newline on each side. *)
Theorem convert_rule_between_lines :
  forall a b : JSString,
    plainLines a = true -> plainLines b = true ->
    convertToHTML (a ++ LF :: str "---" ++ LF :: b) =
    lineBreaks a ++ str "<br><hr><br>" ++ lineBreaks b.
Proof.
  intros a b Ha Hb. unfold plainLines in Ha, Hb.
  apply andb_prop in Ha as [Hoka Hpla]. apply andb_prop in Hb as [Hokb Hplb].
  pose proof (plainLines_lacks 96%N a eq_refl Hpla) as Ha96.
  pose proof (plainLines_lacks 42%N a eq_refl Hpla) as Ha42.
  pose proof (plainLines_lacks 126%N a eq_refl Hpla) as Ha126.
  pose proof (plainLines_lacks 91%N a eq_refl Hpla) as Ha91.
  pose proof (plainLines_lacks 96%N b eq_refl Hplb) as Hb96.
  pose proof (plainLines_lacks 42%N b eq_refl Hplb) as Hb42.
  pose proof (plainLines_lacks 126%N b eq_refl Hplb) as Hb126.
  pose proof (plainLines_lacks 91%N b eq_refl Hplb) as Hb91.
  change (a ++ LF :: str "---" ++ LF :: b)
    with (a ++ [LF; 45; 45; 45; LF]%N ++ b).
  rewrite convertToHTML_steps.
  change conversions with (firstn 7 conversions ++ skipn 7 conversions).
  rewrite applyRules_app.
  rewrite (applyRules_quiet (firstn 7 conversions)).
  2:{ cbn [firstn conversions].
      repeat (apply Forall_cons;
              [split; [reflexivity |]; cbn [fst];
               first
                 [ quiet_rule
                 | match goal with
                   | |- quietAll ?re _ _ = true =>
                       refine (quietAll_bol_lines_app re _ starterFree eq_refl
                                 _ eq_refl a true [] _ _ Hoka _)
                   end;
                   [ starter_guard
                   | discriminate
                   | cbn [app quietAll];
                     repeat (apply andb_true_intro; split);
                     try bol_miss;
                     match goal with
                     | |- quietAll ?re _ _ = true =>
                         refine (quietAll_bol_lines re _ starterFree eq_refl _
                                   eq_refl _ b true _ _ Hokb)
                     end;
                     [ starter_guard
                     | intros bef; bol_miss
                     | discriminate ] ] ] |]).
      apply Forall_nil. }
  cbn [skipn conversions]. try unfold conversions.
  rewrite applyRules_cons.
  assert (E8 : replace (a ++ [LF; 45; 45; 45; LF]%N ++ b)
                 (regexp (seq [Bol; lit (str "---"); Grp 1 (Cls any)])
                    true true)
                 (str "<hr>$1") =
               a ++ [LF; 60; 104; 114; 62; LF]%N ++ b).
  { rewrite replace_global by reflexivity.
    replace (a ++ [LF; 45; 45; 45; LF]%N ++ b)
      with ((a ++ [LF]) ++ [45; 45; 45; LF]%N ++ b)
      by (now rewrite <- app_assoc).
    rewrite replaceAll_quietPre.
    2:{ match goal with
        | |- quietPre ?re _ _ _ = true =>
            refine (quietPre_bol_lines re _ starterFree eq_refl _ eq_refl _
                      true [] _ _ _)
        end;
        [ starter_guard | discriminate
        | rewrite linesOk_app_LF, Hoka; reflexivity ]. }
    rewrite rev_app_distr. cbn [rev app].
    rewrite (replaceAll_matched _ _ [45; 45; 45; LF]%N b _ [(1, [LF])]);
      [| discriminate | apply (matchAt_rule (LF :: rev a ++ []) LF b); reflexivity].
    rewrite replaceAll_quiet.
    - rewrite <- !app_assoc. reflexivity.
    - match goal with
      | |- quietAll ?re _ _ = true =>
          refine (quietAll_bol_lines re _ starterFree eq_refl _ eq_refl _ b
                    true _ _ Hokb)
      end;
        [ starter_guard | intros bef; bol_miss | discriminate ]. }
  rewrite E8. clear E8.
  rewrite applyRules_quiet; [| quiet_rules].
  rewrite (replace_quiet listBoundary); [| reflexivity |].
  - rewrite replace_newline, !lineBreaks_app. reflexivity.
  - apply (quietAll_mid _ _ text_quiet_listBoundary); [exact Hpla |].
    cbn [app quietAll]. repeat (apply andb_true_intro; split);
      try (vm_compute; reflexivity).
    rewrite <- (app_nil_r b).
    apply (quietAll_mid _ _ text_quiet_listBoundary); [exact Hplb |].
    reflexivity.
Qed.

Lemma convert_rule_between_lines_witness :
  convertToHTML (str "Part one" ++ LF :: str "---" ++ LF :: str "Part two") =
  lineBreaks (str "Part one") ++ str "<br><hr><br>" ++
  lineBreaks (str "Part two").
Proof.
  apply (convert_rule_between_lines (str "Part one") (str "Part two"));
    reflexivity.
Defined.

(** Three hyphens that end the input are not rendered as a rule: the pattern
    asks for one more character after them. *)
Theorem convert_rule_at_end :
  forall a : JSString,
    plainLines a = true ->
    convertToHTML (a ++ LF :: str "---") = lineBreaks a ++ str "<br>---".
Proof.
  intros a Ha. unfold plainLines in Ha.
  apply andb_prop in Ha as [Hoka Hpla].
  pose proof (plainLines_lacks 96%N a eq_refl Hpla) as Ha96.
  pose proof (plainLines_lacks 42%N a eq_refl Hpla) as Ha42.
  pose proof (plainLines_lacks 126%N a eq_refl Hpla) as Ha126.
  pose proof (plainLines_lacks 91%N a eq_refl Hpla) as Ha91.
  pose proof (plainLines_lacks 60%N a eq_refl Hpla) as Ha60.
  change (a ++ LF :: str "---") with (a ++ [LF; 45; 45; 45]%N).
  rewrite convertToHTML_steps.
  rewrite (applyRules_quiet conversions).
  - rewrite (replace_quiet listBoundary); [| reflexivity | quiet_rule].
    rewrite replace_newline, lineBreaks_app. reflexivity.
  - unfold conversions.
    repeat (apply Forall_cons;
            [split; [reflexivity |]; cbn [fst];
             first
               [ quiet_rule
               | match goal with
                 | |- quietAll ?re _ _ = true =>
                     refine (quietAll_bol_lines_app re _ starterFree eq_refl
                               _ eq_refl a true [] _ _ Hoka _)
                 end;
                 [ starter_guard
                 | discriminate
                 | cbn [app quietAll];
                   repeat (apply andb_true_intro; split);
                   first [bol_miss | vm_compute; reflexivity] ] ] |]).
    apply Forall_nil.
Qed.

Lemma convert_rule_at_end_witness :
  convertToHTML (str "The end" ++ LF :: str "---") =
  lineBreaks (str "The end") ++ str "<br>---".
Proof.
  apply (convert_rule_at_end (str "The end")). reflexivity.
Defined.

(** ** A fenced block between lines of plain text *)

Lemma matchAt_fence_rest (bef t rest : JSString) :
  lacks 96%N t = true ->
  matchAt fenceRule bef ((str "```" ++ t ++ str "```") ++ rest) =
  Some (List.length (str "```" ++ t ++ str "```"), [(1, t)]).
Proof.
  intros Hl. unfold matchAt.
  change (source fenceRule)
    with (Seq (lit (str "```"))
            (Seq (Grp 1 (Rep any 0 lazy)) (Seq (lit (str "```")) Empty))).
  rewrite matcher_Seq, matcher_lit. cbn [after before captures].
  rewrite <- (app_assoc (str "```")), prefixb_app, skipn_app, Nat.sub_diag,
    skipn_all.
  cbn [skipn app].
  change (str "```") with (96%N :: str "``") at 3.
  rewrite (matcher_lazy_group (multiline fenceRule) any 1 96%N (str "``") Empty
             Some _ t rest
             {| before := rev (str "```") ++ rev t ++ rev (str "```") ++ bef;
                after := rest; captures := [(1, t)] |}).
  - cbn [after captures]. rewrite (app_assoc (str "```")), length_app.
    now rewrite Nat.add_sub.
  - cbn [after]. now rewrite <- app_assoc.
  - apply forallb_any.
  - exact Hl.
  - reflexivity.
Qed.

Lemma quietPre_all (re : RegExp) (G : CodeUnit -> bool) :
  (forall bef x w, G x = true -> quietAt re bef (x :: w) = true) ->
  forall u bef v, forallb G u = true -> quietPre re bef u v = true.
Proof.
  intros HG u bef v Hu. rewrite <- (app_nil_r u).
  now apply (quietPre_mid re G HG).
Qed.

Lemma tick_quiet_fence (bef : JSString) (x : CodeUnit) (w : JSString) :
  negb (N.eqb x 96) = true -> quietAt fenceRule bef (x :: w) = true.
Proof.
  intros Hx. unfold quietAt.
  destruct (matchAt fenceRule bef (x :: w)) eqn:E; [| reflexivity].
  assert (Hm : matchAt fenceRule bef (x :: w) <> None) by congruence.
  apply (matchAt_lit_prefix fenceRule (str "```") _ bef (x :: w) eq_refl)
    in Hm.
  change (str "```") with [96; 96; 96]%N in Hm. cbn [prefixb] in Hm.
  rewrite N.eqb_sym in Hm. destruct (N.eqb x 96); discriminate.
Qed.

Lemma linesOk_weaken (G : CodeUnit -> bool) (t : JSString) :
  linesOk G true t = true -> linesOk G false t = true.
Proof.
  destruct t as [| x t]; [reflexivity |]. cbn [linesOk].
  destruct (N.eqb x LF); [exact (fun H => H) |]. cbn [negb orb].
  intros H. apply andb_prop in H as [H Ht]. apply andb_prop in H as [Hx _].
  now rewrite Hx, Ht.
Qed.

(** A block fenced the way the code block format writes it, anywhere in
    plain text, is rendered as a [<pre><code>] element; every newline,
    those inside the block too, becomes a [<br>]. *)
Theorem convert_code_block :
  forall a t b : JSString,
    plainLines a = true -> plainLines t = true -> plainLines b = true ->
    convertToHTML
      (a ++ (LF :: str "```" ++ [LF]) ++ t ++ (LF :: str "```") ++ b) =
    lineBreaks a ++ str "<br><pre><code><br>" ++ lineBreaks t ++
    str "<br></code></pre>" ++ lineBreaks b.
Proof.
  intros a t b Ha Ht Hb. unfold plainLines in Ha, Ht, Hb.
  apply andb_prop in Ha as [Hoka Hpla]. apply andb_prop in Ht as [Hokt Hplt].
  apply andb_prop in Hb as [Hokb Hplb].
  pose proof (plainLines_lacks 96%N a eq_refl Hpla) as Ha96.
  pose proof (plainLines_lacks 42%N a eq_refl Hpla) as Ha42.
  pose proof (plainLines_lacks 126%N a eq_refl Hpla) as Ha126.
  pose proof (plainLines_lacks 91%N a eq_refl Hpla) as Ha91.
  pose proof (plainLines_lacks 96%N t eq_refl Hplt) as Ht96.
  pose proof (plainLines_lacks 42%N t eq_refl Hplt) as Ht42.
  pose proof (plainLines_lacks 126%N t eq_refl Hplt) as Ht126.
  pose proof (plainLines_lacks 91%N t eq_refl Hplt) as Ht91.
  pose proof (plainLines_lacks 96%N b eq_refl Hplb) as Hb96.
  pose proof (plainLines_lacks 42%N b eq_refl Hplb) as Hb42.
  pose proof (plainLines_lacks 126%N b eq_refl Hplb) as Hb126.
  pose proof (plainLines_lacks 91%N b eq_refl Hplb) as Hb91.
  rewrite convertToHTML_steps.
  unfold conversions. rewrite applyRules_cons.
  assert (E1 : replace
                 (a ++ (LF :: str "```" ++ [LF]) ++ t ++ (LF :: str "```") ++ b)
                 fenceRule (str "<pre><code>$1</code></pre>") =
               a ++ (LF :: str "<pre><code>" ++ [LF]) ++ t ++
               (LF :: str "</code></pre>") ++ b).
  { rewrite replace_global by reflexivity.
    replace (a ++ (LF :: str "```" ++ [LF]) ++ t ++ (LF :: str "```") ++ b)
      with ((a ++ [LF]) ++
            (str "```" ++ (LF :: t ++ [LF]) ++ str "```") ++ b)
      by (rewrite <- !app_assoc; cbn [app]; now rewrite <- !app_assoc).
    rewrite replaceAll_quietPre.
    2:{ apply (quietPre_all fenceRule _ tick_quiet_fence).
        change (lacks 96%N (a ++ [LF]) = true).
        now rewrite lacks_app, Ha96. }
    rewrite (replaceAll_matched _ _ _ b _ [(1, LF :: t ++ [LF])]);
      [| discriminate | apply matchAt_fence_rest ].
    2:{ change (lacks 96%N ([LF] ++ t ++ [LF]) = true).
        now rewrite !lacks_app, Ht96. }
    change (substitute _ _ _ [(1, LF :: t ++ [LF])])
      with (str "<pre><code>" ++ (LF :: t ++ [LF]) ++ str "</code></pre>").
    rewrite replaceAll_quiet.
    - rewrite <- !app_assoc; cbn [app]; now rewrite <- !app_assoc.
    - apply (quietAll_count fenceRule 96%N 3).
      + intros bef w Hm. apply (count_prefix 96%N (str "```") w).
        exact (matchAt_lit_prefix fenceRule (str "```") _ bef w eq_refl Hm).
      + rewrite (count_lacks 96%N b Hb96). lia. }
  change (regexp
            (seq [lit (str "```"); Grp 1 (Rep any 0 lazy); lit (str "```")])
            true false) with fenceRule.
  rewrite E1. clear E1.
  assert (Hok1 : linesOk starterFree true
                   (a ++ (LF :: str "<pre><code>" ++ [LF]) ++ t ++
                    (LF :: str "</code></pre>") ++ b) = true).
  { change (linesOk starterFree true
              (a ++ LF :: (str "<pre><code>" ++ LF ::
                 (t ++ LF :: (str "</code></pre>" ++ b)))) = true).
    rewrite !linesOk_app_LF, Hoka, Hokt.
    change (linesOk starterFree true (str "</code></pre>" ++ b))
      with (linesOk starterFree false b).
    now rewrite (linesOk_weaken starterFree b Hokb). }
  rewrite applyRules_quiet.
  2:{ repeat (apply Forall_cons;
              [split; [reflexivity |]; cbn [fst];
               first
                 [ quiet_rule
                 | match goal with
                   | |- quietAll ?re _ _ = true =>
                       refine (quietAll_bol_lines re _ starterFree eq_refl _
                                 eq_refl _ _ true [] _ Hok1)
                   end;
                   [ starter_guard | intros bef; bol_miss | discriminate ] ]
              |]).
      apply Forall_nil. }
  rewrite (replace_quiet listBoundary); [| reflexivity |].
  - rewrite replace_newline, !lineBreaks_app. reflexivity.
  - apply (quietAll_mid _ _ text_quiet_listBoundary); [exact Hpla |].
    cbn [app str map list_ascii_of_string quietAll].
    repeat (apply andb_true_intro; split); try (vm_compute; reflexivity).
    apply (quietAll_mid _ _ text_quiet_listBoundary); [exact Hplt |].
    cbn [app str map list_ascii_of_string quietAll].
    repeat (apply andb_true_intro; split); try (vm_compute; reflexivity).
    rewrite <- (app_nil_r b).
    apply (quietAll_mid _ _ text_quiet_listBoundary); [exact Hplb |].
    reflexivity.
Qed.

Lemma convert_code_block_witness :
  convertToHTML
    (str "Run:" ++ (LF :: str "```" ++ [LF]) ++
     (str "make all" ++ LF :: str "make test") ++ (LF :: str "```") ++ []) =
  lineBreaks (str "Run:") ++ str "<br><pre><code><br>" ++
  lineBreaks (str "make all" ++ LF :: str "make test") ++
  str "<br></code></pre>" ++ lineBreaks [].
Proof.
  apply (convert_code_block (str "Run:")
           (str "make all" ++ LF :: str "make test") []); reflexivity.
Defined.
